(** * RohlikApi middleware: session store, rate-limited transport,
      HTML extraction and dual-path cart mutation

    A shallow embedding of the TypeScript sources
    - [middleware/src/services/html-parser.ts]  ([HtmlParserService]),
    - [middleware/src/services/product-service.ts] ([ProductService]),
    - the session manager ([SessionManager]),
    - the HTTP client ([RohlikClient]) and
    - the cart service ([CartService]),
    together with the properties stated about them.

    Conventions.
    - A JavaScript string is the list of its UTF-16 code units.
    - A JavaScript number is an IEEE-754 binary64 value, represented by
      [spec_float] with the operations of the standard library's
      [SpecFloat] at precision 53 and maximal exponent 1024.
    - Time values ([Date]) are integral numbers of milliseconds, kept in [Z].
    - [undefined]/[null] results are [None].
    - Asynchronous code runs sequentially in a state-and-exception monad
      over a world that holds every mutable object of the services and
      an environment oracle (clock, remote site, authentication service). *)

From Stdlib Require Import ZArith NArith List String Ascii Bool Lia QArith.
From Stdlib Require Import SpecFloat.
From stdpp Require Import base option list gmap.

Open Scope Z_scope.

(* ===================================================================== *)
(** * JavaScript values *)
(* ===================================================================== *)

Module Js.

(** ** Strings *)

Definition jsstring := list N.

Definition ch (a : ascii) : N := N_of_ascii a.
Arguments ch : simpl never.

(** The code units of an ASCII literal. *)
Definition js (s : string) : jsstring := ch <$> list_ascii_of_string s.

(** The code units of an ASCII literal in which every apostrophe stands
    for a double quote; used to write selectors such as
    [[data-test="price"]]. *)
Definition jsq (s : string) : jsstring :=
  (fun c => if (c =? 39)%N then 34%N else c) <$> js s.

Arguments js : simpl never.
Arguments jsq : simpl never.

(** ECMAScript [WhiteSpace] and [LineTerminator] code units, as used by
    [String.prototype.trim] and by [parseFloat]/[parseInt]. *)
Definition is_white_space (c : N) : bool :=
  ((9 <=? c) && (c <=? 13) || (c =? 32) || (c =? 160) || (c =? 5760)
   || (8192 <=? c) && (c <=? 8202) || (c =? 8232) || (c =? 8233)
   || (c =? 8239) || (c =? 8287) || (c =? 12288) || (c =? 65279))%N.

Fixpoint trimStart (s : jsstring) : jsstring :=
  match s with
  | c :: s' => if is_white_space c then trimStart s' else s
  | [] => []
  end.

Definition trim (s : jsstring) : jsstring :=
  rev (trimStart (rev (trimStart s))).

(** [\d] in a regular expression without the [u]/[i] flags. *)
Definition is_digit (c : N) : bool := ((48 <=? c) && (c <=? 57))%N.

Definition digit_value (c : N) : Z := Z.of_N c - 48.

(** [s.replace(c, d)] for one-unit strings [c] and [d]: only the first
    occurrence is replaced. *)
Fixpoint replace_first (c d : N) (s : jsstring) : jsstring :=
  match s with
  | [] => []
  | x :: s' => if (x =? c)%N then d :: s' else x :: replace_first c d s'
  end.

(** [s.startsWith(p)]. *)
Fixpoint startsWith (p s : jsstring) : bool :=
  match p, s with
  | [], _ => true
  | a :: p', b :: s' => (a =? b)%N && startsWith p' s'
  | _ :: _, [] => false
  end.

(** A string is truthy when it is not empty. *)
Definition truthy_str (s : jsstring) : bool :=
  match s with [] => false | _ => true end.

(** ** Numbers *)

Definition number := spec_float.

Definition prec : Z := 53.
Definition emax : Z := 1024.

Definition NaN : number := S754_nan.

(** The number whose value is the integer [n] (rounded to nearest even
    when [n] needs more than 53 bits). *)
Definition of_Z (n : Z) : number := binary_normalize prec emax n 0 false.

Definition add (x y : number) : number := SFadd prec emax x y.
Definition sub (x y : number) : number := SFsub prec emax x y.
Definition mul (x y : number) : number := SFmul prec emax x y.
Definition div (x y : number) : number := SFdiv prec emax x y.
Definition ltb (x y : number) : bool := SFltb x y.

Definition isNaN (x : number) : bool :=
  match x with S754_nan => true | _ => false end.

(** [ToBoolean] on numbers: [+0], [-0] and [NaN] are falsy. *)
Definition truthy_num (x : number) : bool :=
  match x with
  | S754_zero _ | S754_nan => false
  | _ => true
  end.

(** [Math.round]: the closest integer, ties towards +infinity; values in
    [[-0.5, -0]] give [-0]. *)
Definition Math_round (x : number) : number :=
  match x with
  | S754_finite s m e =>
      if 0 <=? e then x
      else
        let k := 2 ^ (- e) in
        let n := (2 * cond_Zopp s (Zpos m) + k) / (2 * k) in
        if n =? 0 then S754_zero s else of_Z n
  | _ => x
  end.

(** The number nearest to [(-1)^neg * m * 10^e10]. *)
Definition decimal_value (neg : bool) (m : Z) (e10 : Z) : number :=
  match m with
  | Zpos p =>
      let num := Z.to_pos (Zpos p * 10 ^ Z.max e10 0) in
      let den := Z.to_pos (10 ^ Z.max (- e10) 0) in
      div (S754_finite neg num 0) (S754_finite false den 0)
  | _ => S754_zero neg
  end.

(** The longest prefix of decimal digits, as digit values, and the rest. *)
Fixpoint take_digits (s : jsstring) : list Z * jsstring :=
  match s with
  | c :: s' =>
      if is_digit c
      then let '(ds, r) := take_digits s' in (digit_value c :: ds, r)
      else ([], s)
  | [] => ([], [])
  end.

Definition digits_value (ds : list Z) : Z :=
  fold_left (fun acc d => 10 * acc + d) ds 0.

(** An optional sign: [(is_negative, rest)]. *)
Definition take_sign (s : jsstring) : bool * jsstring :=
  match s with
  | c :: s' =>
      if (c =? ch "-")%N then (true, s')
      else if (c =? ch "+")%N then (false, s')
      else (false, s)
  | [] => (false, [])
  end.

(** [ExponentPart]: [e] or [E], an optional sign and at least one digit;
    anything else is not part of the literal and counts as exponent 0. *)
Definition take_exponent (s : jsstring) : Z :=
  match s with
  | c :: s' =>
      if ((c =? ch "e") || (c =? ch "E"))%N then
        let '(neg, r) := take_sign s' in
        let '(ds, _) := take_digits r in
        match ds with
        | [] => 0
        | _ => cond_Zopp neg (digits_value ds)
        end
      else 0
  | [] => 0
  end.

(** [parseFloat]: leading white space is skipped, then the longest
    prefix that is a [StrDecimalLiteral] is converted; [NaN] when there
    is none. *)
Definition parseFloat (s : jsstring) : number :=
  let '(neg, s1) := take_sign (trimStart s) in
  if startsWith (js "Infinity") s1 then S754_infinity neg
  else
    let '(ip, r1) := take_digits s1 in
    let '(fp, r2) :=
      match r1 with
      | c :: r =>
          if (c =? ch ".")%N then take_digits r else ([], r1)
      | [] => ([], r1)
      end in
    match ip, fp with
    | [], [] => NaN
    | _, _ =>
        (* [5.e3] is a literal, [.e3] is not; the exponent may follow
           the integer part, the dot or the fraction *)
        decimal_value neg (digits_value (ip ++ fp))
                      (take_exponent r2 - Z.of_nat (length fp))
    end.

End Js.

(* ===================================================================== *)
(** * Documents as seen through cheerio *)
(* ===================================================================== *)

(** A parsed document is represented by the answers of the selector
    engine: every element carries its text content, its attributes, the
    result of [.val()] on it, and, for each selector string the services
    use, the list of matching descendants in document order.  The root
    element stands for [cheerio.load(html)]. *)
Module Cheerio.
Import Js.

#[warnings="-register-all"]
Inductive Element : Type :=
  mkElement {
    el_text : jsstring;
    el_attrs : list (jsstring * jsstring);
    el_val : option jsstring;
    el_matches : list (jsstring * list Element)
  }.

Definition Selection := list Element.

Fixpoint assoc {A} (k : jsstring) (l : list (jsstring * A)) : option A :=
  match l with
  | [] => None
  | (k', v) :: l' => if decide (k' = k) then Some v else assoc k l'
  end.

(** [$(selector)] on a loaded document, [$el.find(selector)] on one element. *)
Definition select (root : Element) (selector : jsstring) : Selection :=
  default [] (assoc selector (el_matches root)).

(** [sel.find(selector)]. *)
Definition find (sel : Selection) (selector : jsstring) : Selection :=
  flat_map (fun e => select e selector) sel.

(** [sel.first()] and [sel.last()]. *)
Definition first (sel : Selection) : Selection :=
  match sel with e :: _ => [e] | [] => [] end.

Definition last (sel : Selection) : Selection :=
  match List.last (Some <$> sel) None with Some e => [e] | None => [] end.

(** [sel.text()]: the concatenated text of all elements of the selection. *)
Definition text (sel : Selection) : jsstring :=
  flat_map el_text sel.

(** [sel.attr(name)]: the attribute of the first element. *)
Definition attr (sel : Selection) (name : jsstring) : option jsstring :=
  match sel with
  | e :: _ => assoc name (el_attrs e)
  | [] => None
  end.

(** [sel.val()]: the value of the first element. *)
Definition val (sel : Selection) : option jsstring :=
  match sel with
  | e :: _ => el_val e
  | [] => None
  end.

(** A document in which no selector matches anything. *)
Definition empty_document : Element := mkElement [] [] None [].

End Cheerio.

(* ===================================================================== *)
(** * Exceptions and the loggers (utils/logger.ts) *)
(* ===================================================================== *)

Module Exceptions.
Import Js.

(** JavaScript exceptions: [new Error(message)], the [TypeError] of the
    language and of the platform, and the error with which axios rejects
    a request. *)
Inductive Exn :=
  | Error (message : jsstring)
  | TypeError
  | AxiosError (status : option Z).

Inductive Outcome (A : Type) :=
  | Ok (a : A)
  | Throw (e : Exn).
Arguments Ok {A} a.
Arguments Throw {A} e.

(** [try { o } catch (e) { h e }] on code without state. *)
Definition or_catch {A} (o : Outcome A) (h : Exn -> Outcome A) : Outcome A :=
  match o with
  | Ok a => Ok a
  | Throw e => h e
  end.

(** [o; k]. *)
Definition and_then {A B} (o : Outcome A) (k : A -> Outcome B) : Outcome B :=
  match o with
  | Ok a => k a
  | Throw e => Throw e
  end.

End Exceptions.

(** utils/logger.ts exports [logger], [createComponentLogger],
    [httpLogger], [sessionLogger], [authLogger], [cartLogger],
    [productLogger] and [middlewareLogger].  What a logger writes is not
    represented; a call of one of its methods returns nothing.  The file
    has no export named [serviceLogger]: the binding that html-parser.ts
    imports under that name is [undefined], and a method call on it
    throws a [TypeError]. *)
Module Logger.
Import Js Exceptions.

Inductive Logger := ComponentLogger (component : jsstring).

Definition serviceLogger : option Logger := None.

(** [binding.info(...)], [binding.error(...)]. *)
Definition info (binding : option Logger) : Outcome unit :=
  match binding with
  | Some _ => Ok tt
  | None => Throw TypeError
  end.

Definition error (binding : option Logger) : Outcome unit :=
  match binding with
  | Some _ => Ok tt
  | None => Throw TypeError
  end.

End Logger.

(* ===================================================================== *)
(** * [HtmlParserService] (html-parser.ts) *)
(* ===================================================================== *)

Module HtmlParserService.
Import Js Cheerio Exceptions.
Local Open Scope string_scope.
Local Open Scope list_scope.

Record ParsedProductData : Type := mkProduct {
  id : jsstring;
  name : jsstring;
  price : number;
  originalPrice : option number;
  discount : option number;
  unit : jsstring;
  unitPrice : number;
  unitType : jsstring;
  weight : option jsstring;
  description : option jsstring;
  imageUrl : option jsstring;
  category : option jsstring;
  tags : list jsstring;
  inStock : bool;
  nutritionalInfo : option (gmap jsstring jsstring);
  ingredients : option jsstring
}.

(** [parsePrice] of the HTML parser: [undefined] for an empty text and
    for a text that [parseFloat] cannot read. *)
Definition parsePrice (priceText : jsstring) : option number :=
  if negb (truthy_str priceText) then None
  else
    (* priceText.replace(/[^\d,.-]/g, '') *)
    let cleanPrice :=
      filter (fun c => is_digit c || (c =? ch ",")%N || (c =? ch ".")%N
                        || (c =? ch "-")%N = true) priceText in
    (* cleanPrice.replace(',', '.') *)
    let normalizedPrice := replace_first (ch ",") (ch ".") cleanPrice in
    let price := parseFloat normalizedPrice in
    if isNaN price then None else Some price.

(** The loop shared by the text extractors:
    [for (const selector of selectors) {
       const t = $(selector).first().text().trim(); if (t) return t; }
     return undefined;] *)
Fixpoint first_text (doc : Element) (selectors : list string) : option jsstring :=
  match selectors with
  | [] => None
  | selector :: rest =>
      let t := trim (text (first (select doc (jsq selector)))) in
      if truthy_str t then Some t else first_text doc rest
  end.

(** The loop shared by the price extractors. *)
Fixpoint first_price (doc : Element) (selectors : list string) : option number :=
  match selectors with
  | [] => None
  | selector :: rest =>
      let priceText := trim (text (first (select doc (jsq selector)))) in
      match parsePrice priceText with
      | Some price => Some price
      | None => first_price doc rest
      end
  end.

Definition extractProductName (doc : Element) : option jsstring :=
  first_text doc ["h1[data-test='product-title']"; ".product-title";
                  ".productTitle"; "h1.title"; "[data-test='product-name']";
                  ".product-name"].

Definition extractPrice (doc : Element) : option number :=
  first_price doc ["[data-test='product-price']"; ".price-current";
                   ".product-price"; ".price"; "[data-test='price']"].

Definition extractOriginalPrice (doc : Element) : option number :=
  first_price doc ["[data-test='product-price-original']"; ".price-original";
                   ".price-crossed"; ".original-price"; ".price-before"].

Definition extractUnit (doc : Element) : option jsstring :=
  match first_text doc ["[data-test='product-unit']"; ".product-unit"; ".unit"] with
  | Some unit => Some unit
  | None => Some (js "ks")
  end.

Definition extractUnitPrice (doc : Element) : option number :=
  first_price doc ["[data-test='unit-price']"; ".unit-price"; ".price-per-unit"].

Definition extractUnitType (doc : Element) : option jsstring :=
  match first_text doc ["[data-test='unit-type']"; ".unit-type"] with
  | Some unitType => Some unitType
  | None => Some (js "ks")
  end.

Fixpoint first_src (doc : Element) (selectors : list string) : option jsstring :=
  match selectors with
  | [] => None
  | selector :: rest =>
      match attr (first (select doc (jsq selector))) (js "src") with
      | Some src =>
          if truthy_str src
          then Some (if startsWith (js "http") src then src
                     else js "https://www.rohlik.cz" ++ src)
          else first_src doc rest
      | None => first_src doc rest
      end
  end.

Definition extractImageUrl (doc : Element) : option jsstring :=
  first_src doc ["[data-test='product-image'] img"; ".product-image img";
                 ".productImage img"; "img[alt*='product']"].

Definition extractDescription (doc : Element) : option jsstring :=
  first_text doc ["[data-test='product-description']"; ".product-description";
                  ".description"; ".product-info"].

Definition extractCategory (doc : Element) : option jsstring :=
  first_text doc ["[data-test='breadcrumb'] a:last-child";
                  ".breadcrumb a:last-child"; ".category-name"].

(** [if (tag && !tags.includes(tag)) tags.push(tag)] over every element
    of every selector, in order. *)
Definition push_tag (tags : list jsstring) (element : Element) : list jsstring :=
  let tag := trim (el_text element) in
  if truthy_str tag && negb (bool_decide (tag ∈ tags)) then tags ++ [tag] else tags.

Definition extractTags (doc : Element) : list jsstring :=
  fold_left
    (fun tags selector => fold_left push_tag (select doc (jsq selector)) tags)
    ["[data-test='product-tag']"; ".product-tag"; ".tag"; ".badge"; ".label"]
    [].

Definition extractStockStatus (doc : Element) : bool :=
  negb (existsb (fun selector => (0 <? length (select doc (jsq selector)))%nat)
          ["[data-test='out-of-stock']"; ".out-of-stock"; ".unavailable"; ".sold-out"]).

Definition extractWeight (doc : Element) : option jsstring :=
  first_text doc ["[data-test='product-weight']"; ".product-weight"; ".weight"].

(** [object[key] = value] on a plain object and a string value: an own
    property is written, except for the key [__proto__], whose setter
    ignores a value that is neither an object nor [null]. *)
Definition assign (key value : jsstring) (object : gmap jsstring jsstring)
  : gmap jsstring jsstring :=
  if bool_decide (key = js "__proto__") then object else <[key := value]> object.

(** [extractNutritionalInfo]: [undefined] when the object has no own
    key. *)
Definition extractNutritionalInfo (doc : Element) : option (gmap jsstring jsstring) :=
  let nutritionalInfo :=
    fold_left
      (fun (info : gmap jsstring jsstring) row =>
         let label := trim (text (select row (js "td:first-child, th:first-child"))) in
         let value := trim (text (select row (js "td:last-child, th:last-child"))) in
         if truthy_str label && truthy_str value && negb (bool_decide (label = value))
         then assign label value info else info)
      (select doc (js ".nutritional-info tr, .nutrition-table tr"))
      ∅ in
  if bool_decide (nutritionalInfo = ∅) then None else Some nutritionalInfo.

Definition extractIngredients (doc : Element) : option jsstring :=
  first_text doc ["[data-test='ingredients']"; ".ingredients"; ".composition"].

(** [x || d] on an optional string and on optional numbers. *)
Definition or_str (x : option jsstring) (d : jsstring) : jsstring :=
  match x with
  | Some s => if truthy_str s then s else d
  | None => d
  end.

Definition or_num (x : option number) (d : number) : number :=
  match x with
  | Some n => if truthy_num n then n else d
  | None => d
  end.

(** The object [productData] that [parseProductPage] builds from the
    loaded document before it logs (html-parser.ts:38-77). *)
Definition productData (doc : Element) (productId : jsstring)
  : ParsedProductData :=
  let name := extractProductName doc in
  let price := extractPrice doc in
  let originalPrice := extractOriginalPrice doc in
  let unit := extractUnit doc in
  let unitPrice := extractUnitPrice doc in
  let unitType := extractUnitType doc in
  let imageUrl := extractImageUrl doc in
  let description := extractDescription doc in
  let category := extractCategory doc in
  let tags := extractTags doc in
  let inStock := extractStockStatus doc in
  let weight := extractWeight doc in
  let nutritionalInfo := extractNutritionalInfo doc in
  let ingredients := extractIngredients doc in
  (* originalPrice && price ? Math.round(...) : undefined *)
  let discount :=
    match originalPrice, price with
    | Some o, Some p =>
        if truthy_num o && truthy_num p
        then Some (Math_round (mul (div (sub o p) o) (of_Z 100)))
        else None
    | _, _ => None
    end in
  {|
    id := productId;
    name := or_str name (js "Unknown Product");
    price := or_num price (of_Z 0);
    originalPrice := originalPrice;
    discount := discount;
    unit := or_str unit (js "ks");
    unitPrice := or_num unitPrice (or_num price (of_Z 0));
    unitType := or_str unitType (js "ks");
    weight := weight;
    description := description;
    imageUrl := imageUrl;
    category := category;
    tags := tags;
    inStock := inStock;
    nutritionalInfo := nutritionalInfo;
    ingredients := ingredients
  |}.

(** [parseProductPage]: the object is built, [serviceLogger.info] is
    called and the object is returned; the [catch] calls
    [serviceLogger.error] and returns [null].  With the binding
    [serviceLogger] as it is, the call in the [try] throws and so does
    the call in the [catch]. *)
Definition parseProductPage (doc : Element) (productId : jsstring)
  : Outcome (option ParsedProductData) :=
  or_catch
    (let productData := productData doc productId in
     and_then (Logger.info Logger.serviceLogger) (fun _ =>
     Ok (Some productData)))
    (fun _ =>
     and_then (Logger.error Logger.serviceLogger) (fun _ =>
     Ok None)).

(** [parseProductCard]: one card of a listing page.  Nothing in its [try]
    throws, so its [catch], which logs, is not entered. *)
Definition parseProductCard (product : Element) (productId : jsstring)
  : option ParsedProductData :=
  let name :=
    trim (text (first (select product
      (jsq ".product-name, .productName, [data-test='product-name']")))) in
  let priceText :=
    trim (text (first (select product
      (jsq ".price, .product-price, [data-test='price']")))) in
  match parsePrice priceText with
  | Some price =>
      if negb (truthy_str name) then None
      else Some {|
        id := productId; name := name; price := price;
        originalPrice := None; discount := None;
        unit := js "ks"; unitPrice := price; unitType := js "ks";
        weight := None; description := None; imageUrl := None;
        category := None; tags := []; inStock := true;
        nutritionalInfo := None; ingredients := None
      |}
  | None => None
  end.

(** [href.match(/\/(\d+)-/)]: the digits of the first occurrence of a
    slash, one or more digits and a dash. *)
Fixpoint span_digits (s : jsstring) : jsstring * jsstring :=
  match s with
  | c :: s' =>
      if is_digit c then let '(ds, r) := span_digits s' in (c :: ds, r)
      else ([], s)
  | [] => ([], [])
  end.

Fixpoint match_product_href (href : jsstring) : option jsstring :=
  match href with
  | [] => None
  | c :: rest =>
      if (c =? ch "/")%N then
        match span_digits rest with
        | (d :: ds, x :: _) =>
            if (x =? ch "-")%N then Some (d :: ds) else match_product_href rest
        | _ => match_product_href rest
        end
      else match_product_href rest
  end.

Fixpoint first_attr (product : Element) (idAttributes : list string) : option jsstring :=
  match idAttributes with
  | [] => None
  | a :: rest =>
      match attr [product] (js a) with
      | Some i => if truthy_str i then Some i else first_attr product rest
      | None => first_attr product rest
      end
  end.

Definition extractProductId (product : Element) : option jsstring :=
  match first_attr product ["data-product-id"; "data-id"; "id"] with
  | Some i => Some i
  | None =>
      match attr (first (select product (js "a"))) (js "href") with
      | Some href =>
          if truthy_str href then match_product_href href else None
      | None => None
      end
  end.

(** The array [products] that the loop of [parseProductList] fills
    (html-parser.ts:104-117): every card is parsed independently; cards
    without an identifier or that fail to parse are skipped. *)
Definition products (doc : Element) : list ParsedProductData :=
  fold_left
    (fun products element =>
       match extractProductId element with
       | Some productId =>
           if truthy_str productId then
             match parseProductCard element productId with
             | Some productData => products ++ [productData]
             | None => products
             end
           else products
       | None => products
       end)
    (select doc (js ".productCard, .product-card, [data-product-id]"))
    [].

(** [parseProductList]: the array is filled, [serviceLogger.info] is
    called and the array is returned; the [catch] calls
    [serviceLogger.error] and returns the empty array. *)
Definition parseProductList (doc : Element) : Outcome (list ParsedProductData) :=
  or_catch
    (let products := products doc in
     and_then (Logger.info Logger.serviceLogger) (fun _ =>
     Ok products))
    (fun _ =>
     and_then (Logger.error Logger.serviceLogger) (fun _ =>
     Ok [])).

End HtmlParserService.

(* ===================================================================== *)
(** * [SessionManager] (session-manager.ts) *)
(* ===================================================================== *)

(** Every method that reads the clock takes the value read as an
    argument, one argument per read, in the order of the reads. *)
Module SessionManager.
Import Js.

(** Modelled from the spec: the cookie jar is the [CookieJar] of the
    tough-cookie package, which is not part of the sources.  A jar is
    represented by the raw [Set-Cookie] headers stored in it since it was
    created, each with the URL it came from; the matching rules of
    [getCookieString] are not represented. *)
Definition CookieJar := list (jsstring * jsstring).

Definition new_CookieJar : CookieJar := [].

Record SessionData : Type := mkSessionData {
  sessionId : option jsstring;
  userId : option jsstring;
  email : option jsstring;
  isAuthenticated : bool;
  lastActivity : Z;
  expiresAt : Z
}.

Record t : Type := mkSessionManager {
  cookieJar : CookieJar;
  sessionData : SessionData;
  sessionTimeout : Z
}.

(** [config.getNumber('SESSION_TIMEOUT_MINUTES') * 60 * 1000]. *)
Definition timeout_of_minutes (minutes : Z) : Z := minutes * 60 * 1000.

(** The constructor; [now] is the value of [Date.now()], the value of
    [new Date()] is [now0]. *)
Definition create (minutes : Z) (now0 now : Z) : t :=
  let sessionTimeout := timeout_of_minutes minutes in
  {| cookieJar := new_CookieJar;
     sessionData := {| sessionId := None; userId := None; email := None;
                       isAuthenticated := false;
                       lastActivity := now0;
                       expiresAt := now + sessionTimeout |};
     sessionTimeout := sessionTimeout |}.

Definition clearSession (now0 now : Z) (sm : t) : t :=
  {| cookieJar := new_CookieJar;
     sessionData := {| sessionId := None; userId := None; email := None;
                       isAuthenticated := false;
                       lastActivity := now0;
                       expiresAt := now + sessionTimeout sm |};
     sessionTimeout := sessionTimeout sm |}.

(** [isSessionValid]: [now] is read first; [now0] and [now1] are the two
    reads of [clearSession], which happen only when the session is
    cleared. *)
Definition isSessionValid (now now0 now1 : Z) (sm : t) : bool * t :=
  let isValid :=
    isAuthenticated (sessionData sm) && (now <? expiresAt (sessionData sm)) in
  if negb isValid && isAuthenticated (sessionData sm)
  then (isValid, clearSession now0 now1 sm)
  else (isValid, sm).

Definition updateActivity (now : Z) (sm : t) : t :=
  {| cookieJar := cookieJar sm;
     sessionData := {| sessionId := sessionId (sessionData sm);
                       userId := userId (sessionData sm);
                       email := email (sessionData sm);
                       isAuthenticated := isAuthenticated (sessionData sm);
                       lastActivity := now;
                       expiresAt := now + sessionTimeout sm |};
     sessionTimeout := sessionTimeout sm |}.

Definition setAuthenticated (now : Z) (sid : jsstring)
    (uid mail : option jsstring) (sm : t) : t :=
  {| cookieJar := cookieJar sm;
     sessionData := {| sessionId := Some sid; userId := uid; email := mail;
                       isAuthenticated := true;
                       lastActivity := now;
                       expiresAt := now + sessionTimeout sm |};
     sessionTimeout := sessionTimeout sm |}.

(** [for (const cookie of cookies) await this.cookieJar.setCookie(cookie,
    url)] inside one [try]: the headers are stored one by one, and the
    first one that the jar rejects (its [setCookie] throws) ends the loop;
    the headers after it are not stored.  Which headers the jar rejects
    for a URL is given by [accepts]. *)
Fixpoint stored (accepts : jsstring -> bool) (cookies : list jsstring)
  : list jsstring :=
  match cookies with
  | [] => []
  | cookie :: rest => if accepts cookie then cookie :: stored accepts rest else []
  end.

(** [setCookiesFromResponse]; its [catch] logs and returns. *)
Definition setCookiesFromResponse (accepts : jsstring -> jsstring -> bool)
    (url : jsstring) (cookies : list jsstring) (sm : t) : t :=
  {| cookieJar :=
       cookieJar sm ++ ((fun c => (c, url)) <$> stored (accepts url) cookies);
     sessionData := sessionData sm;
     sessionTimeout := sessionTimeout sm |}.

(** [needsRenewal]: the remaining time (a difference of two time values,
    which is exact) and the threshold [sessionTimeout * 0.2] are numbers;
    the literal [0.2] is the number nearest to 2/10. *)
Definition needsRenewal (now : Z) (sm : t) : bool :=
  if negb (isAuthenticated (sessionData sm)) then false
  else
    let timeUntilExpiry := of_Z (expiresAt (sessionData sm) - now) in
    let renewalThreshold :=
      mul (of_Z (sessionTimeout sm)) (decimal_value false 2 (-1)) in
    ltb timeUntilExpiry renewalThreshold.

(** [getSessionData]: a copy of the session data. *)
Definition getSessionData (sm : t) : SessionData := sessionData sm.

(** ** Redaction for the logs *)

(** The characters that [.] of a regular expression does not match. *)
Definition is_line_terminator (c : N) : bool :=
  ((c =? 10) || (c =? 13) || (c =? 8232) || (c =? 8233))%N.

(** The first line of a text (up to its line terminator, excluded) and
    what follows it. *)
Fixpoint span_line (s : jsstring) : jsstring * jsstring :=
  match s with
  | [] => ([], [])
  | c :: s' =>
      if is_line_terminator c then ([], s)
      else let '(l, r) := span_line s' in (c :: l, r)
  end.

(** The part of a line from its last [@] on. *)
Fixpoint from_last_at (l : jsstring) : option jsstring :=
  match l with
  | [] => None
  | c :: l' =>
      match from_last_at l' with
      | Some r => Some r
      | None => if (c =? ch "@")%N then Some l else None
      end
  end.

(** The match that starts a line, for the pattern "two characters (group
    1), any characters, an [@] followed by any characters (group 2)",
    replaced by group 1, three stars and group 2: the greedy middle part
    runs up to the last [@] of the line, and group 2 takes the rest of
    the line. *)
Definition mask_line (l : jsstring) : option jsstring :=
  match l with
  | a :: b :: l' =>
      match from_last_at l' with
      | Some domain => Some ([a; b] ++ js "***" ++ domain)
      | None => None
      end
  | _ => None
  end.

(** [email.replace(pattern, '$1***$2')] for that pattern: the leftmost
    match is replaced.  A match cannot span a line terminator, and within
    a line a match exists exactly when one starts at the beginning of the
    line. *)
Fixpoint mask_email_from (line_start : bool) (s : jsstring) : jsstring :=
  match s with
  | [] => []
  | c :: s' =>
      if line_start then
        match mask_line (fst (span_line s)) with
        | Some masked => masked ++ snd (span_line s)
        | None => c :: mask_email_from (is_line_terminator c) s'
        end
      else c :: mask_email_from (is_line_terminator c) s'
  end.

Definition mask_email (email : jsstring) : jsstring := mask_email_from true email.

Record SessionInfo : Type := mkSessionInfo {
  info_isAuthenticated : bool;
  info_lastActivity : Z;
  info_expiresAt : Z;
  info_sessionId : option jsstring;
  info_userId : option jsstring;
  info_email : option jsstring
}.

(** [getSessionInfo]: the session data with the identifier cut to
    [sessionId.substring(0, 8) + '...'] and the e-mail address masked. *)
Definition getSessionInfo (sm : t) : SessionInfo :=
  {| info_isAuthenticated := isAuthenticated (sessionData sm);
     info_lastActivity := lastActivity (sessionData sm);
     info_expiresAt := expiresAt (sessionData sm);
     info_sessionId :=
       match sessionId (sessionData sm) with
       | Some sid => if truthy_str sid then Some (take 8 sid ++ js "...") else None
       | None => None
       end;
     info_userId := userId (sessionData sm);
     info_email :=
       match email (sessionData sm) with
       | Some e => if truthy_str e then Some (mask_email e) else None
       | None => None
       end |}.

End SessionManager.

(* ===================================================================== *)
(** * The world: network, clock and the state of the services *)
(* ===================================================================== *)

Module Net.
Import Js Cheerio.
Export Exceptions.

Inductive Method := GET | POST.

Inductive JsonValue :=
  | JString (s : jsstring)
  | JNumber (n : number)
  | JBool (b : bool)
  | JNull.

(** A value of a form field: a string, or the decimal rendering
    [n.toString()] of a number, which is kept symbolic. *)
Inductive FormValue :=
  | FString (s : jsstring)
  | FNumberToString (n : number).

Inductive Body :=
  | NoBody
  | JsonBody (fields : list (jsstring * JsonValue))
  | FormBody (fields : list (jsstring * FormValue)).

Record Request : Type := mkRequest {
  method : Method;
  url : jsstring;
  body : Body
}.

(** What a response carries: nothing (an empty body, falsy), an HTML page
    (represented by the document cheerio loads from it) or a JSON
    object. *)
Inductive Data :=
  | DEmpty
  | DHtml (doc : Element)
  | DJson (fields : list (jsstring * JsonValue)).

Record Response : Type := mkResponse {
  status : Z;
  data : Data;
  set_cookie : list jsstring
}.

(** The remote site answers a request or the connection fails. *)
Inductive Reply :=
  | Answer (r : Response)
  | NetworkError.

(** [cheerio.load(response.data)]; anything that is not a page loads as
    a document in which no selector matches. *)
Definition load (d : Data) : Element :=
  match d with
  | DHtml doc => doc
  | _ => empty_document
  end.

(** [!data]: only the empty body is falsy. *)
Definition truthy_data (d : Data) : bool :=
  match d with DEmpty => false | _ => true end.

(** [response.data?.success === true]. *)
Definition data_success (d : Data) : bool :=
  match d with
  | DJson fields =>
      match assoc (js "success") fields with
      | Some (JBool true) => true
      | _ => false
      end
  | _ => false
  end.

End Net.

(** Modelled from the spec: the fixed-window counter is the
    [RateLimiterMemory] class of the rate-limiter-flexible package, which
    is not part of the sources.  Per key it keeps the points consumed in
    the current window and the time at which the window ends; a window
    opens with the first consumption after the previous one has ended
    and lasts [duration] seconds; a consumption is rejected when it takes
    the counter above [points]. *)
Module RateLimiterMemory.
Import Js.

Record Counter : Type := mkCounter {
  consumedPoints : Z;
  windowEnd : Z
}.

Record t : Type := mkLimiter {
  points : Z;
  duration : Z;
  storage : gmap jsstring Counter
}.

Definition create (points duration : Z) : t :=
  {| points := points; duration := duration; storage := ∅ |}.

(** [consume(key)] at time [now]: the updated limiter and whether the
    consumption is accepted. *)
Definition consume (key : jsstring) (now : Z) (rl : t) : bool * t :=
  let counter :=
    match storage rl !! key with
    | Some c =>
        if 0 <? windowEnd c - now
        then {| consumedPoints := consumedPoints c + 1; windowEnd := windowEnd c |}
        else {| consumedPoints := 1; windowEnd := now + duration rl * 1000 |}
    | None => {| consumedPoints := 1; windowEnd := now + duration rl * 1000 |}
    end in
  (negb (points rl <? consumedPoints counter),
   {| points := points rl; duration := duration rl;
      storage := <[key := counter]> (storage rl) |}).

End RateLimiterMemory.

Module World.
Import Js Cheerio Net.

(** The environment: step [n] of a run is its [n]-th interaction with
    the outside (a clock read, a network exchange, a call of the
    authentication service); the environment fixes what each step
    observes. *)
Record Env : Type := mkEnv {
  env_time : nat -> Z;
  env_site : nat -> Request -> Reply;
  env_auth : nat -> bool;
  (** whether [new URL(url, baseURL)] yields a URL (it throws a
      [TypeError] otherwise); the URL parser is part of the platform *)
  env_url : jsstring -> bool;
  (** whether the cookie jar accepts a [Set-Cookie] header for a URL *)
  env_jar : jsstring -> jsstring -> bool
}.

(** [RohlikClient]: the rate limiter and the session manager it owns. *)
Record RohlikClient : Type := mkClient {
  rateLimiter : RateLimiterMemory.t;
  sessionManager : SessionManager.t
}.

(** The cart service and the product service each own a client. *)
Inductive ClientId := CartClient | ProductClient.

Record CartItem : Type := mkCartItem {
  ci_productId : jsstring;
  ci_name : jsstring;
  ci_price : number;
  ci_quantity : number;
  ci_totalPrice : number;
  ci_imageUrl : option jsstring;
  ci_unit : option jsstring;
  ci_availability : option jsstring
}.

Record CartSummary : Type := mkCartSummary {
  items : list CartItem;
  totalItems : number;
  totalPrice : number;
  deliveryFee : option number;
  finalTotal : number;
  currency : jsstring;
  lastUpdated : Z
}.

Record World : Type := mkWorld {
  step : nat;
  (** every call of [get]/[post] on a client, oldest first *)
  attempted : list (ClientId * Request);
  (** every request handed to the network, oldest first *)
  sent : list Request;
  cartClient : RohlikClient;
  productClient : RohlikClient;
  (** [ProductService.productCache]: the product and its [_cacheTime] *)
  productCache : gmap jsstring (HtmlParserService.ParsedProductData * Z);
  (** [CartService.cartCache] *)
  cartCache : option CartSummary
}.

(** ** The monad of the services *)

Definition M (A : Type) : Type := Env -> World -> Outcome A * World.

Definition ret {A} (a : A) : M A := fun _ w => (Ok a, w).

Definition bind {A B} (m : M A) (f : A -> M B) : M B :=
  fun env w =>
    match m env w with
    | (Ok a, w') => f a env w'
    | (Throw e, w') => (Throw e, w')
    end.

Definition throw {A} (e : Exn) : M A := fun _ w => (Throw e, w).

(** [try { m } catch (e) { h e }]. *)
Definition try_catch {A} (m : M A) (h : Exn -> M A) : M A :=
  fun env w =>
    match m env w with
    | (Ok a, w') => (Ok a, w')
    | (Throw e, w') => h e env w'
    end.

Definition modify (f : World -> World) : M unit := fun _ w => (Ok tt, f w).

Definition gets {A} (f : World -> A) : M A := fun _ w => (Ok (f w), w).

(** What the environment fixes once and for all. *)
Definition asks {A} (f : Env -> A) : M A := fun env w => (Ok (f env), w).

(** The outcome of code without state. *)
Definition lift {A} (o : Outcome A) : M A := fun _ w => (o, w).

Definition tick (w : World) : World :=
  {| step := S (step w); attempted := attempted w; sent := sent w;
     cartClient := cartClient w; productClient := productClient w;
     productCache := productCache w; cartCache := cartCache w |}.

(** [Date.now()] / [new Date()]. *)
Definition now : M Z := fun env w => (Ok (env_time env (step w)), tick w).

(** [authService.isAuthenticated()]; the authentication service is not
    part of the sources and belongs to the environment. *)
Definition authService_isAuthenticated : M bool :=
  fun env w => (Ok (env_auth env (step w)), tick w).

End World.

Declare Scope svc_scope.
Delimit Scope svc_scope with svc.
Notation "x <- m ;; k" := (World.bind m (fun x => k))
  (at level 100, m at next level, right associativity) : svc_scope.
Notation "m ;;; k" := (World.bind m (fun _ => k))
  (at level 100, right associativity) : svc_scope.

(* ===================================================================== *)
(** * [RohlikClient] (rohlik-client.ts) *)
(* ===================================================================== *)

Module RohlikClient.
Import Js Cheerio Net World.
Local Open Scope svc_scope.

(** [new RohlikClient()]: [points] is
    [config.getNumber('RATE_LIMIT_REQUESTS_PER_MINUTE')], the window lasts
    60 seconds; [minutes] is the session timeout of the configuration. *)
Definition create (points minutes : Z) (now0 now : Z) : RohlikClient :=
  {| rateLimiter := RateLimiterMemory.create points 60;
     sessionManager := SessionManager.create minutes now0 now |}.

Definition get_client (cid : ClientId) (w : World) : RohlikClient :=
  match cid with
  | CartClient => cartClient w
  | ProductClient => productClient w
  end.

Definition set_client (cid : ClientId) (c : RohlikClient) (w : World) : World :=
  match cid with
  | CartClient =>
      {| step := step w; attempted := attempted w; sent := sent w;
         cartClient := c; productClient := productClient w;
         productCache := productCache w; cartCache := cartCache w |}
  | ProductClient =>
      {| step := step w; attempted := attempted w; sent := sent w;
         cartClient := cartClient w; productClient := c;
         productCache := productCache w; cartCache := cartCache w |}
  end.

Definition log_attempt (cid : ClientId) (req : Request) (w : World) : World :=
  {| step := step w; attempted := attempted w ++ [(cid, req)]; sent := sent w;
     cartClient := cartClient w; productClient := productClient w;
     productCache := productCache w; cartCache := cartCache w |}.

(** The network exchange itself: the request leaves, the site replies. *)
Definition exchange (req : Request) : M Reply :=
  fun env w =>
    (Ok (env_site env (step w) req),
     {| step := S (step w); attempted := attempted w; sent := sent w ++ [req];
        cartClient := cartClient w; productClient := productClient w;
        productCache := productCache w; cartCache := cartCache w |}).

(** The request interceptor of [setupInterceptors]: one point of the rate
    limiter is consumed first; when the limiter rejects, the interceptor
    throws at once.  Otherwise, for a non-empty URL, [new URL(config.url,
    this.baseURL)] is evaluated, which throws when the URL does not
    parse; then the session activity is refreshed.  (The [Cookie] header
    the interceptor adds is not represented.) *)
Definition request_interceptor (cid : ClientId) (req : Request) : M unit :=
  t <- now ;;
  c <- gets (get_client cid) ;;
  let '(accepted, rl) :=
    RateLimiterMemory.consume (js "rohlik-client") t (rateLimiter c) in
  modify (set_client cid {| rateLimiter := rl;
                             sessionManager := sessionManager c |}) ;;;
  if negb accepted then throw (Error (js "Rate limit exceeded"))
  else
    parses <- asks (fun env => env_url env (url req)) ;;
    if truthy_str (url req) && negb parses then throw TypeError
    else
      t' <- now ;;
      c' <- gets (get_client cid) ;;
      modify (set_client cid
                {| rateLimiter := rateLimiter c';
                   sessionManager :=
                     SessionManager.updateActivity t' (sessionManager c') |}).

(** The response interceptor: for a response with [Set-Cookie] headers
    and a non-empty URL, the URL is resolved again and the headers are
    handed to the session manager. *)
Definition response_interceptor (cid : ClientId) (req : Request) (r : Response)
  : M Response :=
  match set_cookie r with
  | _ :: _ =>
      if truthy_str (url req) then
        parses <- asks (fun env => env_url env (url req)) ;;
        if negb parses then throw TypeError
        else
          accepts <- asks env_jar ;;
          c <- gets (get_client cid) ;;
          modify (set_client cid
                    {| rateLimiter := rateLimiter c;
                       sessionManager :=
                         SessionManager.setCookiesFromResponse accepts
                           (url req) (set_cookie r) (sessionManager c) |}) ;;;
          ret r
      else ret r
  | [] => ret r
  end.

(** A request through the axios instance: request interceptor, network
    exchange, status validation (only 2xx resolves), response
    interceptor. *)
Definition request (cid : ClientId) (req : Request) : M Response :=
  modify (log_attempt cid req) ;;;
  request_interceptor cid req ;;;
  reply <- exchange req ;;
  match reply with
  | Answer r =>
      if (200 <=? status r) && (status r <? 300)
      then response_interceptor cid req r
      else throw (AxiosError (Some (status r)))
  | NetworkError => throw (AxiosError None)
  end.

Definition get (cid : ClientId) (url : jsstring) : M Response :=
  request cid {| method := GET; url := url; body := NoBody |}.

Definition post (cid : ClientId) (url : jsstring) (data : Body) : M Response :=
  request cid {| method := POST; url := url; body := data |}.

(** [sanitizeHeaders]: a copy of the headers in which the entries named
    [Cookie] and [Authorization], when present with a truthy value, read
    [[REDACTED]]; without headers the result is the empty object. *)
Definition redact (name : jsstring) (headers : gmap jsstring jsstring)
  : gmap jsstring jsstring :=
  match headers !! name with
  | Some v => if truthy_str v then <[name := js "[REDACTED]"]> headers else headers
  | None => headers
  end.

Definition sanitizeHeaders (headers : option (gmap jsstring jsstring))
  : gmap jsstring jsstring :=
  match headers with
  | None => ∅
  | Some h => redact (js "Authorization") (redact (js "Cookie") h)
  end.

End RohlikClient.

(* ===================================================================== *)
(** * [ProductService] (product-service.ts) *)
(* ===================================================================== *)

Module ProductService.
Import Js Cheerio Net World.
Local Open Scope svc_scope.

(** [cacheTimeout = 10 * 60 * 1000]. *)
Definition cacheTimeout : Z := 10 * 60 * 1000.

Definition set_productCache
    (pc : gmap jsstring (HtmlParserService.ParsedProductData * Z)) (w : World)
  : World :=
  {| step := step w; attempted := attempted w; sent := sent w;
     cartClient := cartClient w; productClient := productClient w;
     productCache := pc; cartCache := cartCache w |}.

Definition getCachedProduct (productId : jsstring)
  : M (option HtmlParserService.ParsedProductData) :=
  cached <- gets (fun w => productCache w !! productId) ;;
  match cached with
  | None => ret None
  | Some (product, cacheTime) =>
      t <- now ;;
      if cacheTimeout <? t - cacheTime then
        modify (fun w => set_productCache (delete productId (productCache w)) w) ;;;
        ret None
      else ret (Some product)
  end.

Definition cacheProduct (productId : jsstring)
    (product : HtmlParserService.ParsedProductData) : M unit :=
  t <- now ;;
  modify (fun w => set_productCache (<[productId := (product, t)]> (productCache w)) w).

(** [getProduct]: any exception is turned into [null]. *)
Definition getProduct (productId : jsstring)
  : M (option HtmlParserService.ParsedProductData) :=
  try_catch
    (cachedProduct <- getCachedProduct productId ;;
     match cachedProduct with
     | Some p => ret (Some p)
     | None =>
         response <- RohlikClient.get ProductClient
                       (js "/" ++ productId ++ js "-") ;;
         let html := data response in
         if negb (truthy_data html) then ret None
         else
           productData <- lift (HtmlParserService.parseProductPage (load html)
                                  productId) ;;
           match productData with
           | Some productData =>
               cacheProduct productId productData ;;;
               ret (Some productData)
           | None => ret None
           end
     end)
    (fun _ => ret None).

End ProductService.

(* ===================================================================== *)
(** * [CartService] (cart-service.ts) *)
(* ===================================================================== *)

Module CartService.
Import Js Cheerio Net World.
Local Open Scope svc_scope.

Record AddToCartRequest : Type := mkAddToCartRequest {
  productId : jsstring;
  quantity : number
}.

(** [UpdateCartItemRequest] has the same shape. *)
Definition UpdateCartItemRequest := AddToCartRequest.

Definition CART_URL : jsstring := js "/kosik".
Definition ADD_TO_CART_URL : jsstring := js "/api/cart/add".
Definition UPDATE_CART_URL : jsstring := js "/api/cart/update".
Definition REMOVE_FROM_CART_URL : jsstring := js "/api/cart/remove".

(** [parsePrice] of the cart service: [0] where the HTML parser has
    [undefined]. *)
Definition parsePrice (priceText : jsstring) : number :=
  if negb (truthy_str priceText) then of_Z 0
  else
    let cleanText :=
      filter (fun c => is_digit c || (c =? ch ",")%N || (c =? ch ".")%N
                        || (c =? ch "-")%N = true) priceText in
    let normalizedText := replace_first (ch ",") (ch ".") cleanText in
    let price := parseFloat normalizedText in
    if isNaN price then of_Z 0 else price.

(** [parseInt(s)] without a radix. *)
Definition hex_value (c : N) : option Z :=
  if is_digit c then Some (digit_value c)
  else if ((97 <=? c) && (c <=? 102))%N then Some (Z.of_N c - 87)
  else if ((65 <=? c) && (c <=? 70))%N then Some (Z.of_N c - 55)
  else None.

Fixpoint take_hex (s : jsstring) : list Z :=
  match s with
  | c :: s' =>
      match hex_value c with
      | Some d => d :: take_hex s'
      | None => []
      end
  | [] => []
  end.

Definition parseInt (s : jsstring) : number :=
  let '(neg, s1) := take_sign (trimStart s) in
  let digits :=
    if startsWith (js "0x") s1 || startsWith (js "0X") s1
    then (16, take_hex (drop 2 s1))
    else (10, fst (take_digits s1)) in
  match snd digits with
  | [] => NaN
  | ds =>
      let n := fold_left (fun acc d => fst digits * acc + d) ds 0 in
      if n =? 0 then S754_zero neg else of_Z (cond_Zopp neg n)
  end.

Definition or_opt (x y : option jsstring) : option jsstring :=
  match x with
  | Some s => if truthy_str s then x else y
  | None => y
  end.

Definition nonempty (s : jsstring) : option jsstring :=
  if truthy_str s then Some s else None.

(** One element of the cart page: [Some item] when it is pushed. *)
Definition parseCartItem (item : Element) : option CartItem :=
  let productId :=
    or_opt (attr [item] (js "data-product-id"))
      (or_opt (attr (select item (js "[data-product-id]")) (js "data-product-id"))
              (val (select item (jsq "input[name*='product']")))) in
  let name :=
    HtmlParserService.or_str
      (Some (trim (text (select item (js ".product-name, .item-name, h3, h4")))))
      (trim (text (select item (js "a")))) in
  let priceText := trim (text (select item (js ".price, .item-price, .total-price"))) in
  let price := parsePrice priceText in
  let quantityText :=
    HtmlParserService.or_str
      (val (select item (jsq ".quantity, input[type='number']")))
      (trim (text (select item (js ".quantity, .item-quantity")))) in
  let quantity := HtmlParserService.or_num (Some (parseInt quantityText)) (of_Z 1) in
  let imageUrl := attr (select item (js "img")) (js "src") in
  let unit := trim (text (select item (js ".unit, .item-unit"))) in
  let availability := trim (text (select item (js ".availability, .item-availability"))) in
  match productId with
  | Some pid =>
      if truthy_str pid && truthy_str name && ltb (of_Z 0) price
      then Some {| ci_productId := pid; ci_name := name; ci_price := price;
                   ci_quantity := quantity; ci_totalPrice := mul price quantity;
                   ci_imageUrl := imageUrl; ci_unit := nonempty unit;
                   ci_availability := nonempty availability |}
      else None
  | None => None
  end.

(** [parseCartFromHtml]; [today] is the value of [new Date()]. *)
Definition parseCartFromHtml (doc : Element) (today : Z) : CartSummary :=
  let items :=
    omap parseCartItem
      (select doc (js ".cart-item, .kosik-item, [data-product-id]")) in
  let totalItemsText :=
    trim (text (select doc (js ".cart-total-items, .kosik-pocet, [data-total-items]"))) in
  let totalItems :=
    HtmlParserService.or_num (Some (parseInt totalItemsText))
      (fold_left (fun sum item => add sum (ci_quantity item)) items (of_Z 0)) in
  let totalPriceText :=
    trim (text (last (select doc (js ".cart-total-price, .kosik-cena, .total-price")))) in
  let totalPrice :=
    HtmlParserService.or_num (Some (parsePrice totalPriceText))
      (fold_left (fun sum item => add sum (ci_totalPrice item)) items (of_Z 0)) in
  let deliveryFeeText :=
    trim (text (select doc (js ".delivery-fee, .doprava, .shipping-cost"))) in
  let deliveryFee :=
    if truthy_str deliveryFeeText then Some (parsePrice deliveryFeeText) else None in
  let finalTotal := add totalPrice (HtmlParserService.or_num deliveryFee (of_Z 0)) in
  {| items := items; totalItems := totalItems; totalPrice := totalPrice;
     deliveryFee := deliveryFee; finalTotal := finalTotal;
     currency := js "CZK"; lastUpdated := today |}.

Definition set_cartCache (c : option CartSummary) (w : World) : World :=
  {| step := step w; attempted := attempted w; sent := sent w;
     cartClient := cartClient w; productClient := productClient w;
     productCache := productCache w; cartCache := c |}.

(** [getCart]; its [catch] logs and rethrows. *)
Definition getCart : M CartSummary :=
  authenticated <- authService_isAuthenticated ;;
  if negb authenticated
  then throw (Error (js "User must be authenticated to access cart"))
  else
    response <- RohlikClient.get CartClient CART_URL ;;
    today <- now ;;
    let cartSummary := parseCartFromHtml (load (data response)) today in
    modify (set_cartCache (Some cartSummary)) ;;;
    ret cartSummary.

(** ** [URLSearchParams] *)

Definition FormData := list (jsstring * FormValue).

Definition append (name : jsstring) (value : FormValue) (fd : FormData) : FormData :=
  fd ++ [(name, value)].

Fixpoint remove_name (name : jsstring) (fd : FormData) : FormData :=
  match fd with
  | [] => []
  | (n, v) :: fd' =>
      if decide (n = name) then remove_name name fd'
      else (n, v) :: remove_name name fd'
  end.

(** [set]: the first entry of that name takes the value and the others
    are removed; without such an entry the pair is appended. *)
Fixpoint set (name : jsstring) (value : FormValue) (fd : FormData) : FormData :=
  match fd with
  | [] => [(name, value)]
  | (n, v) :: fd' =>
      if decide (n = name) then (n, value) :: remove_name name fd'
      else (n, v) :: set name value fd'
  end.

(** [form.find('input').each(...)]: the named inputs that have a value. *)
Definition collect_inputs (form : Selection) : FormData :=
  fold_left
    (fun formData input =>
       match attr [input] (js "name"), val [input] with
       | Some name, Some value =>
           if truthy_str name && truthy_str value
           then append name (FString value) formData else formData
       | _, _ => formData
       end)
    (find form (js "input")) [].

(** ** The structured calls *)

Definition addToCartViaApi (request : AddToCartRequest) : M bool :=
  try_catch
    (response <- RohlikClient.post CartClient ADD_TO_CART_URL
                   (JsonBody [(js "productId", JString (productId request));
                              (js "quantity", JNumber (quantity request))]) ;;
     ret ((status response =? 200) && data_success (data response)))
    (fun _ => ret false).

Definition updateCartViaApi (request : UpdateCartItemRequest) : M bool :=
  try_catch
    (response <- RohlikClient.post CartClient UPDATE_CART_URL
                   (JsonBody [(js "productId", JString (productId request));
                              (js "quantity", JNumber (quantity request))]) ;;
     ret ((status response =? 200) && data_success (data response)))
    (fun _ => ret false).

Definition removeFromCartViaApi (pid : jsstring) : M bool :=
  try_catch
    (response <- RohlikClient.post CartClient REMOVE_FROM_CART_URL
                   (JsonBody [(js "productId", JString pid)]) ;;
     ret ((status response =? 200) && data_success (data response)))
    (fun _ => ret false).

(** ** The form submissions *)

Definition addToCartViaForm (request : AddToCartRequest) : M bool :=
  try_catch
    (productResponse <- RohlikClient.get CartClient (js "/" ++ productId request) ;;
     let doc := load (data productResponse) in
     let form :=
       first (select doc
         (jsq "form[action*='cart'], form[action*='kosik'], .add-to-cart-form")) in
     let formAction :=
       HtmlParserService.or_str (attr form (js "action")) (js "/kosik/pridat") in
     let formData := collect_inputs form in
     let formData := set (js "product_id") (FString (productId request)) formData in
     let formData := set (js "quantity") (FNumberToString (quantity request)) formData in
     response <- RohlikClient.post CartClient formAction (FormBody formData) ;;
     ret (status response <? 400))
    (fun _ => ret false).

(** The selector of the update form of one product (the line break of
    the template literal is written as one space). *)
Definition update_form_selector (pid : jsstring) : jsstring :=
  jsq "[data-product-id='" ++ pid ++ jsq "'] form, form[data-product-id='"
    ++ pid ++ jsq "']".

Definition updateCartViaForm (request : UpdateCartItemRequest) : M bool :=
  try_catch
    (cartResponse <- RohlikClient.get CartClient CART_URL ;;
     let doc := load (data cartResponse) in
     let itemForm := first (select doc (update_form_selector (productId request))) in
     match itemForm with
     | [] => throw (Error (js "Could not find update form for product"))
     | _ =>
         let formAction :=
           HtmlParserService.or_str (attr itemForm (js "action")) (js "/kosik/upravit") in
         let formData := collect_inputs itemForm in
         let formData := set (js "quantity") (FNumberToString (quantity request)) formData in
         response <- RohlikClient.post CartClient formAction (FormBody formData) ;;
         ret (status response <? 400)
     end)
    (fun _ => ret false).

Definition removeFromCartViaForm (pid : jsstring) : M bool :=
  try_catch
    (updateCartViaForm {| productId := pid; quantity := of_Z 0 |})
    (fun _ => ret false).

(** ** The mutations.  The outer [try { ... } catch (error) { log; throw
    error; }] of each of them leaves the outcome unchanged. *)

(** What follows the two attempts: on success the cache is dropped and
    the cart is fetched again, otherwise the mutation throws. *)
Definition finish (success : bool) (failure : string) : M CartSummary :=
  if success then
    modify (set_cartCache None) ;;;
    getCart
  else throw (Error (js failure)).

Definition addToCart (request : AddToCartRequest) : M CartSummary :=
  authenticated <- authService_isAuthenticated ;;
  if negb authenticated
  then throw (Error (js "User must be authenticated to add items to cart"))
  else
    product <- ProductService.getProduct (productId request) ;;
    match product with
    | None => throw (Error (js "Product " ++ productId request ++ js " not found"))
    | Some _ =>
        success <- try_catch (addToCartViaApi request)
                             (fun _ => addToCartViaForm request) ;;
        finish success "Failed to add product to cart"
    end.

Definition removeFromCart (pid : jsstring) : M CartSummary :=
  authenticated <- authService_isAuthenticated ;;
  if negb authenticated
  then throw (Error (js "User must be authenticated to remove items from cart"))
  else
    success <- try_catch (removeFromCartViaApi pid)
                         (fun _ => removeFromCartViaForm pid) ;;
    finish success "Failed to remove product from cart".

Definition updateCartItem (request : UpdateCartItemRequest) : M CartSummary :=
  authenticated <- authService_isAuthenticated ;;
  if negb authenticated
  then throw (Error (js "User must be authenticated to update cart"))
  else if SFeqb (quantity request) (of_Z 0)
  then removeFromCart (productId request)
  else
    success <- try_catch (updateCartViaApi request)
                         (fun _ => updateCartViaForm request) ;;
    finish success "Failed to update cart item".

Definition clearCart : M CartSummary :=
  authenticated <- authService_isAuthenticated ;;
  if negb authenticated
  then throw (Error (js "User must be authenticated to clear cart"))
  else
    currentCart <- getCart ;;
    fold_left (fun acc item => acc ;;; (removeFromCart (ci_productId item) ;;; ret tt))
              (items currentCart) (ret tt) ;;;
    modify (set_cartCache None) ;;;
    getCart.

(** [getCachedCart] and [clearCartCache]. *)
Definition getCachedCart : M (option CartSummary) := gets cartCache.

Definition clearCartCache : M unit := modify (set_cartCache None).

End CartService.

(* ===================================================================== *)
(** * [ConfigManager] (config.ts) *)
(* ===================================================================== *)

Module ConfigManager.
Import Js Net.
Local Open Scope string_scope.
Local Open Scope list_scope.

(** [parseInt(s, 10)]: leading white space, an optional sign and the
    longest prefix of decimal digits; no prefix [0x] is recognized. *)
Definition parseInt10 (s : jsstring) : number :=
  let '(neg, s1) := take_sign (trimStart s) in
  match fst (take_digits s1) with
  | [] => NaN
  | ds =>
      let n := digits_value ds in
      if Z.eqb n 0 then S754_zero neg else of_Z (cond_Zopp neg n)
  end.

(** [getNumber(key)]: the configuration is the object the schema yields,
    every present value being a string. *)
Definition getNumber (config : gmap jsstring jsstring) (key : jsstring)
  : Outcome number :=
  match config !! key with
  | None => Throw (Error (js "Config value " ++ key ++ js " is not a string"))
  | Some value =>
      let num := parseInt10 value in
      if isNaN num
      then Throw (Error (js "Config value " ++ key ++ js " is not a valid number"))
      else Ok num
  end.

End ConfigManager.

(* ===================================================================== *)
(** * Vocabulary of the properties and concrete scenarios *)
(* ===================================================================== *)

Module Scenario.
Import Js Cheerio Net World.
Local Open Scope string_scope.
Local Open Scope list_scope.

(** ** Prices *)

(** The text a price parser hands to [parseFloat]: the characters other
    than digits, comma, dot and minus are removed and the first comma
    becomes a dot. *)
Definition price_chars (priceText : jsstring) : jsstring :=
  filter (fun c => is_digit c || (c =? ch ",")%N || (c =? ch ".")%N
                   || (c =? ch "-")%N = true) priceText.

Definition cleaned (priceText : jsstring) : jsstring :=
  replace_first (ch ",") (ch ".") (price_chars priceText).

(** No decimal number can be read from the cleaned text. *)
Definition unparsable (priceText : jsstring) : Prop :=
  isNaN (parseFloat (cleaned priceText)) = true.

Definition no_digit (s : jsstring) : Prop :=
  Forall (fun c => is_digit c = false) s.

(** Only separators are left of a text without digit once it is cleaned. *)
Definition separator (c : N) : Prop := c = ch "," \/ c = ch "." \/ c = ch "-".

(** The number written [57.9], [88.9], ... *)
Definition n57_9 : number := decimal_value false 579 (-1).
Definition n88_9 : number := decimal_value false 889 (-1).

(** The text [57,90 Kč]. *)
Definition text_57_90_Kc : jsstring := js "57,90 K" ++ [269%N].
Definition text_88_90_Kc : jsstring := js "88,90 K" ++ [269%N].

Definition leaf (t : jsstring) : Element := mkElement t [] None [].

(** A product page with a price and no element that any name selector
    matches. *)
Definition page_price_no_name : Element :=
  mkElement [] [] None [(jsq "[data-test='product-price']", [leaf text_57_90_Kc])].

(** A listing card with a price and no name. *)
Definition card_price_no_name : Element :=
  mkElement [] [(js "data-product-id", js "1413424")] None
    [(jsq ".price, .product-price, [data-test='price']", [leaf text_57_90_Kc])].

(** A product page with a name, the price 57,90 and the original price
    88,90. *)
Definition page_discounted : Element :=
  mkElement [] [] None
    [(jsq ".product-title", [leaf (js "Rohlik")]);
     (jsq "[data-test='product-price']", [leaf text_57_90_Kc]);
     (jsq "[data-test='product-price-original']", [leaf text_88_90_Kc])].

(** A product page whose original price (50) is below its price (60). *)
Definition page_price_raised : Element :=
  mkElement [] [] None
    [(jsq ".product-title", [leaf (js "Rohlik")]);
     (jsq "[data-test='product-price']", [leaf (js "60")]);
     (jsq "[data-test='product-price-original']", [leaf (js "50")])].

(** The product that [parseProductPage] builds for [page_discounted]. *)
Definition product_discounted : HtmlParserService.ParsedProductData :=
  {| HtmlParserService.id := js "1413424";
     HtmlParserService.name := js "Rohlik";
     HtmlParserService.price := n57_9;
     HtmlParserService.originalPrice := Some n88_9;
     HtmlParserService.discount := Some (of_Z 35);
     HtmlParserService.unit := js "ks";
     HtmlParserService.unitPrice := n57_9;
     HtmlParserService.unitType := js "ks";
     HtmlParserService.weight := None;
     HtmlParserService.description := None;
     HtmlParserService.imageUrl := None;
     HtmlParserService.category := None;
     HtmlParserService.tags := [];
     HtmlParserService.inStock := true;
     HtmlParserService.nutritionalInfo := None;
     HtmlParserService.ingredients := None |}.

(** ** Numbers *)

(** The number of binary digits of a positive integer, and the binary64
    number with sign [s] whose value is the integer [p] of at most 53
    digits. *)
Definition dg (p : positive) : Z := Zpos (digits2_pos p).

Definition normal (s : bool) (p : positive) : number :=
  S754_finite s (Z.to_pos (Zpos p * 2 ^ (53 - dg p))) (dg p - 53).

(** The rounding record after [k] shifts to the right of the integer
    [M]: the quotient, the last bit shifted out and whether any bit
    shifted out before it was set. *)
Definition shifted (M k : Z) : shr_record :=
  {| shr_m := M / 2 ^ k;
     shr_r := Z.odd (M / 2 ^ (k - 1));
     shr_s := negb (Z.eqb (M mod 2 ^ (k - 1)) 0) |}.

(** The literal [0.2]. *)
Definition n0_2 : number := decimal_value false 2 (-1).

(** A session manager as the constructor makes it at time 0 for the
    default timeout of 30 minutes, authenticated at time 0. *)
Definition session_30min : SessionManager.t :=
  SessionManager.setAuthenticated 0 (js "0123456789abcdef") None None
    (SessionManager.create 30 0 0).

(** ** Transport and cart *)

(** The key under which the client counts its requests. *)
Definition limiter_key : jsstring := js "rohlik-client".




(** The requests for which the interceptor gets past [new URL]: those
    with an empty URL, for which it is not evaluated, and those whose URL
    parses. *)
Definition resolves (env : Env) (req : Request) : bool :=
  negb (truthy_str (url req)) || env_url env (url req).



(** The calls made on the clients between two worlds. *)
Definition new_attempts (w w' : World) : list (ClientId * Request) :=
  drop (length (attempted w)) (attempted w').

Definition is_post (a : ClientId * Request) : bool :=
  match method (snd a) with POST => true | GET => false end.

(** A world right after the services are constructed at time 0, with the
    limits of the default configuration (30 requests per minute, sessions
    of 30 minutes). *)
Definition initial_world : World :=
  {| step := 0; attempted := []; sent := [];
     cartClient := RohlikClient.create 30 30 0 0;
     productClient := RohlikClient.create 30 30 0 0;
     productCache := ∅; cartCache := None |}.

(** A product page with a name, a price and an add-to-cart form that has
    one input and no anti-forgery token. *)
Definition page_with_form : Element :=
  mkElement [] [] None
    [(jsq ".product-title", [leaf (js "Rohlik")]);
     (jsq "[data-test='product-price']", [leaf text_57_90_Kc]);
     (jsq "form[action*='cart'], form[action*='kosik'], .add-to-cart-form",
      [mkElement [] [(js "action", js "/kosik/pridat")] None
         [(js "input",
           [mkElement [] [(js "name", js "source")] (Some (js "detail")) []])]])].

Definition ok_page : Response :=
  {| status := 200; data := DHtml page_with_form; set_cookie := [] |}.

(** A site that serves [page_with_form] for every GET, answers the
    structured add-to-cart call with [api] and accepts every other POST.
    In the environments below the clock shows the number of the step in
    milliseconds, a user is signed in, every URL resolves and the cookie
    jar accepts every header, unless said otherwise. *)
Definition site (api : Reply) (n : nat) (req : Request) : Reply :=
  match method req with
  | GET => Answer ok_page
  | POST =>
      if bool_decide (url req = CartService.ADD_TO_CART_URL) then api
      else Answer {| status := 200; data := DEmpty; set_cookie := [] |}
  end.

Definition env_with (api : Reply) : Env :=
  {| env_time := fun n => Z.of_nat n;
     env_site := site api;
     env_auth := fun _ => true;
     env_url := fun _ => true;
     env_jar := fun _ _ => true |}.

(** The structured call of an addition is answered with a server
    error. *)
Definition env_api_500 : Env :=
  env_with (Answer {| status := 500; data := DEmpty; set_cookie := [] |}).

(** A site that serves [page_with_form] for every GET and answers every
    POST with [api]. *)
Definition site_posts (api : Reply) (n : nat) (req : Request) : Reply :=
  match method req with
  | GET => Answer ok_page
  | POST => api
  end.

Definition env_posts (api : Reply) : Env :=
  {| env_time := fun n => Z.of_nat n;
     env_site := site_posts api;
     env_auth := fun _ => true;
     env_url := fun _ => true;
     env_jar := fun _ _ => true |}.

(** Every POST fails in the network, is answered with a server error,
    with a body without [success: true], or with [success: true]. *)
Definition env_posts_unreachable : Env := env_posts NetworkError.

Definition env_posts_500 : Env :=
  env_posts (Answer {| status := 500; data := DEmpty; set_cookie := [] |}).

Definition env_posts_soft_failure : Env :=
  env_posts (Answer {| status := 200; data := DJson [(js "success", JBool false)];
                       set_cookie := [] |}).

Definition env_posts_success : Env :=
  env_posts (Answer {| status := 200; data := DJson [(js "success", JBool true)];
                       set_cookie := [] |}).

(** An environment whose clock stands still. *)
Definition env_frozen : Env :=
  {| env_time := fun _ => 0;
     env_site := site NetworkError;
     env_auth := fun _ => true;
     env_url := fun _ => true;
     env_jar := fun _ _ => true |}.


Definition get_page (n : Z) : Request :=
  {| method := GET; url := js "/" ++ [Z.to_N (48 + n)]; body := NoBody |}.

Definition add_one : CartService.AddToCartRequest :=
  {| CartService.productId := js "1413424"; CartService.quantity := of_Z 1 |}.

Definition update_two : CartService.UpdateCartItemRequest :=
  {| CartService.productId := js "1413424"; CartService.quantity := of_Z 2 |}.

Definition update_zero : CartService.UpdateCartItemRequest :=
  {| CartService.productId := js "1413424"; CartService.quantity := of_Z 0 |}.

(** The structured calls of the three mutations, the lookup of the
    product and the re-read of the cart, as calls on the clients. *)
Definition add_call (request : CartService.AddToCartRequest) : ClientId * Request :=
  (CartClient,
   {| method := POST; url := CartService.ADD_TO_CART_URL;
      body := JsonBody [(js "productId", JString (CartService.productId request));
                        (js "quantity", JNumber (CartService.quantity request))] |}).

Definition update_call (request : CartService.UpdateCartItemRequest)
  : ClientId * Request :=
  (CartClient,
   {| method := POST; url := CartService.UPDATE_CART_URL;
      body := JsonBody [(js "productId", JString (CartService.productId request));
                        (js "quantity", JNumber (CartService.quantity request))] |}).

Definition remove_call (pid : jsstring) : ClientId * Request :=
  (CartClient,
   {| method := POST; url := CartService.REMOVE_FROM_CART_URL;
      body := JsonBody [(js "productId", JString pid)] |}).

Definition lookup_call (pid : jsstring) : ClientId * Request :=
  (ProductClient, {| method := GET; url := js "/" ++ pid ++ js "-"; body := NoBody |}).

Definition refresh_call : ClientId * Request :=
  (CartClient, {| method := GET; url := CartService.CART_URL; body := NoBody |}).



(** The selector of the name of a listing card. *)
Definition card_name_selector : jsstring :=
  jsq ".product-name, .productName, [data-test='product-name']".

End Scenario.

(* ===================================================================== *)
(** * Further vocabulary and scenarios *)
(* ===================================================================== *)

Module Cases.
Import Js Cheerio Net World.
Local Open Scope string_scope.
Local Open Scope list_scope.

(** ** Price texts *)

(** The characters a price parser keeps. *)
Definition is_price_char (c : N) : bool :=
  is_digit c || (c =? ch ",")%N || (c =? ch ".")%N || (c =? ch "-")%N.

(** A text of decimal digits, and a text without any character of a
    price (letters, spaces, currency signs). *)
Definition digit_text (s : jsstring) : Prop :=
  Forall (fun c => is_digit c = true) s.

Definition other_text (s : jsstring) : Prop :=
  Forall (fun c => is_price_char c = false) s.

Definition sign_text (neg : bool) : jsstring :=
  if neg then [ch "-"] else [].

(** The text [ Kč], a space and the currency. *)
Definition text_Kc : jsstring := js " K" ++ [269%N].

(** The number nearest to the decimal written with the integer digits
    [ip] and the fraction digits [fp]. *)
Definition decimal_number (neg : bool) (ip fp : jsstring) : number :=
  decimal_value neg (digits_value (digit_value <$> (ip ++ fp)))
                (- Z.of_nat (length fp)).

(** ** Product pages and listings *)

(** The selectors of [extractImageUrl], the [src] of the first element
    that a selector matches, and the address made of a [src]. *)
Definition image_selectors : list string :=
  ["[data-test='product-image'] img"; ".product-image img";
   ".productImage img"; "img[alt*='product']"].

Definition first_src_of (doc : Element) (selector : string) : option jsstring :=
  attr (first (select doc (jsq selector))) (js "src").

Definition absolute_address (src : jsstring) : jsstring :=
  if startsWith (js "http") src then src else js "https://www.rohlik.cz" ++ src.

(** The selectors of [extractTags]. *)
Definition tag_selectors : list string :=
  ["[data-test='product-tag']"; ".product-tag"; ".tag"; ".badge"; ".label"].

(** The cards of a listing page, and what one card contributes to the
    list: the product of the card when the card has an identifier and
    parses. *)
Definition cards (doc : Element) : list Element :=
  select doc (js ".productCard, .product-card, [data-product-id]").

Definition card_product (card : Element)
  : option HtmlParserService.ParsedProductData :=
  match HtmlParserService.extractProductId card with
  | Some productId => HtmlParserService.parseProductCard card productId
  | None => None
  end.

(** Where [parseFloat] stops after the digits of a fraction: at the end
    of the text or at a character that is neither a digit nor an exponent
    mark. *)
Definition stops (rest : jsstring) : Prop :=
  match rest with
  | [] => True
  | c :: _ => is_digit c = false /\ c <> ch "e" /\ c <> ch "E"
  end.

(** ** Sessions *)

(** A text without line terminator. *)
Definition line_text (s : jsstring) : Prop :=
  Forall (fun c => SessionManager.is_line_terminator c = false) s.

(** An authenticated session with an identifier and an e-mail address. *)
Definition session_with_email : SessionManager.t :=
  SessionManager.setAuthenticated 0 (js "0123456789abcdef") (Some (js "42"))
    (Some (js "jan.novak@example.cz")) (SessionManager.create 30 0 0).

(** ** Clients *)

(** The client of the other service. *)
Definition other_client (cid : ClientId) : ClientId :=
  match cid with CartClient => ProductClient | ProductClient => CartClient end.

(** ** Product cache *)

(** A world whose product cache holds one product, stored at time 0. *)
Definition world_cached : World :=
  ProductService.set_productCache
    {[ js "1413424" := (Scenario.product_discounted, 0%Z) ]}
    Scenario.initial_world.

(** ** Cart *)

(** Nobody is signed in, and the site cannot be reached. *)
Definition env_anonymous : Env :=
  {| env_time := fun n => Z.of_nat n;
     env_site := fun _ _ => NetworkError;
     env_auth := fun _ => false;
     env_url := fun _ => true;
     env_jar := fun _ _ => true |}.

(** A user is signed in, and the site cannot be reached. *)
Definition env_offline : Env :=
  {| env_time := fun n => Z.of_nat n;
     env_site := fun _ _ => NetworkError;
     env_auth := fun _ => true;
     env_url := fun _ => true;
     env_jar := fun _ _ => true |}.

(** The fields of a form body that have a given name. *)
Definition field_named (name : jsstring) (e : jsstring * FormValue) : bool :=
  bool_decide (e.1 = name).

(** The selector of the items of a cart page. *)
Definition cart_item_selector : jsstring :=
  js ".cart-item, .kosik-item, [data-product-id]".

(** The form of a product page that [addToCartViaForm] submits. *)
Definition add_form (page : Response) : Selection :=
  first (select (load (data page))
    (jsq "form[action*='cart'], form[action*='kosik'], .add-to-cart-form")).

(** A computation that, when it returns a summary, leaves it in the cart
    cache; and one that does not touch the cart cache. *)
Definition leaves_summary (m : M CartSummary) : Prop :=
  forall env w,
    match m env w with
    | (Ok c, w1) => cartCache w1 = Some c
    | (Throw _, _) => True
    end.

Definition keeps_cartCache {A} (m : M A) : Prop :=
  forall env w, cartCache (snd (m env w)) = cartCache w.

(** ** Configuration *)

(** A configuration whose session timeout is followed by letters. *)
Definition config_30abc : gmap jsstring jsstring :=
  {[ js "SESSION_TIMEOUT_MINUTES" := js "30abc" ]}.

(** ** Nutritional information *)

(** The rows of the nutrition tables, the label and the value of a row,
    and the rows that are recorded: those with a label and a value that
    differ, the label [__proto__] excepted, which names no own property
    of the object. *)
Definition nutrition_rows (doc : Element) : list Element :=
  select doc (js ".nutritional-info tr, .nutrition-table tr").

Definition row_label (row : Element) : jsstring :=
  trim (text (select row (js "td:first-child, th:first-child"))).

Definition row_value (row : Element) : jsstring :=
  trim (text (select row (js "td:last-child, th:last-child"))).

Definition row_counts (row : Element) : Prop :=
  row_label row <> [] /\ row_value row <> [] /\ row_label row <> row_value row
  /\ row_label row <> js "__proto__".

(** ** Selectors *)

(** The selectors of [extractProductName] and of [extractPrice], and the
    trimmed text of the first element a selector matches. *)
Definition name_selectors : list string :=
  ["h1[data-test='product-title']"; ".product-title"; ".productTitle";
   "h1.title"; "[data-test='product-name']"; ".product-name"]%string.

Definition price_selectors : list string :=
  ["[data-test='product-price']"; ".price-current"; ".product-price";
   ".price"; "[data-test='price']"]%string.

Definition first_trimmed (doc : Element) (selector : string) : jsstring :=
  trim (text (first (select doc (jsq selector)))).

End Cases.

(* ===================================================================== *)
(** * Properties of the price parsers *)
(* ===================================================================== *)

Module PriceFacts.
Import Js Cheerio Scenario.
Local Open Scope string_scope.
Local Open Scope list_scope.
Local Open Scope Z_scope.

Lemma html_parsePrice_unfold s :
  HtmlParserService.parsePrice s =
  if negb (truthy_str s) then None
  else if isNaN (parseFloat (cleaned s)) then None
       else Some (parseFloat (cleaned s)).
Proof. reflexivity. Qed.

Lemma cart_parsePrice_unfold s :
  CartService.parsePrice s =
  if negb (truthy_str s) then of_Z 0
  else if isNaN (parseFloat (cleaned s)) then of_Z 0
       else parseFloat (cleaned s).
Proof. reflexivity. Qed.

Lemma replace_first_absent c d s :
  c ∉ s -> replace_first c d s = s.
Proof.
  induction s as [|x s IH]; intros Hc; [reflexivity|].
  apply not_elem_of_cons in Hc as [Hx Hs]. simpl.
  destruct (N.eqb_spec x c) as [->|_]; [done|].
  by rewrite IH.
Qed.

Lemma replace_first_here c d a b :
  c ∉ a -> replace_first c d (a ++ c :: b) = a ++ d :: b.
Proof.
  induction a as [|x a IH]; intros Hc; simpl.
  - by rewrite N.eqb_refl.
  - apply not_elem_of_cons in Hc as [Hx Ha].
    destruct (N.eqb_spec x c) as [->|_]; [done|].
    by rewrite IH.
Qed.

Lemma filter_absent {A} (P : A -> Prop) `{!forall x, Decision (P x)} c (s : list A) :
  c ∉ s -> c ∉ filter P s.
Proof. intros Hc Hin. apply list_elem_of_filter in Hin as [_ Hin]. done. Qed.

(** A unit that does not occur in a concrete text. *)
Ltac absent :=
  let H := fresh in
  intros H; apply list_elem_of_In in H; vm_compute in H; intuition congruence.

Lemma price_chars_app a b :
  price_chars (a ++ b) = price_chars a ++ price_chars b.
Proof. apply filter_app. Qed.

Lemma price_chars_absent c s : c ∉ s -> c ∉ price_chars s.
Proof. apply filter_absent. Qed.

Lemma cleaned_comma a b :
  ch "," ∉ a -> ch "," ∉ b ->
  cleaned (a ++ ch "," :: b) = price_chars a ++ ch "." :: price_chars b.
Proof.
  intros Ha Hb. unfold cleaned.
  rewrite price_chars_app.
  change (price_chars (ch "," :: b)) with (ch "," :: price_chars b).
  apply replace_first_here. by apply price_chars_absent.
Qed.

Lemma cleaned_dot a b :
  ch "," ∉ a -> ch "," ∉ b ->
  cleaned (a ++ ch "." :: b) = price_chars a ++ ch "." :: price_chars b.
Proof.
  intros Ha Hb. unfold cleaned.
  rewrite price_chars_app.
  change (price_chars (ch "." :: b)) with (ch "." :: price_chars b).
  apply replace_first_absent.
  rewrite not_elem_of_app, not_elem_of_cons.
  split; [by apply price_chars_absent|].
  split; [done | by apply price_chars_absent].
Qed.

Lemma truthy_str_middle (a : jsstring) x b : truthy_str (a ++ x :: b) = true.
Proof. by destruct a. Qed.

(** For every text made of a part [a], a comma and a part [b], none of
    the parts containing a comma, price parsing gives the same result as
    for the text with a dot in place of the comma. *)
Lemma parsePrice_comma_as_dot (a b : jsstring) :
  ch "," ∉ a -> ch "," ∉ b ->
  HtmlParserService.parsePrice (a ++ ch "," :: b)
    = HtmlParserService.parsePrice (a ++ ch "." :: b)
  /\ CartService.parsePrice (a ++ ch "," :: b)
    = CartService.parsePrice (a ++ ch "." :: b).
Proof.
  intros Ha Hb.
  rewrite !html_parsePrice_unfold, !cart_parsePrice_unfold.
  rewrite !truthy_str_middle.
  by rewrite cleaned_comma, cleaned_dot.
Qed.

(** The three spellings of the example denote one number. *)
Example parsePrice_57_90 :
  HtmlParserService.parsePrice (js "57,90") = Some n57_9
  /\ HtmlParserService.parsePrice (js "57.90") = Some n57_9
  /\ HtmlParserService.parsePrice text_57_90_Kc = Some n57_9
  /\ parseFloat (js "57.9") = n57_9.
Proof. vm_compute. repeat split. Qed.

Lemma price_chars_no_digit s :
  no_digit s -> Forall separator (price_chars s).
Proof.
  unfold no_digit, price_chars. rewrite !Forall_forall.
  intros Hs c Hc. apply list_elem_of_filter in Hc as [Hp Hc].
  specialize (Hs c Hc). rewrite Hs in Hp.
  rewrite !orb_true_iff in Hp. unfold separator.
  destruct Hp as [[[Hp|Hp]|Hp]|Hp]; [discriminate| | |];
    apply N.eqb_eq in Hp; auto.
Qed.

Lemma replace_first_separator s :
  Forall separator s -> Forall separator (replace_first (ch ",") (ch ".") s).
Proof.
  induction 1 as [|c s Hc Hs IH]; simpl; [constructor|].
  destruct (N.eqb_spec c (ch ",")).
  - constructor; [by right; left | done].
  - by constructor.
Qed.

Lemma parseFloat_separators s :
  Forall separator s -> parseFloat s = NaN.
Proof.
  intros Hs.
  destruct Hs as [|c1 t1 H1 Ht1]; [reflexivity|].
  destruct H1 as [-> | [-> | ->]].
  - reflexivity.
  - destruct Ht1 as [|c2 t2 H2 _]; [reflexivity|].
    destruct H2 as [-> | [-> | ->]]; reflexivity.
  - destruct Ht1 as [|c2 t2 H2 Ht2]; [reflexivity|].
    destruct H2 as [-> | [-> | ->]]; [reflexivity| |reflexivity].
    destruct Ht2 as [|c3 t3 H3 _]; [reflexivity|].
    destruct H3 as [-> | [-> | ->]]; reflexivity.
Qed.

Lemma no_digit_unparsable s : no_digit s -> unparsable s.
Proof.
  intros Hs. unfold unparsable, cleaned.
  by rewrite parseFloat_separators
    by (apply replace_first_separator, price_chars_no_digit, Hs).
Qed.

(** C5 (as the code has it): for every text from which no decimal number
    can be read after cleaning, in particular for every text without a
    digit (the empty text, [abc]), the price parser of the cart service
    yields [0] and the price parser of the HTML service yields
    [undefined], which the product page turns into the price [0]. *)
Theorem parsePrice_unparsable (s : jsstring) :
  no_digit s \/ unparsable s ->
  CartService.parsePrice s = of_Z 0
  /\ HtmlParserService.parsePrice s = None
  /\ HtmlParserService.or_num (HtmlParserService.parsePrice s) (of_Z 0) = of_Z 0.
Proof.
  intros H.
  assert (Hu : unparsable s) by (destruct H; [by apply no_digit_unparsable | done]).
  unfold unparsable in Hu.
  rewrite html_parsePrice_unfold, cart_parsePrice_unfold, Hu.
  by destruct (negb (truthy_str s)).
Qed.

Lemma parsePrice_unparsable_witness :
  (no_digit (js "abc") \/ unparsable (js "abc")) /\
  (CartService.parsePrice (js "abc") = of_Z 0
   /\ HtmlParserService.parsePrice (js "abc") = None
   /\ HtmlParserService.or_num (HtmlParserService.parsePrice (js "abc")) (of_Z 0)
      = of_Z 0).
Proof.
  assert (H : no_digit (js "abc") \/ unparsable (js "abc"))
    by (right; vm_compute; reflexivity).
  split; [exact H|].
  exact (parsePrice_unparsable (js "abc") H).
Defined.

(** C5 fails as stated for the parser of the HTML service: for the empty
    text and for [abc] it yields [undefined], not the number 0. *)
Lemma html_parsePrice_not_zero :
  HtmlParserService.parsePrice (js "") = None
  /\ HtmlParserService.parsePrice (js "abc") = None
  /\ HtmlParserService.parsePrice (js "") <> Some (of_Z 0)
  /\ HtmlParserService.parsePrice (js "abc") <> Some (of_Z 0).
Proof. vm_compute. repeat split; discriminate. Qed.

End PriceFacts.

(* ===================================================================== *)
(** * Properties of the extraction of products *)
(* ===================================================================== *)

Module ExtractionFacts.
Import Js Cheerio Exceptions Scenario HtmlParserService.
Local Open Scope string_scope.
Local Open Scope list_scope.
Local Open Scope Z_scope.

(** C4 (as the code has it): when no selector of the name yields a text,
    [parseProductPage] does not return [null]: the product it builds is
    named [Unknown Product] and carries the extracted price; only a card
    of a listing page is rejected ([null]) when its name is missing,
    whatever its price. *)
Theorem product_without_name (doc card : Element) (productId : jsstring) :
  extractProductName doc = None ->
  trim (text (first (select card card_name_selector))) = [] ->
  name (productData doc productId) = js "Unknown Product"
  /\ price (productData doc productId) = or_num (extractPrice doc) (of_Z 0)
  /\ parseProductPage doc productId <> Ok None
  /\ parseProductCard card productId = None.
Proof.
  intros Hname Hcard.
  split; [|split; [|split]].
  - unfold productData. cbn [name]. by rewrite Hname.
  - reflexivity.
  - discriminate.
  - unfold parseProductCard.
    change (jsq ".product-name, .productName, [data-test='product-name']")
      with card_name_selector.
    rewrite Hcard. by destruct (parsePrice _).
Qed.

Lemma product_without_name_witness :
  (extractProductName page_price_no_name = None
   /\ trim (text (first (select card_price_no_name card_name_selector))) = [])
  /\ (name (productData page_price_no_name (js "1413424")) = js "Unknown Product"
      /\ price (productData page_price_no_name (js "1413424"))
         = or_num (extractPrice page_price_no_name) (of_Z 0)
      /\ parseProductPage page_price_no_name (js "1413424") <> Ok None
      /\ parseProductCard card_price_no_name (js "1413424") = None).
Proof.
  assert (H1 : extractProductName page_price_no_name = None)
    by (vm_compute; reflexivity).
  assert (H2 : trim (text (first (select card_price_no_name card_name_selector))) = [])
    by (vm_compute; reflexivity).
  split; [by split|].
  exact (product_without_name page_price_no_name card_price_no_name
           (js "1413424") H1 H2).
Defined.

(** C4 fails as stated for product pages: on a page with a price and no
    name, [parseProductPage] does not return [null], and the product it
    has built is named [Unknown Product] and priced 57.9. *)
Lemma page_without_name_is_not_null :
  extractProductName page_price_no_name = None
  /\ extractPrice page_price_no_name = Some n57_9
  /\ parseProductPage page_price_no_name (js "1413424") <> Ok None
  /\ name (productData page_price_no_name (js "1413424")) = js "Unknown Product"
  /\ price (productData page_price_no_name (js "1413424")) = n57_9.
Proof.
  split; [vm_compute; reflexivity|].
  split; [vm_compute; reflexivity|].
  split; [discriminate|].
  split; vm_compute; reflexivity.
Qed.

(** C6 (as the code has it): the discount of the product that
    [parseProductPage] builds is [round((originalPrice - price) /
    originalPrice * 100)] exactly when the original price is present and
    neither it nor the price is zero, whichever of the two is greater,
    and is absent otherwise; for the original price 88.90 and the price
    57.90 it is 35. *)
Theorem discount_of_product (doc : Element) (productId : jsstring) :
  let p := productData doc productId in
  discount p =
    match originalPrice p with
    | Some o =>
        if truthy_num o && truthy_num (price p)
        then Some (Math_round (mul (div (sub o (price p)) o) (of_Z 100)))
        else None
    | None => None
    end
  /\ (originalPrice p = Some n88_9 -> price p = n57_9 ->
      discount p = Some (of_Z 35)).
Proof.
  intros p.
  assert (Hd : discount p =
    match originalPrice p with
    | Some o =>
        if truthy_num o && truthy_num (price p)
        then Some (Math_round (mul (div (sub o (price p)) o) (of_Z 100)))
        else None
    | None => None
    end).
  { unfold p, productData. cbn [discount originalPrice price].
    destruct (extractOriginalPrice doc) as [o|]; [|reflexivity].
    destruct (extractPrice doc) as [q|]; simpl.
    - destruct (truthy_num q) eqn:Hq; simpl; rewrite ?Hq, ?andb_false_r;
        reflexivity.
    - by rewrite andb_false_r. }
  split; [exact Hd|].
  intros Ho Hq. rewrite Hd, Ho, Hq. vm_compute. reflexivity.
Qed.

Lemma discount_of_product_witness :
  productData page_discounted (js "1413424") = product_discounted
  /\ discount (productData page_discounted (js "1413424")) = Some (of_Z 35).
Proof.
  assert (H : productData page_discounted (js "1413424") = product_discounted)
    by (vm_compute; reflexivity).
  split; [exact H|].
  apply (proj2 (discount_of_product page_discounted (js "1413424")));
    rewrite H; reflexivity.
Defined.

(** C6 fails as stated: with the original price 50 below the price 60 the
    discount is not absent, it is -20. *)
Lemma discount_without_price_drop :
  originalPrice (productData page_price_raised (js "1413424")) = Some (of_Z 50)
  /\ price (productData page_price_raised (js "1413424")) = of_Z 60
  /\ ltb (price (productData page_price_raised (js "1413424"))) (of_Z 50) = false
  /\ discount (productData page_price_raised (js "1413424")) = Some (of_Z (-20)).
Proof. vm_compute. repeat split. Qed.

End ExtractionFacts.

(* ===================================================================== *)
(** * Properties of the session manager *)
(* ===================================================================== *)

Module SessionFacts.
Import Js SessionManager.

Lemma clearSession_cleared now0 now sm :
  isAuthenticated (sessionData (clearSession now0 now sm)) = false
  /\ cookieJar (clearSession now0 now sm) = new_CookieJar
  /\ sessionId (sessionData (clearSession now0 now sm)) = None
  /\ expiresAt (sessionData (clearSession now0 now sm)) = now + sessionTimeout sm.
Proof. by repeat split. Qed.

(** C7: the validity check returns [isAuthenticated && now < expiresAt];
    it replaces the session by a cleared one (unauthenticated, with an
    empty cookie jar) exactly when the session was authenticated and the
    check fails, and leaves it untouched otherwise.  After
    [setAuthenticated] at time [t0] and without activity in between, the
    check at time [now] succeeds when [now < t0 + sessionTimeout] and
    otherwise fails and clears the session. *)
Theorem isSessionValid_spec (sm : t) (now now0 now1 : Z) :
  fst (isSessionValid now now0 now1 sm)
    = isAuthenticated (sessionData sm) && (now <? expiresAt (sessionData sm))
  /\ snd (isSessionValid now now0 now1 sm)
    = (if isAuthenticated (sessionData sm)
          && negb (now <? expiresAt (sessionData sm))
       then clearSession now0 now1 sm else sm)
  /\ isAuthenticated (sessionData (clearSession now0 now1 sm)) = false
  /\ cookieJar (clearSession now0 now1 sm) = new_CookieJar
  /\ forall t0 sid uid mail,
       isSessionValid now now0 now1 (setAuthenticated t0 sid uid mail sm)
       = if now <? t0 + sessionTimeout sm
         then (true, setAuthenticated t0 sid uid mail sm)
         else (false, clearSession now0 now1 sm).
Proof.
  unfold isSessionValid.
  repeat split.
  - by destruct (isAuthenticated (sessionData sm)), (now <? expiresAt (sessionData sm)).
  - by destruct (isAuthenticated (sessionData sm)), (now <? expiresAt (sessionData sm)).
  - intros t0 sid uid mail. simpl.
    by destruct (now <? t0 + sessionTimeout sm).
Qed.

(** Activity slides the expiry: after [updateActivity] at [t1] the check
    refers to [t1 + sessionTimeout]. *)
Lemma isSessionValid_after_activity sm now now0 now1 t0 t1 sid uid mail :
  fst (isSessionValid now now0 now1
         (updateActivity t1 (setAuthenticated t0 sid uid mail sm)))
  = (now <? t1 + sessionTimeout sm).
Proof.
  unfold isSessionValid. simpl.
  by destruct (now <? t1 + sessionTimeout sm).
Qed.

End SessionFacts.

(* ===================================================================== *)
(** * Properties of the rate-limited transport *)
(* ===================================================================== *)

Module TransportFacts.
Import Js Cheerio Net World Scenario RohlikClient.
Local Open Scope list_scope.
Local Open Scope Z_scope.

(** The world after the network exchange of [req]. *)
Lemma exchange_run req env w :
  exchange req env w =
  (Ok (env_site env (step w) req),
   {| step := S (step w); attempted := attempted w; sent := sent w ++ [req];
      cartClient := cartClient w; productClient := productClient w;
      productCache := productCache w; cartCache := cartCache w |}).
Proof. reflexivity. Qed.

Lemma request_interceptor_run cid req env w :
  request_interceptor cid req env w =
  let c := get_client cid w in
  let r := RateLimiterMemory.consume limiter_key (env_time env (step w)) (rateLimiter c) in
  if fst r
  then
    if resolves env req
    then (Ok tt,
          set_client cid
            {| rateLimiter := snd r;
               sessionManager :=
                 SessionManager.updateActivity (env_time env (S (step w)))
                   (sessionManager c) |}
            (tick (tick w)))
    else (Throw TypeError,
          set_client cid {| rateLimiter := snd r; sessionManager := sessionManager c |}
            (tick w))
  else (Throw (Error (js "Rate limit exceeded")),
        set_client cid {| rateLimiter := snd r; sessionManager := sessionManager c |}
          (tick w)).
Proof.
  unfold request_interceptor, resolves, bind, now, gets, asks, modify, throw.
  destruct cid; simpl;
    destruct (Z.ltb (RateLimiterMemory.points _) _); simpl; try reflexivity;
    destruct (truthy_str (url req)), (env_url env (url req)); reflexivity.
Qed.

Lemma request_run cid req env w :
  request cid req env w =
  match request_interceptor cid req env (log_attempt cid req w) with
  | (Ok _, w2) =>
      match env_site env (step w2) req with
      | Answer r =>
          if (200 <=? status r) && (status r <? 300)
          then response_interceptor cid req r env (snd (exchange req env w2))
          else (Throw (AxiosError (Some (status r))), snd (exchange req env w2))
      | NetworkError => (Throw (AxiosError None), snd (exchange req env w2))
      end
  | (Throw e, w2) => (Throw e, w2)
  end.
Proof.
  unfold request, bind, modify.
  destruct (request_interceptor cid req env (log_attempt cid req w)) as [[[]|e] w2];
    [|reflexivity].
  rewrite exchange_run. simpl.
  destruct (env_site env (step w2) req) as [r|]; [|reflexivity].
  by destruct ((200 <=? status r) && (status r <? 300)).
Qed.

(** The response interceptor touches neither the limiter nor the logs nor
    the step counter. *)
Lemma response_interceptor_frame cid req r env w :
  exists o w',
    response_interceptor cid req r env w = (o, w')
    /\ rateLimiter (get_client cid w') = rateLimiter (get_client cid w)
    /\ sent w' = sent w /\ attempted w' = attempted w /\ step w' = step w.
Proof.
  unfold response_interceptor.
  destruct (set_cookie r); [by eexists _, _|].
  destruct (truthy_str (url req)); [|by eexists _, _].
  unfold bind, asks, throw.
  destruct (env_url env (url req)); [|by eexists _, _].
  destruct cid; by eexists _, _.
Qed.





Lemma get_client_log_attempt cid cid' req w :
  get_client cid (log_attempt cid' req w) = get_client cid w.
Proof. by destruct cid. Qed.

Lemma get_set_client cid c w : get_client cid (set_client cid c w) = c.
Proof. by destruct cid. Qed.

Lemma sent_set_client cid c w : sent (set_client cid c w) = sent w.
Proof. by destruct cid. Qed.

Lemma step_set_client cid c w : step (set_client cid c w) = step w.
Proof. by destruct cid. Qed.

Lemma attempted_set_client cid c w : attempted (set_client cid c w) = attempted w.
Proof. by destruct cid. Qed.

(** What one request does to the limiter and to the network log, given
    the result of the consumption. *)
Lemma request_effect cid req env w accepted rl :
  RateLimiterMemory.consume limiter_key (env_time env (step w))
    (rateLimiter (get_client cid w)) = (accepted, rl) ->
  exists o w',
    request cid req env w = (o, w')
    /\ rateLimiter (get_client cid w') = rl
    /\ attempted w' = attempted w ++ [(cid, req)]
    /\ sent w' = sent w ++ (if accepted && resolves env req then [req] else [])
    /\ (step w < step w')%nat
    /\ (accepted = false ->
        o = Throw (Error (js "Rate limit exceeded"))
        /\ step w' = S (step w)
        /\ sessionManager (get_client cid w') = sessionManager (get_client cid w)).
Proof.
  intros Hc. rewrite request_run, request_interceptor_run. cbv zeta.
  rewrite get_client_log_attempt.
  change (step (log_attempt cid req w)) with (step w).
  rewrite Hc. cbn [fst snd].
  destruct accepted; cbn [andb].
  - destruct (resolves env req).
    + set (w2 := set_client cid _ _).
      assert (Hw2 : rateLimiter (get_client cid w2) = rl
                    /\ attempted w2 = attempted w ++ [(cid, req)]
                    /\ sent w2 = sent w /\ step w2 = S (S (step w))).
      { unfold w2. rewrite get_set_client, attempted_set_client, sent_set_client,
          step_set_client.
        by repeat split. }
      destruct Hw2 as (Hrl & Hatt & Hsent & Hstep).
      destruct (env_site env (step w2) req) as [r|].
      * destruct ((200 <=? status r) && (status r <? 300)).
        -- destruct (response_interceptor_frame cid req r env
                      (snd (exchange req env w2))) as (o & w' & -> & H1 & H2 & H3 & H4).
           exists o, w'. rewrite H1, H2, H3, H4. simpl.
           rewrite Hsent, Hatt, Hstep.
           repeat split; try done; try lia; by destruct cid.
        -- eexists _, _. split; [reflexivity|]. simpl.
           rewrite Hsent, Hatt, Hstep.
           repeat split; try done; try lia; by destruct cid.
      * eexists _, _. split; [reflexivity|]. simpl.
        rewrite Hsent, Hatt, Hstep.
        repeat split; try done; try lia; by destruct cid.
    + eexists _, _. split; [reflexivity|].
      rewrite get_set_client, attempted_set_client, sent_set_client,
        step_set_client, app_nil_r.
      repeat split; try done. simpl. lia.
  - eexists _, _. split; [reflexivity|].
    rewrite get_set_client, attempted_set_client, sent_set_client,
      step_set_client, app_nil_r.
    repeat split; try done. simpl. lia.
Qed.





End TransportFacts.

(* ===================================================================== *)
(** * Properties of the cart mutations *)
(* ===================================================================== *)

Module CartFacts.
Import Js Cheerio Net World Scenario CartService.
Local Open Scope string_scope.
Local Open Scope list_scope.
Local Open Scope Z_scope.

(** A computation whose handler returns a value never throws. *)
Lemma try_catch_total {A} (m : M A) (d : A) env w :
  exists a w', try_catch m (fun _ => ret d) env w = (Ok a, w').
Proof.
  unfold try_catch. destruct (m env w) as [[a|e] w']; by eexists _, _.
Qed.

(** A handler behind a computation that never throws is dead code. *)
Lemma try_catch_dead {A} (m : M A) (h : Exn -> M A) env w :
  (exists a w', m env w = (Ok a, w')) ->
  try_catch m h env w = m env w.
Proof. intros (a & w' & H). unfold try_catch. by rewrite H. Qed.

Lemma addToCartViaApi_total request env w :
  exists b w', addToCartViaApi request env w = (Ok b, w').
Proof. apply try_catch_total. Qed.

Lemma updateCartViaApi_total request env w :
  exists b w', updateCartViaApi request env w = (Ok b, w').
Proof. apply try_catch_total. Qed.

Lemma removeFromCartViaApi_total pid env w :
  exists b w', removeFromCartViaApi pid env w = (Ok b, w').
Proof. apply try_catch_total. Qed.

(** ** The calls made on the clients *)

Lemma request_attempted cid req env w :
  attempted (snd (RohlikClient.request cid req env w)) = attempted w ++ [(cid, req)].
Proof.
  destruct (RateLimiterMemory.consume limiter_key (env_time env (step w))
              (rateLimiter (RohlikClient.get_client cid w))) as [accepted rl] eqn:Hc.
  destruct (TransportFacts.request_effect cid req env w accepted rl Hc)
    as (o & w' & -> & _ & Hatt & _).
  exact Hatt.
Qed.

(** A structured call is one POST on the cart client, whatever comes of
    it. *)
Lemma api_call_attempted url body env w :
  attempted
    (snd (try_catch
            (World.bind (RohlikClient.post CartClient url body)
               (fun response =>
                  ret ((status response =? 200) && data_success (data response))))
            (fun _ => ret false) env w))
  = attempted w ++ [(CartClient, {| method := POST; url := url; body := body |})].
Proof.
  unfold try_catch, World.bind, RohlikClient.post.
  pose proof (request_attempted CartClient
                {| method := POST; url := url; body := body |} env w) as H.
  destruct (RohlikClient.request CartClient _ env w) as [[r|e] w']; exact H.
Qed.

Lemma getCart_attempted env w :
  attempted (snd (getCart env w))
  = attempted w ++ (if env_auth env (step w)
                    then [(CartClient, {| method := GET; url := CART_URL;
                                          body := NoBody |})]
                    else []).
Proof.
  unfold getCart, World.bind, authService_isAuthenticated. simpl.
  destruct (env_auth env (step w)); simpl; [|by rewrite app_nil_r].
  unfold RohlikClient.get.
  pose proof (request_attempted CartClient
                {| method := GET; url := CART_URL; body := NoBody |} env (tick w)) as H.
  destruct (RohlikClient.request CartClient _ env (tick w)) as [[r|e] w']; exact H.
Qed.

Lemma getCachedProduct_attempted pid env w :
  attempted (snd (ProductService.getCachedProduct pid env w)) = attempted w.
Proof.
  unfold ProductService.getCachedProduct, World.bind, gets. simpl.
  destruct (productCache w !! pid) as [[p cacheTime]|]; [|reflexivity].
  simpl. by destruct (ProductService.cacheTimeout <? _).
Qed.

(** [getProduct] makes at most one call, a GET on the product client. *)
Lemma getProduct_attempted pid env w :
  exists lookup,
    attempted (snd (ProductService.getProduct pid env w)) = attempted w ++ lookup
    /\ (lookup = [] \/
        lookup = [(ProductClient, {| method := GET; url := js "/" ++ pid ++ js "-";
                                     body := NoBody |})]).
Proof.
  unfold ProductService.getProduct, try_catch, World.bind.
  pose proof (getCachedProduct_attempted pid env w) as Hc.
  destruct (ProductService.getCachedProduct pid env w) as [[[p|]|e] w0];
    simpl in Hc.
  - exists []. rewrite app_nil_r. by split; [|left].
  - unfold RohlikClient.get.
    pose proof (request_attempted ProductClient
                  {| method := GET; url := js "/" ++ pid ++ js "-"; body := NoBody |}
                  env w0) as H.
    rewrite Hc in H.
    eexists. split; [|right; reflexivity].
    destruct (RohlikClient.request ProductClient _ env w0) as [[r|e] w1];
      simpl in H; [|exact H].
    destruct (negb (truthy_data (data r))); [exact H|].
    unfold lift.
    destruct (HtmlParserService.parseProductPage _ _) as [[pd|]|e']; exact H.
  - exists []. rewrite app_nil_r. by split; [|left].
Qed.

Lemma new_attempts_app w w' l :
  attempted w' = attempted w ++ l -> new_attempts w w' = l.
Proof. intros H. unfold new_attempts. rewrite H. apply drop_app_length. Qed.

Lemma addToCartViaApi_attempted request env w :
  attempted (snd (addToCartViaApi request env w)) = attempted w ++ [add_call request].
Proof. apply api_call_attempted. Qed.

Lemma updateCartViaApi_attempted request env w :
  attempted (snd (updateCartViaApi request env w))
  = attempted w ++ [update_call request].
Proof. apply api_call_attempted. Qed.

Lemma removeFromCartViaApi_attempted pid env w :
  attempted (snd (removeFromCartViaApi pid env w)) = attempted w ++ [remove_call pid].
Proof. apply api_call_attempted. Qed.

(** After a successful structured call only the cart is read again. *)
Lemma finish_success_attempted failure env w :
  exists refresh,
    attempted (snd (finish true failure env w)) = attempted w ++ refresh
    /\ (refresh = [] \/ refresh = [refresh_call]).
Proof.
  unfold finish, World.bind, modify. simpl.
  rewrite getCart_attempted. simpl.
  destruct (env_auth env (step w)); eexists; split; eauto.
Qed.

Lemma addToCart_api_success request env w p w1 w2 :
  env_auth env (step w) = true ->
  ProductService.getProduct (productId request) env (tick w) = (Ok (Some p), w1) ->
  addToCartViaApi request env w1 = (Ok true, w2) ->
  exists lookup refresh,
    new_attempts w (snd (addToCart request env w))
      = lookup ++ add_call request :: refresh
    /\ (lookup = [] \/ lookup = [lookup_call (productId request)])
    /\ (refresh = [] \/ refresh = [refresh_call])
    /\ List.filter is_post (new_attempts w (snd (addToCart request env w)))
       = [add_call request].
Proof.
  intros Hauth Hprod Hapi.
  destruct (getProduct_attempted (productId request) env (tick w))
    as (lookup & Hlook & Hl).
  rewrite Hprod in Hlook. simpl in Hlook.
  pose proof (addToCartViaApi_attempted request env w1) as Hcall.
  rewrite Hapi in Hcall. simpl in Hcall.
  destruct (finish_success_attempted "Failed to add product to cart" env w2)
    as (refresh & Hfin & Hr).
  assert (Hrun : addToCart request env w
                 = finish true "Failed to add product to cart" env w2).
  { unfold addToCart, World.bind at 1, authService_isAuthenticated.
    rewrite Hauth. cbn [negb].
    unfold World.bind at 1. cbv beta. rewrite Hprod.
    unfold World.bind at 1. cbv beta.
    rewrite try_catch_dead by apply addToCartViaApi_total.
    by rewrite Hapi. }
  assert (Hnew : new_attempts w (snd (addToCart request env w))
                 = lookup ++ add_call request :: refresh).
  { apply new_attempts_app. rewrite Hrun, Hfin, Hcall, Hlook.
    by rewrite <- !app_assoc. }
  exists lookup, refresh. rewrite Hnew.
  repeat split; try done.
  destruct Hl as [-> | ->], Hr as [-> | ->]; reflexivity.
Qed.

Lemma removeFromCart_api_success pid env w w2 :
  env_auth env (step w) = true ->
  removeFromCartViaApi pid env (tick w) = (Ok true, w2) ->
  exists refresh,
    new_attempts w (snd (removeFromCart pid env w)) = remove_call pid :: refresh
    /\ (refresh = [] \/ refresh = [refresh_call])
    /\ List.filter is_post (new_attempts w (snd (removeFromCart pid env w)))
       = [remove_call pid].
Proof.
  intros Hauth Hapi.
  pose proof (removeFromCartViaApi_attempted pid env (tick w)) as Hcall.
  rewrite Hapi in Hcall. simpl in Hcall.
  destruct (finish_success_attempted "Failed to remove product from cart" env w2)
    as (refresh & Hfin & Hr).
  assert (Hrun : removeFromCart pid env w
                 = finish true "Failed to remove product from cart" env w2).
  { unfold removeFromCart, World.bind at 1, authService_isAuthenticated.
    rewrite Hauth. cbn [negb].
    unfold World.bind at 1. cbv beta.
    rewrite try_catch_dead by apply removeFromCartViaApi_total.
    by rewrite Hapi. }
  assert (Hnew : new_attempts w (snd (removeFromCart pid env w))
                 = remove_call pid :: refresh).
  { apply new_attempts_app. rewrite Hrun, Hfin, Hcall.
    by rewrite <- !app_assoc. }
  exists refresh. rewrite Hnew.
  repeat split; try done.
  destruct Hr as [-> | ->]; reflexivity.
Qed.

Lemma updateCartItem_api_success request env w w2 :
  env_auth env (step w) = true ->
  SFeqb (quantity request) (of_Z 0) = false ->
  updateCartViaApi request env (tick w) = (Ok true, w2) ->
  exists refresh,
    new_attempts w (snd (updateCartItem request env w)) = update_call request :: refresh
    /\ (refresh = [] \/ refresh = [refresh_call])
    /\ List.filter is_post (new_attempts w (snd (updateCartItem request env w)))
       = [update_call request].
Proof.
  intros Hauth Hq Hapi.
  pose proof (updateCartViaApi_attempted request env (tick w)) as Hcall.
  rewrite Hapi in Hcall. simpl in Hcall.
  destruct (finish_success_attempted "Failed to update cart item" env w2)
    as (refresh & Hfin & Hr).
  assert (Hrun : updateCartItem request env w
                 = finish true "Failed to update cart item" env w2).
  { unfold updateCartItem, World.bind at 1, authService_isAuthenticated.
    rewrite Hauth, Hq. cbn [negb].
    unfold World.bind at 1. cbv beta.
    rewrite try_catch_dead by apply updateCartViaApi_total.
    by rewrite Hapi. }
  assert (Hnew : new_attempts w (snd (updateCartItem request env w))
                 = update_call request :: refresh).
  { apply new_attempts_app. rewrite Hrun, Hfin, Hcall.
    by rewrite <- !app_assoc. }
  exists refresh. rewrite Hnew.
  repeat split; try done.
  destruct Hr as [-> | ->]; reflexivity.
Qed.

(** An update to the quantity zero is a removal. *)
Lemma updateCartItem_zero request env w :
  env_auth env (step w) = true ->
  SFeqb (quantity request) (of_Z 0) = true ->
  updateCartItem request env w = removeFromCart (productId request) env (tick w).
Proof.
  intros Hauth Hq.
  unfold updateCartItem, World.bind at 1, authService_isAuthenticated.
  by rewrite Hauth, Hq.
Qed.

(** When the structured call comes back with [false], the mutation
    throws at once, in the world the structured call left. *)
Lemma updateCartItem_api_failure request env w w2 :
  env_auth env (step w) = true ->
  SFeqb (quantity request) (of_Z 0) = false ->
  updateCartViaApi request env (tick w) = (Ok false, w2) ->
  updateCartItem request env w
    = (Throw (Error (js "Failed to update cart item")), w2)
  /\ new_attempts w w2 = [update_call request].
Proof.
  intros Hauth Hq Hapi. split.
  - unfold updateCartItem, World.bind at 1, authService_isAuthenticated.
    rewrite Hauth, Hq. cbn [negb].
    unfold World.bind at 1. cbv beta.
    rewrite try_catch_dead by apply updateCartViaApi_total.
    by rewrite Hapi.
  - pose proof (updateCartViaApi_attempted request env (tick w)) as Hcall.
    rewrite Hapi in Hcall. by apply new_attempts_app.
Qed.

Lemma removeFromCart_api_failure pid env w w2 :
  env_auth env (step w) = true ->
  removeFromCartViaApi pid env (tick w) = (Ok false, w2) ->
  removeFromCart pid env w
    = (Throw (Error (js "Failed to remove product from cart")), w2)
  /\ new_attempts w w2 = [remove_call pid].
Proof.
  intros Hauth Hapi. split.
  - unfold removeFromCart, World.bind at 1, authService_isAuthenticated.
    rewrite Hauth. cbn [negb].
    unfold World.bind at 1. cbv beta.
    rewrite try_catch_dead by apply removeFromCartViaApi_total.
    by rewrite Hapi.
  - pose proof (removeFromCartViaApi_attempted pid env (tick w)) as Hcall.
    rewrite Hapi in Hcall. by apply new_attempts_app.
Qed.

(** C1 (the code does not do it): the handler that holds the form
    submission is never run, for none of the three mutations, because
    the structured call catches every exception itself and returns
    [false]; and a [false] from the structured call leads straight to the
    final error: the structured call is the only call that the update or
    the removal has made by then.  For [update_two], with the structured
    call failing in the network or answered by a server error,
    [updateCartItem] throws [Failed to update cart item] after that one
    call; for the product 1413424, with the structured call answered by a
    body without [success: true], [removeFromCart] throws [Failed to
    remove product from cart] after that one call: neither the cart page
    is requested nor a form submitted. *)
Theorem form_fallback_unreachable :
  (forall request env w,
      try_catch (addToCartViaApi request) (fun _ => addToCartViaForm request) env w
      = addToCartViaApi request env w)
  /\ (forall request env w,
      try_catch (updateCartViaApi request) (fun _ => updateCartViaForm request) env w
      = updateCartViaApi request env w)
  /\ (forall pid env w,
      try_catch (removeFromCartViaApi pid) (fun _ => removeFromCartViaForm pid) env w
      = removeFromCartViaApi pid env w)
  /\ (forall request env w w2,
      env_auth env (step w) = true ->
      SFeqb (quantity request) (of_Z 0) = false ->
      updateCartViaApi request env (tick w) = (Ok false, w2) ->
      updateCartItem request env w
        = (Throw (Error (js "Failed to update cart item")), w2)
      /\ new_attempts w w2 = [update_call request])
  /\ (forall pid env w w2,
      env_auth env (step w) = true ->
      removeFromCartViaApi pid env (tick w) = (Ok false, w2) ->
      removeFromCart pid env w
        = (Throw (Error (js "Failed to remove product from cart")), w2)
      /\ new_attempts w w2 = [remove_call pid])
  /\ (fst (updateCartItem update_two env_posts_unreachable initial_world)
        = Throw (Error (js "Failed to update cart item"))
      /\ attempted (snd (updateCartItem update_two env_posts_unreachable initial_world))
        = [update_call update_two])
  /\ (fst (updateCartItem update_two env_posts_500 initial_world)
        = Throw (Error (js "Failed to update cart item"))
      /\ attempted (snd (updateCartItem update_two env_posts_500 initial_world))
        = [update_call update_two])
  /\ (fst (removeFromCart (js "1413424") env_posts_soft_failure initial_world)
        = Throw (Error (js "Failed to remove product from cart"))
      /\ attempted (snd (removeFromCart (js "1413424") env_posts_soft_failure
                           initial_world))
        = [remove_call (js "1413424")]).
Proof.
  split; [|split; [|split; [|split; [|split; [|split; [|split]]]]]].
  - intros. apply try_catch_dead, addToCartViaApi_total.
  - intros. apply try_catch_dead, updateCartViaApi_total.
  - intros. apply try_catch_dead, removeFromCartViaApi_total.
  - apply updateCartItem_api_failure.
  - apply removeFromCart_api_failure.
  - split; vm_compute; reflexivity.
  - split; vm_compute; reflexivity.
  - split; vm_compute; reflexivity.
Qed.

(** C2: for each of the three mutations, when the session is
    authenticated and the structured call reports success, the calls made
    on the clients are: the lookup of the product (for an addition, at
    most one GET), the structured call, and the re-read of the cart (at
    most one GET).  The structured call is the only POST, and no call of
    the form path (the GET of the form page, the POST of the form) is
    made.  An update to the quantity zero is a removal. *)
Theorem api_success_single_post :
  (forall request env w p w1 w2,
      env_auth env (step w) = true ->
      ProductService.getProduct (productId request) env (tick w) = (Ok (Some p), w1) ->
      addToCartViaApi request env w1 = (Ok true, w2) ->
      exists lookup refresh,
        new_attempts w (snd (addToCart request env w))
          = lookup ++ add_call request :: refresh
        /\ (lookup = [] \/ lookup = [lookup_call (productId request)])
        /\ (refresh = [] \/ refresh = [refresh_call])
        /\ List.filter is_post (new_attempts w (snd (addToCart request env w)))
           = [add_call request])
  /\ (forall request env w w2,
      env_auth env (step w) = true ->
      SFeqb (quantity request) (of_Z 0) = false ->
      updateCartViaApi request env (tick w) = (Ok true, w2) ->
      exists refresh,
        new_attempts w (snd (updateCartItem request env w))
          = update_call request :: refresh
        /\ (refresh = [] \/ refresh = [refresh_call])
        /\ List.filter is_post (new_attempts w (snd (updateCartItem request env w)))
           = [update_call request])
  /\ (forall pid env w w2,
      env_auth env (step w) = true ->
      removeFromCartViaApi pid env (tick w) = (Ok true, w2) ->
      exists refresh,
        new_attempts w (snd (removeFromCart pid env w)) = remove_call pid :: refresh
        /\ (refresh = [] \/ refresh = [refresh_call])
        /\ List.filter is_post (new_attempts w (snd (removeFromCart pid env w)))
           = [remove_call pid])
  /\ (forall request env w,
      env_auth env (step w) = true ->
      SFeqb (quantity request) (of_Z 0) = true ->
      updateCartItem request env w = removeFromCart (productId request) env (tick w)).
Proof.
  split; [|split; [|split]].
  - apply addToCart_api_success.
  - apply updateCartItem_api_success.
  - apply removeFromCart_api_success.
  - apply updateCartItem_zero.
Qed.

Lemma api_success_single_post_witness :
  (exists refresh,
     new_attempts initial_world
       (snd (updateCartItem update_two env_posts_success initial_world))
       = update_call update_two :: refresh
     /\ (refresh = [] \/ refresh = [refresh_call])
     /\ List.filter is_post
          (new_attempts initial_world
             (snd (updateCartItem update_two env_posts_success initial_world)))
        = [update_call update_two])
  /\ (exists refresh,
       new_attempts initial_world
         (snd (removeFromCart (js "1413424") env_posts_success initial_world))
         = remove_call (js "1413424") :: refresh
       /\ (refresh = [] \/ refresh = [refresh_call])
       /\ List.filter is_post
            (new_attempts initial_world
               (snd (removeFromCart (js "1413424") env_posts_success initial_world)))
          = [remove_call (js "1413424")])
  /\ updateCartItem update_zero env_posts_success initial_world
     = removeFromCart (productId update_zero) env_posts_success (tick initial_world).
Proof.
  assert (Hauth : env_auth env_posts_success (step initial_world) = true)
    by reflexivity.
  assert (Hq : SFeqb (quantity update_two) (of_Z 0) = false) by reflexivity.
  assert (Hz : SFeqb (quantity update_zero) (of_Z 0) = true) by reflexivity.
  destruct api_success_single_post as (_ & Hupdate & Hremove & Hzero).
  split; [|split].
  - destruct (updateCartViaApi update_two env_posts_success (tick initial_world))
      as [[[|]|e] w2] eqn:Hapi;
      try (exfalso; vm_compute in Hapi; discriminate).
    exact (Hupdate update_two env_posts_success initial_world w2 Hauth Hq Hapi).
  - destruct (removeFromCartViaApi (js "1413424") env_posts_success
                (tick initial_world)) as [[[|]|e] w2] eqn:Hapi;
      try (exfalso; vm_compute in Hapi; discriminate).
    exact (Hremove (js "1413424") env_posts_success initial_world w2 Hauth Hapi).
  - exact (Hzero update_zero env_posts_success initial_world Hauth Hz).
Defined.

End CartFacts.

(* ===================================================================== *)
(** * Integers as binary64 numbers *)
(* ===================================================================== *)

Module NumberFacts.
Import Js Scenario.
Local Open Scope Z_scope.

Lemma digits2_pos_bounds p : 2 ^ (dg p - 1) <= Zpos p < 2 ^ dg p.
Proof.
  unfold dg. induction p as [p IH|p IH|]; simpl digits2_pos.
  - rewrite Pos2Z.inj_succ, Z.pow_succ_r by lia.
    replace (Z.succ (Zpos (digits2_pos p)) - 1)
      with (Z.succ (Zpos (digits2_pos p) - 1)) by lia.
    rewrite Z.pow_succ_r by lia. lia.
  - rewrite Pos2Z.inj_succ, Z.pow_succ_r by lia.
    replace (Z.succ (Zpos (digits2_pos p)) - 1)
      with (Z.succ (Zpos (digits2_pos p) - 1)) by lia.
    rewrite Z.pow_succ_r by lia. lia.
  - simpl. lia.
Qed.

Lemma dg_le_53 p : Zpos p < 2 ^ 53 -> dg p <= 53.
Proof.
  intros Hp. destruct (digits2_pos_bounds p) as [Hlo _].
  destruct (Z.le_gt_cases (dg p) 53) as [|Hgt]; [done|].
  assert (2 ^ 53 <= 2 ^ (dg p - 1)) by (apply Z.pow_le_mono_r; lia).
  lia.
Qed.

Lemma iter_xO_value p d : Zpos (Pos.iter xO p d) = Zpos p * 2 ^ Zpos d.
Proof.
  induction d as [|d IH] using Pos.peano_ind.
  - simpl. lia.
  - rewrite Pos.iter_succ, Pos2Z.inj_succ, Z.pow_succ_r by lia.
    rewrite Pos2Z.inj_xO, IH. lia.
Qed.

Lemma iter_xO_digits p d : dg (Pos.iter xO p d) = dg p + Zpos d.
Proof.
  unfold dg. induction d as [|d IH] using Pos.peano_ind.
  - simpl. lia.
  - rewrite Pos.iter_succ. simpl digits2_pos.
    rewrite Pos2Z.inj_succ, IH. lia.
Qed.

(** A 53-digit mantissa with an exponent in range is not rounded. *)
Lemma binary_round_aux_exact s m e :
  dg m = 53 -> -1074 <= e <= 971 ->
  binary_round_aux prec emax s (Zpos m) e loc_Exact = S754_finite s m e.
Proof.
  unfold dg. intros Hm He.
  unfold binary_round_aux, shr_fexp, fexp, emin, Zdigits2.
  rewrite Hm.
  replace (Z.max (53 + e - prec) (3 - emax - prec) - e) with 0
    by (unfold prec, emax; lia).
  simpl. rewrite Hm.
  replace (Z.max (53 + e - prec) (3 - emax - prec) - e) with 0
    by (unfold prec, emax; lia).
  simpl.
  destruct (Z.leb_spec e (emax - prec)); [reflexivity|unfold emax, prec in *; lia].
Qed.

Lemma binary_round_small s p :
  dg p <= 53 -> binary_round prec emax s p 0 = normal s p.
Proof.
  intros Hp. unfold binary_round, normal, shl_align, fexp, emin.
  fold (dg p).
  pose proof (digits2_pos_bounds p) as Hb.
  assert (Hdg : 1 <= dg p) by (unfold dg; lia).
  replace (Z.max (dg p + 0 - prec) (3 - emax - prec) - 0) with (dg p - 53)
    by (unfold prec, emax; lia).
  replace (Z.max (dg p + 0 - prec) (3 - emax - prec)) with (dg p - 53)
    by (unfold prec, emax; lia).
  destruct (dg p - 53) as [|d|d] eqn:Hd; [|lia|].
  - rewrite binary_round_aux_exact by lia.
    replace (53 - dg p) with 0 by lia.
    by rewrite Z.mul_1_r.
  - assert (Hv := iter_xO_value p d). assert (Hg := iter_xO_digits p d).
    rewrite binary_round_aux_exact by lia.
    replace (53 - dg p) with (Zpos d) by lia.
    by rewrite <- Hv.
Qed.

Lemma of_Z_pos p : Zpos p < 2 ^ 53 -> of_Z (Zpos p) = normal false p.
Proof. intros Hp. apply binary_round_small, dg_le_53, Hp. Qed.

Lemma of_Z_neg p : Zpos p < 2 ^ 53 -> of_Z (Zneg p) = normal true p.
Proof. intros Hp. apply binary_round_small, dg_le_53, Hp. Qed.

Lemma normal_mantissa s p :
  dg p <= 53 ->
  exists m, normal s p = S754_finite s m (dg p - 53)
            /\ Zpos m = Zpos p * 2 ^ (53 - dg p).
Proof.
  intros Hp. eexists. split; [reflexivity|].
  apply Z2Pos.id. apply Z.mul_pos_pos; [lia|]. apply Z.pow_pos_nonneg; lia.
Qed.

(** Numbers of the same sign compare like the integers they stand for. *)
Lemma normal_compare_magnitude p q mp mq :
  dg p <= 53 -> dg q <= 53 ->
  Zpos mp = Zpos p * 2 ^ (53 - dg p) ->
  Zpos mq = Zpos q * 2 ^ (53 - dg q) ->
  match dg p - 53 ?= dg q - 53 with
  | Lt => Lt
  | Gt => Gt
  | Eq => Pos.compare_cont Eq mp mq
  end = (Zpos p ?= Zpos q).
Proof.
  intros Hp Hq Hmp Hmq.
  pose proof (digits2_pos_bounds p) as Bp.
  pose proof (digits2_pos_bounds q) as Bq.
  destruct (Z.compare_spec (dg p - 53) (dg q - 53)) as [He|He|He].
  - assert (Hdg : dg p = dg q) by lia.
    change (Pos.compare_cont Eq mp mq) with (Zpos mp ?= Zpos mq).
    rewrite Hmp, Hmq, Hdg.
    assert (Hk : 0 < 2 ^ (53 - dg q)) by (apply Z.pow_pos_nonneg; lia).
    destruct (Z.compare_spec (Zpos p) (Zpos q)) as [H|H|H].
    + apply Z.compare_eq_iff. by rewrite H.
    + apply Z.compare_lt_iff. nia.
    + apply Z.compare_gt_iff. nia.
  - symmetry. apply Z.compare_lt_iff.
    assert (2 ^ dg p <= 2 ^ (dg q - 1)) by (apply Z.pow_le_mono_r; lia).
    lia.
  - symmetry. apply Z.compare_gt_iff.
    assert (2 ^ dg q <= 2 ^ (dg p - 1)) by (apply Z.pow_le_mono_r; lia).
    lia.
Qed.

Lemma of_Z_compare a b :
  Z.abs a < 2 ^ 53 -> Z.abs b < 2 ^ 53 ->
  SFcompare (of_Z a) (of_Z b) = Some (a ?= b).
Proof.
  intros Ha Hb.
  destruct a as [|p|p], b as [|q|q];
    try rewrite (of_Z_pos p) by lia; try rewrite (of_Z_neg p) by lia;
    try rewrite (of_Z_pos q) by lia; try rewrite (of_Z_neg q) by lia;
    try reflexivity.
  - destruct (normal_mantissa false p) as (mp & -> & Hmp); [apply dg_le_53; lia|].
    destruct (normal_mantissa false q) as (mq & -> & Hmq); [apply dg_le_53; lia|].
    unfold SFcompare. f_equal.
    apply normal_compare_magnitude; try done; apply dg_le_53; lia.
  - destruct (normal_mantissa true p) as (mp & -> & Hmp); [apply dg_le_53; lia|].
    destruct (normal_mantissa true q) as (mq & -> & Hmq); [apply dg_le_53; lia|].
    unfold SFcompare. f_equal.
    transitivity (CompOpp (Zpos p ?= Zpos q)); [|reflexivity].
    rewrite <- (normal_compare_magnitude p q mp mq);
      try done; try (apply dg_le_53; lia).
    by destruct (dg p - 53 ?= dg q - 53).
Qed.

(** The comparison of two integers below 2^53 as numbers is their
    comparison as integers. *)
Lemma of_Z_ltb a b :
  Z.abs a < 2 ^ 53 -> Z.abs b < 2 ^ 53 ->
  ltb (of_Z a) (of_Z b) = (a <? b).
Proof.
  intros Ha Hb. unfold ltb, SFltb. rewrite of_Z_compare by done.
  unfold Z.ltb. by destruct (a ?= b).
Qed.

(** ** Rounding of a product *)

Lemma iter_pos_iter {A} (f : A -> A) p x :
  SpecFloat.iter_pos f p x = Pos.iter f x p.
Proof.
  revert x. induction p as [p IH|p IH|]; intros x; simpl.
  - by rewrite !IH, !Pos.iter_swap.
  - by rewrite !IH.
  - reflexivity.
Qed.

Lemma shr_1_value m r s :
  0 <= m ->
  shr_1 {| shr_m := m; shr_r := r; shr_s := s |}
  = {| shr_m := m / 2; shr_r := Z.odd m; shr_s := r || s |}.
Proof.
  intros Hm. rewrite <- Z.div2_div.
  destruct m as [|[p|p|]|p]; try reflexivity. lia.
Qed.

Lemma shifted_first M :
  0 <= M -> shr_1 {| shr_m := M; shr_r := false; shr_s := false |} = shifted M 1.
Proof.
  intros HM. rewrite shr_1_value by done. unfold shifted.
  change (2 ^ (1 - 1)) with 1. change (2 ^ 1) with 2.
  by rewrite Z.div_1_r, Z.mod_1_r.
Qed.

Lemma shifted_next M k :
  0 <= M -> 1 <= k -> shr_1 (shifted M k) = shifted M (k + 1).
Proof.
  intros HM Hk. unfold shifted.
  assert (Hp : 0 < 2 ^ (k - 1)) by (apply Z.pow_pos_nonneg; lia).
  assert (Hk2 : 2 ^ k = 2 ^ (k - 1) * 2).
  { replace k with (Z.succ (k - 1)) at 1 by lia. rewrite Z.pow_succ_r by lia. lia. }
  rewrite shr_1_value by (apply Z.div_pos; [done|apply Z.pow_pos_nonneg; lia]).
  replace (k + 1 - 1) with k by lia.
  f_equal.
  - rewrite Z.pow_add_r by lia. change (2 ^ 1) with 2.
    rewrite Z.div_div by lia. reflexivity.
  - rewrite Hk2. rewrite Z.rem_mul_r by lia.
    rewrite (Zmod_odd (M / 2 ^ (k - 1))).
    destruct (Z.odd (M / 2 ^ (k - 1))); simpl.
    + pose proof (Z.mod_pos_bound M (2 ^ (k - 1)) Hp).
      symmetry. apply negb_true_iff, Z.eqb_neq. lia.
    + f_equal. f_equal. lia.
Qed.

Lemma shifted_iter M n :
  0 <= M ->
  SpecFloat.iter_pos shr_1 n {| shr_m := M; shr_r := false; shr_s := false |}
  = shifted M (Zpos n).
Proof.
  intros HM. rewrite iter_pos_iter.
  induction n as [|n IH] using Pos.peano_ind.
  - simpl. by apply shifted_first.
  - rewrite Pos.iter_succ, IH, Pos2Z.inj_succ.
    rewrite shifted_next by lia. f_equal. 
Qed.

Lemma dg_unique p d : 2 ^ (d - 1) <= Zpos p < 2 ^ d -> dg p = d.
Proof.
  intros [Hlo Hhi]. pose proof (digits2_pos_bounds p) as [Blo Bhi].
  destruct (Z.lt_trichotomy (dg p) d) as [H|[H|H]]; [|done|].
  - assert (2 ^ dg p <= 2 ^ (d - 1)) by (apply Z.pow_le_mono_r; lia). lia.
  - assert (2 ^ d <= 2 ^ (dg p - 1)) by (apply Z.pow_le_mono_r; lia). lia.
Qed.

Lemma shr_fexp_exact m e :
  dg m = 53 -> -1074 <= e ->
  shr_fexp prec emax (Zpos m) e loc_Exact
  = ({| shr_m := Zpos m; shr_r := false; shr_s := false |}, e).
Proof.
  unfold dg. intros Hm He.
  unfold shr_fexp, fexp, emin, Zdigits2. rewrite Hm.
  replace (Z.max (53 + e - prec) (3 - emax - prec) - e) with 0
    by (unfold prec, emax; lia).
  reflexivity.
Qed.

Lemma shr_fexp_shift m e :
  53 < dg m -> -1021 <= dg m + e ->
  shr_fexp prec emax (Zpos m) e loc_Exact
  = (shifted (Zpos m) (dg m - 53), e + (dg m - 53)).
Proof.
  intros Hm He.
  unfold shr_fexp, fexp, emin, Zdigits2. fold (dg m).
  replace (Z.max (dg m + e - prec) (3 - emax - prec) - e) with (dg m - 53)
    by (unfold prec, emax; lia).
  destruct (dg m - 53) as [|n|n] eqn:Hn; [lia| |lia].
  unfold shr, shr_record_of_loc. by rewrite shifted_iter.
Qed.

(** The threshold: a fifth of a multiple of five is exact. *)
Lemma fifth_exact q :
  Zpos (5 * q) < 2 ^ 53 -> mul (of_Z (Zpos (5 * q))) n0_2 = of_Z (Zpos q).
Proof.
  intros HT.
  assert (Hq : Zpos q < 2 ^ 53) by lia.
  rewrite (of_Z_pos (5 * q)), (of_Z_pos q) by done.
  pose proof (dg_le_53 (5 * q) HT) as HdT.
  pose proof (dg_le_53 q Hq) as Hdq.
  destruct (normal_mantissa false (5 * q) HdT) as (mT & -> & HmT).
  replace n0_2 with (S754_finite false 7205759403792794 (-55))
    by (vm_compute; reflexivity).
  unfold mul, SFmul. cbn [xorb].
  pose proof (digits2_pos_bounds q) as [Bqlo Bqhi].
  pose proof (digits2_pos_bounds (5 * q)) as [BTlo BThi].
  set (dq := dg q) in *. set (dT := dg (5 * q)) in *.
  assert (Hdq1 : 1 <= dq) by (unfold dq, dg; lia).
  assert (HdT1 : 1 <= dT) by (unfold dT, dg; lia).
  (* the digits of q and of 5q *)
  assert (HdTq : dq + 2 <= dT <= dq + 3).
  { split.
    - destruct (Z.le_gt_cases (dq + 2) dT) as [|H]; [done|].
      assert (2 ^ dT <= 2 ^ (dq + 1)) by (apply Z.pow_le_mono_r; lia).
      replace (dq + 1) with (Z.succ (Z.succ (dq - 1))) in * by lia.
      rewrite !Z.pow_succ_r in * by lia. lia.
    - destruct (Z.le_gt_cases dT (dq + 3)) as [|H]; [done|].
      assert (2 ^ (dq + 3) <= 2 ^ (dT - 1)) by (apply Z.pow_le_mono_r; lia).
      replace (dq + 3) with (Z.succ (Z.succ (Z.succ dq))) in * by lia.
      rewrite !Z.pow_succ_r in * by lia. lia. }
  set (a := 53 - dT) in *.
  set (A := 2 ^ (a + 1)).
  set (D := 2 ^ dq) in *.
  set (E := 2 ^ (54 - dq)).
  assert (HA : 0 < A) by (apply Z.pow_pos_nonneg; lia).
  assert (HD : 0 < D) by (apply Z.pow_pos_nonneg; lia).
  assert (HE : 0 < E) by (apply Z.pow_pos_nonneg; lia).
  assert (HDE : D * E = 2 ^ 54)
    by (unfold D, E; rewrite <- Z.pow_add_r by lia; f_equal; lia).
  assert (HAa : A = 2 * 2 ^ a)
    by (unfold A; rewrite Z.pow_add_r by lia; change (2 ^ 1) with 2; lia).
  assert (HP : Zpos (mT * 7205759403792794) = A * D * (Zpos q * E) + Zpos q * A).
  { rewrite Pos2Z.inj_mul, HmT, Pos2Z.inj_mul.
    replace (Z.pos 5 * Z.pos q * 2 ^ a * Z.pos 7205759403792794)
      with (Zpos q * (2 * 2 ^ a) * (2 ^ 54 + 1)) by lia.
    rewrite <- HAa, <- HDE. ring. }
  set (P := Zpos (mT * 7205759403792794)) in *.
  set (E' := 2 ^ (53 - dq)).
  assert (HE' : 0 < E') by (apply Z.pow_pos_nonneg; lia).
  assert (HEE : E = 2 * E').
  { unfold E, E'. replace (54 - dq) with (Z.succ (53 - dq)) by lia.
    rewrite Z.pow_succ_r by lia. reflexivity. }
  assert (HD2 : D = 2 * 2 ^ (dq - 1)).
  { unfold D. replace dq with (Z.succ (dq - 1)) at 1 by lia.
    rewrite Z.pow_succ_r by lia. reflexivity. }
  (* the digits of the product *)
  assert (HdP : dg (mT * 7205759403792794) = dq + 55 + a).
  { apply dg_unique. fold P.
    replace (dq + 55 + a) with ((a + 1) + dq + 54) by lia.
    replace ((a + 1) + dq + 54 - 1) with ((a + 1) + (dq - 1) + 54) by lia.
    rewrite !Z.pow_add_r by lia. fold A D.
    rewrite HP, <- HDE. nia. }
  assert (Hn : dq + 55 + a - 53 = (a + 1) + dq + 1) by lia.
  assert (H2n : 2 ^ (dq + 55 + a - 53) = 2 * (A * D)).
  { rewrite Hn, !Z.pow_add_r by lia. fold A D. change (2 ^ 1) with 2. lia. }
  assert (H2n1 : 2 ^ (dq + 55 + a - 53 - 1) = A * D).
  { replace (dq + 55 + a - 53 - 1) with ((a + 1) + dq) by lia.
    rewrite Z.pow_add_r by lia. reflexivity. }
  assert (Hdiv1 : P / (A * D) = Zpos q * E).
  { symmetry. apply (Z.div_unique_pos P (A * D) (Zpos q * E) (Zpos q * A)); nia. }
  assert (Hmod1 : P mod (A * D) = Zpos q * A).
  { symmetry. apply (Z.mod_unique_pos P (A * D) (Zpos q * E) (Zpos q * A)); nia. }
  assert (Hdiv2 : P / (2 * (A * D)) = Zpos q * E').
  { symmetry.
    apply (Z.div_unique_pos P (2 * (A * D)) (Zpos q * E') (Zpos q * A)); nia. }
  assert (Hshift : shifted P (dq + 55 + a - 53)
                   = {| shr_m := Zpos q * E'; shr_r := false; shr_s := true |}).
  { unfold shifted. rewrite H2n, H2n1, Hdiv1, Hdiv2, Hmod1. f_equal.
    - rewrite HEE. replace (Zpos q * (2 * E')) with (2 * (Zpos q * E')) by lia.
      apply Z.odd_even.
    - apply negb_true_iff, Z.eqb_neq. nia. }
  unfold binary_round_aux. unfold P at 1.
  rewrite shr_fexp_shift by (rewrite HdP; lia).
  fold P. rewrite HdP, Hshift. cbn [shr_m loc_of_shr_record round_nearest_even].
  assert (Hm' : 0 < Zpos q * E') by nia.
  destruct (Zpos q * E') as [|m'|] eqn:Hm'eq; [lia| |lia].
  assert (Hdm' : dg m' = 53).
  { apply dg_unique. rewrite <- Hm'eq.
    change (2 ^ 53) with (2 * 2 ^ 52).
    assert (2 ^ (dq - 1) * E' = 2 ^ 52)
      by (unfold E'; rewrite <- Z.pow_add_r by lia; f_equal; lia).
    change (2 ^ (53 - 1)) with (2 ^ 52). nia. }
  rewrite shr_fexp_exact by (done || lia).
  cbn [shr_m].
  destruct (Z.leb_spec (dT - 53 + -55 + (dq + 55 + a - 53)) (emax - prec));
    [|unfold emax, prec in *; lia].
  unfold normal. fold dq. fold E'. rewrite Hm'eq. f_equal. lia.
Qed.

End NumberFacts.

(* ===================================================================== *)
(** * Renewal of the session *)
(* ===================================================================== *)

Module RenewalFacts.
Import Js Scenario SessionManager NumberFacts.
Local Open Scope Z_scope.

(** C8 (as the code has it): for a session manager configured with a
    positive number of minutes, [needsRenewal] returns true exactly when
    the session is authenticated and the remaining time is strictly
    below 20% of the timeout; with exactly 20% left it returns false. *)
Theorem needsRenewal_strict (sm : t) (now minutes : Z) :
  0 < minutes ->
  timeout_of_minutes minutes < 2 ^ 53 ->
  sessionTimeout sm = timeout_of_minutes minutes ->
  Z.abs (expiresAt (sessionData sm) - now) < 2 ^ 53 ->
  needsRenewal now sm = true
  <-> isAuthenticated (sessionData sm) = true
      /\ 5 * (expiresAt (sessionData sm) - now) < sessionTimeout sm.
Proof.
  intros Hmin Hmax Hcfg Hrem. unfold needsRenewal.
  destruct (isAuthenticated (sessionData sm)); cbn [negb]; [|by split; [|intros []]].
  fold n0_2. rewrite Hcfg. unfold timeout_of_minutes in *.
  destruct (12000 * minutes) as [|q|q] eqn:Hq; [lia| |lia].
  replace (minutes * 60 * 1000) with (Zpos (5 * q)) in * by lia.
  rewrite fifth_exact by done.
  rewrite of_Z_ltb by lia.
  rewrite Z.ltb_lt. split; [intros H; split; [done|lia] | intros [_ H]; lia].
Qed.

Lemma needsRenewal_strict_witness :
  needsRenewal 1440001 session_30min = true
  <-> isAuthenticated (sessionData session_30min) = true
      /\ 5 * (expiresAt (sessionData session_30min) - 1440001)
         < sessionTimeout session_30min.
Proof.
  assert (H1 : 0 < 30) by lia.
  assert (H2 : timeout_of_minutes 30 < 2 ^ 53) by (vm_compute; reflexivity).
  assert (H3 : sessionTimeout session_30min = timeout_of_minutes 30) by reflexivity.
  assert (H4 : Z.abs (expiresAt (sessionData session_30min) - 1440001) < 2 ^ 53)
    by (vm_compute; reflexivity).
  exact (needsRenewal_strict session_30min 1440001 30 H1 H2 H3 H4).
Defined.

(** C8 fails as stated: with exactly 20% of the timeout left (360000 of
    1800000 milliseconds) an authenticated session does not need renewal;
    one millisecond later it does. *)
Lemma needsRenewal_false_at_threshold :
  isAuthenticated (sessionData session_30min) = true
  /\ expiresAt (sessionData session_30min) - 1440000 = 360000
  /\ 5 * 360000 <= sessionTimeout session_30min
  /\ needsRenewal 1440000 session_30min = false
  /\ needsRenewal 1440001 session_30min = true.
Proof. vm_compute. repeat split; discriminate. Qed.

End RenewalFacts.

(* ===================================================================== *)
(** * Further properties of the price parsers *)
(* ===================================================================== *)

Module PriceMore.
Import Js Cheerio Scenario Cases PriceFacts NumberFacts.
Local Open Scope string_scope.
Local Open Scope list_scope.
Local Open Scope Z_scope.

Lemma price_chars_cons c s :
  price_chars (c :: s) = if is_price_char c then c :: price_chars s else price_chars s.
Proof.
  unfold price_chars, is_price_char, jsstring. rewrite filter_cons.
  destruct (is_digit c || (c =? ch ",")%N || (c =? ch ".")%N || (c =? ch "-")%N);
    by case_decide.
Qed.

Lemma price_chars_kept s :
  Forall (fun c => is_price_char c = true) s -> price_chars s = s.
Proof.
  induction 1 as [|c s Hc _ IH]; [reflexivity|].
  by rewrite price_chars_cons, Hc, IH.
Qed.

Lemma price_chars_dropped s : other_text s -> price_chars s = [].
Proof.
  induction 1 as [|c s Hc _ IH]; [reflexivity|].
  by rewrite price_chars_cons, Hc, IH.
Qed.

Lemma price_chars_are_price_chars s :
  Forall (fun c => is_price_char c = true) (price_chars s).
Proof.
  induction s as [|c s IH]; [constructor|].
  rewrite price_chars_cons. destruct (is_price_char c) eqn:Hc; [by constructor|done].
Qed.

Lemma price_chars_idem s : price_chars (price_chars s) = price_chars s.
Proof. apply price_chars_kept, price_chars_are_price_chars. Qed.

(** X1: characters other than digits, comma, dot and minus have no effect
    on a price: a text and the text reduced to those characters parse to
    the same result, in the HTML service and in the cart service. *)
Theorem parsePrice_ignores_other_characters (s : jsstring) :
  HtmlParserService.parsePrice s = HtmlParserService.parsePrice (price_chars s)
  /\ CartService.parsePrice s = CartService.parsePrice (price_chars s).
Proof.
  rewrite !html_parsePrice_unfold, !cart_parsePrice_unfold.
  unfold cleaned. rewrite price_chars_idem.
  destruct s as [|c s]; [by split|].
  destruct (price_chars (c :: s)) as [|d t] eqn:Hp; by split.
Qed.

Lemma digit_range c : is_digit c = true -> (48 <= c <= 57)%N.
Proof.
  unfold is_digit. intros H. apply andb_true_iff in H as [H1 H2].
  apply N.leb_le in H1, H2. lia.
Qed.

(** Comparisons of a character in a known range. *)
Ltac compare_chars :=
  repeat match goal with
    | |- context [N.eqb ?a ?b] => rewrite (proj2 (N.eqb_neq a b)) by lia
    | |- context [N.leb ?a ?b] =>
        first [rewrite (proj2 (N.leb_le a b)) by lia
              |rewrite (proj2 (N.leb_gt a b)) by lia]
    end.

Lemma digit_not_space c : is_digit c = true -> is_white_space c = false.
Proof.
  intros H. apply digit_range in H. unfold is_white_space.
  compare_chars. reflexivity.
Qed.

Lemma take_digits_app ds rest :
  digit_text ds ->
  match rest with [] => True | c :: _ => is_digit c = false end ->
  take_digits (ds ++ rest) = (digit_value <$> ds, rest).
Proof.
  intros Hds Hrest. induction Hds as [|c ds Hc _ IH]; simpl.
  - destruct rest as [|c rest]; [reflexivity|]. simpl. by rewrite Hrest.
  - by rewrite Hc, IH.
Qed.

Lemma sign_read neg c s :
  is_digit c = true ->
  take_sign (trimStart (sign_text neg ++ c :: s)) = (neg, c :: s).
Proof.
  intros Hc. pose proof (digit_not_space c Hc) as Hw.
  apply digit_range in Hc.
  destruct neg; simpl.
  - reflexivity.
  - rewrite Hw. unfold take_sign.
    change (ch "-") with 45%N. change (ch "+") with 43%N.
    compare_chars. reflexivity.
Qed.

Lemma take_exponent_stops rest : stops rest -> take_exponent rest = 0.
Proof.
  destruct rest as [|c rest]; [reflexivity|]. intros (_ & He & HE).
  unfold take_exponent.
  by rewrite (proj2 (N.eqb_neq c (ch "e")) He), (proj2 (N.eqb_neq c (ch "E")) HE).
Qed.

Lemma stops_not_digit rest :
  stops rest -> match rest with [] => True | c :: _ => is_digit c = false end.
Proof. destruct rest; [done|]. by intros (? & _). Qed.

(** [parseFloat] reads a decimal: sign, digits, dot, digits. *)
Lemma parseFloat_decimal neg ip fp rest :
  digit_text ip -> ip <> [] -> digit_text fp -> stops rest ->
  parseFloat (sign_text neg ++ ip ++ ch "." :: fp ++ rest) = decimal_number neg ip fp.
Proof.
  intros Hip Hne Hfp Hrest.
  destruct ip as [|c ip]; [done|].
  pose proof (Forall_inv Hip) as Hc. simpl in Hc.
  unfold parseFloat.
  rewrite <- app_comm_cons, (sign_read neg c _ Hc).
  assert (Hinf : startsWith (js "Infinity") (c :: ip ++ ch "." :: fp ++ rest) = false).
  { apply digit_range in Hc. change (js "Infinity") with (73%N :: js "nfinity").
    cbn [startsWith]. by rewrite (proj2 (N.eqb_neq 73 c)) by lia. }
  rewrite Hinf.
  rewrite (app_comm_cons ip), (take_digits_app (c :: ip) _ Hip) by reflexivity.
  rewrite N.eqb_refl.
  rewrite (take_digits_app fp rest Hfp (stops_not_digit rest Hrest)).
  rewrite (take_exponent_stops rest Hrest).
  unfold decimal_number. rewrite fmap_app, length_fmap.
  reflexivity.
Qed.

(** ** A decimal is never [NaN] *)

Lemma shr_1_nonneg mrs : 0 <= shr_m mrs -> 0 <= shr_m (shr_1 mrs).
Proof. destruct mrs as [[|[p|p|]|p] r s]; simpl; lia. Qed.

Lemma shr_fexp_nonneg m e l :
  0 <= m -> 0 <= shr_m (fst (shr_fexp prec emax m e l)).
Proof.
  intros Hm. unfold shr_fexp, shr.
  assert (H0 : 0 <= shr_m (shr_record_of_loc m l))
    by (by destruct l as [|[]]).
  destruct (fexp prec emax (Zdigits2 m + e) - e) as [|n|n]; simpl; try done.
  rewrite iter_pos_iter.
  by apply Pos.iter_invariant; [apply shr_1_nonneg|].
Qed.

Lemma round_nearest_even_nonneg m l : 0 <= m -> 0 <= round_nearest_even m l.
Proof.
  intros Hm. destruct l as [|[]]; simpl; try lia.
  destruct (Z.even m); lia.
Qed.

Lemma binary_round_aux_not_nan s m e l :
  0 <= m -> isNaN (binary_round_aux prec emax s m e l) = false.
Proof.
  intros Hm. unfold binary_round_aux.
  pose proof (shr_fexp_nonneg m e l Hm) as H1.
  destruct (shr_fexp prec emax m e l) as [mrs' e'].
  pose proof (shr_fexp_nonneg
                (round_nearest_even (shr_m mrs') (loc_of_shr_record mrs')) e' loc_Exact
                (round_nearest_even_nonneg _ _ H1)) as H2.
  destruct (shr_fexp prec emax _ e' loc_Exact) as [mrs'' e''].
  simpl in H2.
  destruct (shr_m mrs'') as [|p|p]; [reflexivity| |lia].
  by destruct (e'' <=? emax - prec).
Qed.

Lemma decimal_value_not_nan neg m e10 : isNaN (decimal_value neg m e10) = false.
Proof.
  unfold decimal_value. destruct m as [|p|p]; try reflexivity.
  unfold div, SFdiv, SFdiv_core_binary.
  set (num := Z.to_pos (Z.pos p * 10 ^ Z.max e10 0)).
  set (den := Z.to_pos (10 ^ Z.max (- e10) 0)).
  set (m' := match _ - _ with Z.pos _ => _ | 0 => _ | Z.neg _ => _ end).
  assert (Hm' : 0 <= m').
  { unfold m'. destruct (_ - _); try lia. apply Z.shiftl_nonneg. lia. }
  pose proof (Z.div_pos m' (Zpos den) Hm' eq_refl) as Hq.
  unfold Z.div in Hq.
  destruct (Z.div_eucl m' (Z.pos den)) as [q r]. simpl in Hq.
  by apply binary_round_aux_not_nan.
Qed.

Lemma digit_is_price_char c : is_digit c = true -> is_price_char c = true.
Proof. intros H. unfold is_price_char. by rewrite H. Qed.

Lemma digit_text_kept s : digit_text s -> price_chars s = s.
Proof.
  intros H. apply price_chars_kept.
  eapply Forall_impl; [exact H|]. apply digit_is_price_char.
Qed.

Lemma digit_text_no_comma s : digit_text s -> ch "," ∉ s.
Proof.
  intros H Hin. unfold digit_text in H. rewrite Forall_forall in H.
  specialize (H _ Hin). vm_compute in H. discriminate.
Qed.

Lemma sign_text_kept neg : price_chars (sign_text neg) = sign_text neg.
Proof. by destruct neg. Qed.

Lemma sign_text_no_comma neg : ch "," ∉ sign_text neg.
Proof.
  destruct neg; simpl; [|apply not_elem_of_nil].
  intros H. apply list_elem_of_singleton in H. vm_compute in H. discriminate.
Qed.

Lemma replace_first_skip c d x y :
  c ∉ x -> replace_first c d (x ++ y) = x ++ replace_first c d y.
Proof.
  induction x as [|a x IH]; intros Hc; [reflexivity|].
  apply not_elem_of_cons in Hc as [Ha Hx]. simpl.
  destruct (N.eqb_spec a c) as [->|_]; [done|].
  by rewrite IH.
Qed.

(** X2: a price written as an optional minus sign, digits, a comma or a
    dot and further digits, surrounded by any text without price
    characters (a label, spaces, a currency), parses to the number
    nearest to that decimal, in both price parsers. *)
Theorem parsePrice_decimal (neg : bool) (pre ip fp post : jsstring) (sep : N) :
  other_text pre -> other_text post ->
  digit_text ip -> ip <> [] -> digit_text fp ->
  sep = ch "," \/ sep = ch "." ->
  HtmlParserService.parsePrice (pre ++ sign_text neg ++ ip ++ sep :: fp ++ post)
    = Some (decimal_number neg ip fp)
  /\ CartService.parsePrice (pre ++ sign_text neg ++ ip ++ sep :: fp ++ post)
    = decimal_number neg ip fp.
Proof.
  intros Hpre Hpost Hip Hne Hfp Hsep.
  assert (Hclean : cleaned (pre ++ sign_text neg ++ ip ++ sep :: fp ++ post)
                   = sign_text neg ++ ip ++ ch "." :: fp ++ []).
  { unfold cleaned.
    rewrite !price_chars_app, (price_chars_dropped pre Hpre), sign_text_kept,
      (digit_text_kept ip Hip).
    rewrite price_chars_cons, price_chars_app, (digit_text_kept fp Hfp),
      (price_chars_dropped post Hpost).
    assert (Hno : ch "," ∉ sign_text neg ++ ip).
    { rewrite not_elem_of_app. split;
        [apply sign_text_no_comma | by apply digit_text_no_comma]. }
    destruct Hsep as [-> | ->]; cbn [is_price_char app].
    - change (is_price_char (ch ",")) with true. cbv iota.
      rewrite app_assoc, (replace_first_here _ _ _ _ Hno), <- app_assoc.
      reflexivity.
    - change (is_price_char (ch ".")) with true. cbv iota.
      rewrite app_assoc, replace_first_absent, <- app_assoc; [reflexivity|].
      rewrite not_elem_of_app, not_elem_of_cons, app_nil_r.
      split; [done|]. split; [by vm_compute|by apply digit_text_no_comma]. }
  assert (Htruthy : truthy_str (pre ++ sign_text neg ++ ip ++ sep :: fp ++ post) = true).
  { destruct pre; [|reflexivity]. destruct neg; [reflexivity|].
    destruct ip; [done|reflexivity]. }
  rewrite html_parsePrice_unfold, cart_parsePrice_unfold, Htruthy, Hclean.
  rewrite (parseFloat_decimal neg ip fp [] Hip Hne Hfp I).
  unfold decimal_number. by rewrite decimal_value_not_nan.
Qed.

Lemma parsePrice_decimal_witness :
  HtmlParserService.parsePrice (js "Cena: " ++ js "57,90" ++ text_Kc)
    = Some (decimal_number false (js "57") (js "90"))
  /\ CartService.parsePrice (js "Cena: " ++ js "57,90" ++ text_Kc)
    = decimal_number false (js "57") (js "90").
Proof.
  assert (H1 : other_text (js "Cena: ")) by (repeat constructor).
  assert (H2 : other_text text_Kc) by (repeat constructor).
  assert (H3 : digit_text (js "57")) by (repeat constructor).
  assert (H4 : js "57" <> []) by discriminate.
  assert (H5 : digit_text (js "90")) by (repeat constructor).
  exact (parsePrice_decimal false (js "Cena: ") (js "57") (js "90") text_Kc
           (ch ",") H1 H2 H3 H4 H5 (or_introl eq_refl)).
Defined.

(** X3: after the digits that follow the first separator, a second comma
    or dot ends the number and everything behind it is ignored: with a
    dot for the thousands and a comma for the decimals, [1.234,56] is
    read as 1.234. *)
Theorem parsePrice_second_separator (a b c : jsstring) (sep1 sep2 : N) :
  digit_text a -> a <> [] -> digit_text b ->
  sep1 = ch "," \/ sep1 = ch "." ->
  sep2 = ch "," \/ sep2 = ch "." ->
  HtmlParserService.parsePrice (a ++ sep1 :: b ++ sep2 :: c)
    = Some (decimal_number false a b)
  /\ CartService.parsePrice (a ++ sep1 :: b ++ sep2 :: c)
    = decimal_number false a b.
Proof.
  intros Ha Hne Hb Hsep1 Hsep2.
  assert (Hclean : exists s rest,
             (s = ch "," \/ s = ch ".")
             /\ cleaned (a ++ sep1 :: b ++ sep2 :: c) = a ++ ch "." :: b ++ s :: rest).
  { unfold cleaned.
    rewrite price_chars_app, (digit_text_kept a Ha), price_chars_cons.
    rewrite price_chars_app, (digit_text_kept b Hb), price_chars_cons.
    pose proof (digit_text_no_comma a Ha) as Hna.
    pose proof (digit_text_no_comma b Hb) as Hnb.
    destruct Hsep1 as [-> | ->], Hsep2 as [-> | ->];
      repeat (change (is_price_char (ch ",")) with true);
      repeat (change (is_price_char (ch ".")) with true); cbv iota.
    - rewrite (replace_first_here _ _ _ _ Hna). eexists _, _. by split; [left|].
    - rewrite (replace_first_here _ _ _ _ Hna). eexists _, _. by split; [right|].
    - rewrite (replace_first_skip _ _ a _ Hna). cbn [replace_first].
      change ((ch "." =? ch ",")%N) with false. cbv iota.
      rewrite (replace_first_skip _ _ b _ Hnb). cbn [replace_first].
      rewrite N.eqb_refl. eexists _, _. by split; [right|].
    - rewrite (replace_first_skip _ _ a _ Hna). cbn [replace_first].
      change ((ch "." =? ch ",")%N) with false. cbv iota.
      rewrite (replace_first_skip _ _ b _ Hnb). cbn [replace_first].
      change ((ch "." =? ch ",")%N) with false. cbv iota.
      eexists _, _. by split; [right|]. }
  destruct Hclean as (s & rest & Hs & Hclean).
  assert (Htruthy : truthy_str (a ++ sep1 :: b ++ sep2 :: c) = true)
    by (by destruct a).
  rewrite html_parsePrice_unfold, cart_parsePrice_unfold, Htruthy, Hclean.
  change (a ++ ch "." :: b ++ s :: rest)
    with (sign_text false ++ a ++ ch "." :: b ++ s :: rest).
  rewrite (parseFloat_decimal false a b (s :: rest) Ha Hne Hb)
    by (destruct Hs as [-> | ->]; repeat split; by vm_compute).
  unfold decimal_number. by rewrite decimal_value_not_nan.
Qed.

Lemma parsePrice_second_separator_witness :
  HtmlParserService.parsePrice (js "1.234,56")
    = Some (decimal_number false (js "1") (js "234"))
  /\ CartService.parsePrice (js "1.234,56")
    = decimal_number false (js "1") (js "234").
Proof.
  assert (H1 : digit_text (js "1")) by (repeat constructor).
  assert (H2 : js "1" <> []) by discriminate.
  assert (H3 : digit_text (js "234")) by (repeat constructor).
  exact (parsePrice_second_separator (js "1") (js "234") (js "56") (ch ".") (ch ",")
           H1 H2 H3 (or_intror eq_refl) (or_introl eq_refl)).
Defined.


End PriceMore.

(* ===================================================================== *)
(** * The comma as decimal separator *)
(* ===================================================================== *)

Module CommaFacts.
Import Js Cheerio Scenario Cases PriceFacts NumberFacts PriceMore.
Local Open Scope string_scope.
Local Open Scope list_scope.

(** What is left of a decimal string for [parseFloat]: the string itself,
    with a dot for the separator. *)
Lemma cleaned_decimal_string neg ip fp sep :
  digit_text ip -> digit_text fp ->
  sep = ch "," \/ sep = ch "." ->
  cleaned (sign_text neg ++ ip ++ sep :: fp) = sign_text neg ++ ip ++ ch "." :: fp.
Proof.
  intros Hip Hfp Hsep. unfold cleaned.
  rewrite !price_chars_app, sign_text_kept, (digit_text_kept ip Hip).
  rewrite price_chars_cons, (digit_text_kept fp Hfp).
  assert (Hno : ch "," ∉ sign_text neg ++ ip).
  { rewrite not_elem_of_app. split;
      [apply sign_text_no_comma | by apply digit_text_no_comma]. }
  destruct Hsep as [-> | ->].
  - change (is_price_char (ch ",")) with true. cbv iota.
    rewrite app_assoc, (replace_first_here _ _ _ _ Hno), <- app_assoc.
    reflexivity.
  - change (is_price_char (ch ".")) with true. cbv iota.
    rewrite app_assoc, replace_first_absent, <- app_assoc; [reflexivity|].
    rewrite not_elem_of_app, not_elem_of_cons.
    split; [done|]. split; [by vm_compute|by apply digit_text_no_comma].
Qed.

Lemma parsePrice_decimal_string neg ip fp sep :
  digit_text ip -> ip <> [] -> digit_text fp ->
  sep = ch "," \/ sep = ch "." ->
  HtmlParserService.parsePrice (sign_text neg ++ ip ++ sep :: fp)
    = Some (decimal_number neg ip fp)
  /\ CartService.parsePrice (sign_text neg ++ ip ++ sep :: fp)
    = decimal_number neg ip fp.
Proof.
  intros Hip Hne Hfp Hsep.
  assert (Htruthy : truthy_str (sign_text neg ++ ip ++ sep :: fp) = true).
  { destruct neg; [reflexivity|]. destruct ip; [done|reflexivity]. }
  rewrite html_parsePrice_unfold, cart_parsePrice_unfold, Htruthy,
    (cleaned_decimal_string neg ip fp sep Hip Hfp Hsep).
  replace (sign_text neg ++ ip ++ ch "." :: fp)
    with (sign_text neg ++ ip ++ ch "." :: fp ++ []) by (by rewrite app_nil_r).
  rewrite (parseFloat_decimal neg ip fp [] Hip Hne Hfp I).
  unfold decimal_number. by rewrite decimal_value_not_nan.
Qed.

(** C10: for every decimal string (an optional minus sign, digits, a
    separator, digits), price parsing yields the number that the string
    denotes, and the same number whether the separator is a comma or a
    dot; this holds for the parser of the HTML service and for the one of
    the cart service.  In particular [57,90] and [57.90] both give
    57.9. *)
Theorem parsePrice_comma_decimal (neg : bool) (ip fp : jsstring) :
  digit_text ip -> ip <> [] -> digit_text fp ->
  (HtmlParserService.parsePrice (sign_text neg ++ ip ++ ch "," :: fp)
     = Some (decimal_number neg ip fp)
   /\ HtmlParserService.parsePrice (sign_text neg ++ ip ++ ch "." :: fp)
     = Some (decimal_number neg ip fp))
  /\ (CartService.parsePrice (sign_text neg ++ ip ++ ch "," :: fp)
        = decimal_number neg ip fp
      /\ CartService.parsePrice (sign_text neg ++ ip ++ ch "." :: fp)
        = decimal_number neg ip fp)
  /\ (HtmlParserService.parsePrice (js "57,90") = Some n57_9
      /\ HtmlParserService.parsePrice (js "57.90") = Some n57_9
      /\ CartService.parsePrice (js "57,90") = n57_9
      /\ CartService.parsePrice (js "57.90") = n57_9).
Proof.
  intros Hip Hne Hfp.
  destruct (parsePrice_decimal_string neg ip fp (ch ",") Hip Hne Hfp
              (or_introl eq_refl)) as [Hc1 Hc2].
  destruct (parsePrice_decimal_string neg ip fp (ch ".") Hip Hne Hfp
              (or_intror eq_refl)) as [Hd1 Hd2].
  split; [by split|]. split; [by split|].
  assert (H57 : digit_text (js "57")) by (repeat constructor).
  assert (H90 : digit_text (js "90")) by (repeat constructor).
  assert (Hn : js "57" <> []) by discriminate.
  assert (Hv : decimal_number false (js "57") (js "90") = n57_9)
    by (vm_compute; reflexivity).
  destruct (parsePrice_decimal_string false (js "57") (js "90") (ch ",") H57 Hn H90
              (or_introl eq_refl)) as [Ha Hb].
  destruct (parsePrice_decimal_string false (js "57") (js "90") (ch ".") H57 Hn H90
              (or_intror eq_refl)) as [Hc Hd].
  rewrite Hv in Ha, Hb, Hc, Hd.
  by repeat split.
Qed.

Lemma parsePrice_comma_decimal_witness :
  (HtmlParserService.parsePrice (js "-" ++ js "1234" ++ ch "," :: js "5")
     = Some (decimal_number true (js "1234") (js "5"))
   /\ HtmlParserService.parsePrice (js "-" ++ js "1234" ++ ch "." :: js "5")
     = Some (decimal_number true (js "1234") (js "5")))
  /\ (CartService.parsePrice (js "-" ++ js "1234" ++ ch "," :: js "5")
        = decimal_number true (js "1234") (js "5")
      /\ CartService.parsePrice (js "-" ++ js "1234" ++ ch "." :: js "5")
        = decimal_number true (js "1234") (js "5"))
  /\ (HtmlParserService.parsePrice (js "57,90") = Some n57_9
      /\ HtmlParserService.parsePrice (js "57.90") = Some n57_9
      /\ CartService.parsePrice (js "57,90") = n57_9
      /\ CartService.parsePrice (js "57.90") = n57_9).
Proof.
  assert (H1 : digit_text (js "1234")) by (repeat constructor).
  assert (H2 : js "1234" <> []) by discriminate.
  assert (H3 : digit_text (js "5")) by (repeat constructor).
  exact (parsePrice_comma_decimal true (js "1234") (js "5") H1 H2 H3).
Defined.

End CommaFacts.

(* ===================================================================== *)
(** * Further properties of the extraction *)
(* ===================================================================== *)

Module ExtractionMore.
Import Js Cheerio Exceptions Scenario Cases HtmlParserService PriceFacts PriceMore.
Local Open Scope string_scope.
Local Open Scope list_scope.
Local Open Scope Z_scope.

Lemma truthy_str_nonempty (s : jsstring) : truthy_str s = true <-> s <> [].
Proof. destruct s; simpl; split; intros; congruence. Qed.

(** ** Tags *)

Lemma push_tag_cases tags e :
  push_tag tags e = tags
  \/ (push_tag tags e = tags ++ [trim (el_text e)]
      /\ trim (el_text e) <> [] /\ trim (el_text e) ∉ tags).
Proof.
  unfold push_tag.
  destruct (truthy_str (trim (el_text e))) eqn:Ht; [|by left].
  destruct (bool_decide (trim (el_text e) ∈ tags)) eqn:Hin; simpl; [by left|].
  right. split; [done|]. split; [by apply truthy_str_nonempty|].
  by apply bool_decide_eq_false in Hin.
Qed.

Lemma push_tag_mem tags e t :
  t ∈ push_tag tags e <-> t ∈ tags \/ (t = trim (el_text e) /\ t <> []).
Proof.
  unfold push_tag.
  destruct (truthy_str (trim (el_text e))) eqn:Ht; simpl.
  - apply truthy_str_nonempty in Ht.
    destruct (bool_decide (trim (el_text e) ∈ tags)) eqn:Hin; simpl.
    + apply bool_decide_eq_true in Hin. split; [by left|].
      intros [H|[-> _]]; done.
    + rewrite elem_of_app, list_elem_of_singleton. split.
      * intros [H| ->]; [by left|by right].
      * intros [H|[-> _]]; [by left|by right].
  - split; [by left|]. intros [H|[-> Hne]]; [done|].
    by apply truthy_str_nonempty in Hne; rewrite Hne in Ht.
Qed.

Lemma push_tags_mem es : forall tags t,
  t ∈ fold_left push_tag es tags
  <-> t ∈ tags \/ exists e, e ∈ es /\ t = trim (el_text e) /\ t <> [].
Proof.
  induction es as [|e es IH]; intros tags t; simpl.
  - split; [by left|]. intros [H|(e & He & _)]; [done|]. by apply elem_of_nil in He.
  - rewrite IH, push_tag_mem. split.
    + intros [[H|H]|(e' & He' & H)].
      * by left.
      * right. exists e. split; [left|done].
      * right. exists e'. split; [by right|done].
    + intros [H|(e' & He' & H)]; [by left; left|].
      apply elem_of_cons in He' as [-> |He']; [left; by right|].
      right. by exists e'.
Qed.

Lemma push_tags_NoDup es : forall tags,
  NoDup tags -> NoDup (fold_left push_tag es tags).
Proof.
  induction es as [|e es IH]; intros tags Hnd; simpl; [done|].
  apply IH. destruct (push_tag_cases tags e) as [-> | (-> & _ & Hnot)]; [done|].
  apply NoDup_app. split; [done|]. split; [|apply NoDup_singleton].
  intros x Hx Hx'. apply list_elem_of_singleton in Hx'. by subst.
Qed.

Lemma tags_fold doc sels : forall tags,
  (NoDup tags ->
   NoDup (fold_left (fun tags selector =>
                       fold_left push_tag (select doc (jsq selector)) tags) sels tags))
  /\ forall t,
      t ∈ fold_left (fun tags selector =>
                       fold_left push_tag (select doc (jsq selector)) tags) sels tags
      <-> t ∈ tags \/ exists selector e,
            selector ∈ sels /\ e ∈ select doc (jsq selector)
            /\ t = trim (el_text e) /\ t <> [].
Proof.
  induction sels as [|sel sels IH]; intros tags; simpl.
  - split; [done|]. intros t. split; [by left|].
    intros [H|(s & e & Hs & _)]; [done|]. by apply elem_of_nil in Hs.
  - destruct (IH (fold_left push_tag (select doc (jsq sel)) tags)) as [IH1 IH2].
    split; [intros Hnd; by apply IH1, push_tags_NoDup|].
    intros t. rewrite IH2, push_tags_mem. split.
    + intros [[H|(e & He & H)]|(s & e & Hs & He & H)].
      * by left.
      * right. exists sel, e. split; [left|done].
      * right. exists s, e. split; [by right|done].
    + intros [H|(s & e & Hs & He & H)]; [by left; left|].
      apply elem_of_cons in Hs as [-> |Hs].
      * left. right. by exists e.
      * right. by exists s, e.
Qed.

(** X4: the tags of a product page are exactly the non-empty trimmed
    texts of the elements that one of the five tag selectors matches,
    each of them once. *)
Theorem extractTags_spec (doc : Element) :
  NoDup (extractTags doc)
  /\ forall t,
      t ∈ extractTags doc
      <-> exists selector e,
            selector ∈ tag_selectors /\ e ∈ select doc (jsq selector)
            /\ t = trim (el_text e) /\ t <> [].
Proof.
  destruct (tags_fold doc tag_selectors []) as [H1 H2].
  split; [apply H1, NoDup_nil_2|].
  intros t. unfold extractTags. fold tag_selectors. rewrite H2.
  split; [intros [H|H]; [by apply elem_of_nil in H|done] | by right].
Qed.

(** ** Image address *)

Lemma first_src_cases doc sels u :
  first_src doc sels = Some u
  <-> exists pre sel post src,
        sels = pre ++ sel :: post
        /\ first_src_of doc sel = Some src /\ src <> []
        /\ Forall (fun s => first_src_of doc s = None \/ first_src_of doc s = Some [])
                  pre
        /\ u = absolute_address src.
Proof.
  induction sels as [|s sels IH]; cbn [first_src].
  - split; [discriminate|]. intros (pre & sel & post & src & H & _). by destruct pre.
  - fold (first_src_of doc s).
    assert (Hskip :
      (first_src_of doc s = None \/ first_src_of doc s = Some []) ->
      first_src doc sels = Some u
      <-> exists pre sel post src,
            s :: sels = pre ++ sel :: post
            /\ first_src_of doc sel = Some src /\ src <> []
            /\ Forall (fun s => first_src_of doc s = None
                                \/ first_src_of doc s = Some []) pre
            /\ u = absolute_address src).
    { intros Hs. rewrite IH. split.
      - intros (pre & sel & post & src & -> & Hsrc & Hne & Hpre & Hu).
        exists (s :: pre), sel, post, src. repeat split; try done. by constructor.
      - intros (pre & sel & post & src & Heq & Hsrc & Hne & Hpre & Hu).
        destruct pre as [|s' pre]; simplify_eq/=.
        + destruct Hs as [Hs|Hs]; congruence.
        + apply Forall_cons in Hpre as [_ Hpre]. by exists pre, sel, post, src. }
    destruct (first_src_of doc s) as [src0|] eqn:Hs0; [|apply Hskip; by left].
    destruct (truthy_str src0) eqn:Ht.
    + apply truthy_str_nonempty in Ht. split.
      * intros [= <-]. exists [], s, sels, src0. by repeat split.
      * intros (pre & sel & post & src & Heq & Hsrc & Hne & Hpre & ->).
        destruct pre as [|s' pre]; simplify_eq/=; [done|].
        apply Forall_cons in Hpre as [[Hs'|Hs'] _]; congruence.
    + destruct src0; [|discriminate]. apply Hskip. by right.
Qed.

Lemma absolute_address_http src : startsWith (js "http") (absolute_address src) = true.
Proof.
  unfold absolute_address.
  destruct (startsWith (js "http") src) eqn:Hs; [exact Hs|reflexivity].
Qed.

(** X5: the image address of a product page is read from the first of
    the four image selectors whose first element has a non-empty [src];
    a [src] that starts with [http] is returned as it is, any other is
    prefixed with [https://www.rohlik.cz], so that the result always
    starts with [http]; without such an element there is no image
    address. *)
Theorem extractImageUrl_absolute (doc : Element) (u : jsstring) :
  (extractImageUrl doc = Some u
   <-> exists pre sel post src,
         image_selectors = pre ++ sel :: post
         /\ first_src_of doc sel = Some src /\ src <> []
         /\ Forall (fun s => first_src_of doc s = None \/ first_src_of doc s = Some [])
                   pre
         /\ u = (if startsWith (js "http") src then src
                 else js "https://www.rohlik.cz" ++ src))
  /\ (extractImageUrl doc = Some u -> startsWith (js "http") u = true).
Proof.
  split; [apply first_src_cases|].
  intros H. apply first_src_cases in H as (pre & sel & post & src & _ & _ & _ & _ & ->).
  apply absolute_address_http.
Qed.

(** ** What every parsed product satisfies *)

Lemma parsePrice_number s x :
  parsePrice s = Some x -> isNaN x = false.
Proof.
  rewrite html_parsePrice_unfold.
  destruct (negb (truthy_str s)); [discriminate|].
  destruct (isNaN (parseFloat (cleaned s))) eqn:Hn; [discriminate|].
  by intros [= <-].
Qed.

Lemma or_str_nonempty x d : d <> [] -> or_str x d <> [].
Proof.
  intros Hd. unfold or_str. destruct x as [s|]; [|done].
  destruct (truthy_str s) eqn:Hs; [by apply truthy_str_nonempty|done].
Qed.

Lemma or_num_number x d :
  isNaN d = false -> isNaN (or_num x d) = false.
Proof.
  intros Hd. unfold or_num. destruct x as [n|]; [|done].
  destruct n; simpl; done.
Qed.

(** X6: the product that [parseProductPage] builds carries, for every
    document, the requested identifier, a non-empty name, unit and unit
    type, a price and a unit price that are numbers (never [NaN]), tags
    without duplicates, and a discount only together with an original
    price.  [parseProductPage] does not return it: with the binding
    [serviceLogger] undefined it throws a [TypeError] on every
    document. *)
Theorem productData_invariants (doc : Element) (productId : jsstring) :
  let p := productData doc productId in
  id p = productId
  /\ name p <> [] /\ unit p <> [] /\ unitType p <> []
  /\ isNaN (price p) = false /\ isNaN (unitPrice p) = false
  /\ NoDup (tags p)
  /\ (originalPrice p = None -> discount p = None)
  /\ parseProductPage doc productId = Throw TypeError.
Proof.
  intros p. unfold p, productData. cbn [id name unit unitType price unitPrice tags
                                       originalPrice discount].
  split; [reflexivity|].
  split; [by apply or_str_nonempty|].
  split; [by apply or_str_nonempty|].
  split; [by apply or_str_nonempty|].
  split; [by apply or_num_number|].
  split; [by apply or_num_number, or_num_number|].
  split; [apply (tags_fold doc tag_selectors []), NoDup_nil_2|].
  split; [by intros ->|reflexivity].
Qed.

(** ** Listings *)

Lemma span_digits_spec s :
  digit_text (span_digits s).1
  /\ s = (span_digits s).1 ++ (span_digits s).2
  /\ match (span_digits s).2 with [] => True | x :: _ => is_digit x = false end.
Proof.
  induction s as [|c s IH]; simpl.
  - repeat split. constructor.
  - destruct (is_digit c) eqn:Hc.
    + destruct (span_digits s) as [ds r]. simpl in *.
      destruct IH as (H1 & H2 & H3). repeat split.
      * by constructor.
      * by rewrite H2 at 1.
      * exact H3.
    + simpl. repeat split; [constructor|exact Hc].
Qed.

Lemma span_digits_app ds x post :
  digit_text ds -> is_digit x = false ->
  span_digits (ds ++ x :: post) = (ds, x :: post).
Proof.
  intros Hd Hx. induction Hd as [|d ds Hd _ IH]; simpl.
  - by rewrite Hx.
  - by rewrite Hd, IH.
Qed.

Lemma match_product_href_nonempty href ds :
  match_product_href href = Some ds -> ds <> [].
Proof.
  induction href as [|c rest IH]; cbn [match_product_href]; [discriminate|].
  destruct (c =? ch "/")%N; [|exact IH].
  destruct (span_digits rest) as [[|d ds'] [|x r]]; try exact IH.
  destruct (x =? ch "-")%N; [|exact IH].
  by intros [= <-].
Qed.

Lemma first_attr_nonempty product attrs i :
  first_attr product attrs = Some i -> i <> [].
Proof.
  induction attrs as [|a attrs IH]; cbn [first_attr]; [discriminate|].
  destruct (attr [product] (js a)) as [v|]; [|exact IH].
  destruct (truthy_str v) eqn:Hv; [|exact IH].
  intros [= <-]. by apply truthy_str_nonempty.
Qed.

Lemma extractProductId_nonempty card i :
  extractProductId card = Some i -> i <> [].
Proof.
  unfold extractProductId.
  destruct (first_attr card _) as [j|] eqn:Hj.
  - intros [= <-]. by eapply first_attr_nonempty.
  - destruct (attr _ _) as [href|]; [|discriminate].
    destruct (truthy_str href); [|discriminate].
    destruct (match_product_href href) as [ds|] eqn:H; [|discriminate].
    intros [= <-]. by eapply match_product_href_nonempty.
Qed.

Lemma parseProductList_fold es : forall acc,
  fold_left
    (fun products element =>
       match extractProductId element with
       | Some productId =>
           if truthy_str productId then
             match parseProductCard element productId with
             | Some productData => products ++ [productData]
             | None => products
             end
           else products
       | None => products
       end) es acc
  = acc ++ omap card_product es.
Proof.
  induction es as [|e es IH]; intros acc; simpl.
  - by rewrite app_nil_r.
  - rewrite IH. unfold card_product at 2.
    destruct (extractProductId e) as [i|] eqn:Hi; [|done].
    apply extractProductId_nonempty, truthy_str_nonempty in Hi. rewrite Hi.
    destruct (parseProductCard e i); [|done].
    simpl. by rewrite <- app_assoc.
Qed.

Lemma card_product_shape card p :
  card_product card = Some p ->
  extractProductId card = Some (id p)
  /\ id p <> [] /\ name p <> [] /\ isNaN (price p) = false
  /\ unitPrice p = price p /\ unit p = js "ks" /\ unitType p = js "ks"
  /\ tags p = [] /\ inStock p = true.
Proof.
  unfold card_product.
  destruct (extractProductId card) as [i|] eqn:Hi; [|discriminate].
  unfold parseProductCard.
  destruct (parsePrice _) as [x|] eqn:Hx; [|discriminate].
  destruct (truthy_str _) eqn:Hn; [|discriminate].
  intros [= <-]. simpl.
  split; [done|]. split; [by eapply extractProductId_nonempty|].
  split; [by apply truthy_str_nonempty|].
  split; [by eapply parsePrice_number|]. done.
Qed.

(** X7: the array that [parseProductList] fills holds, in the order of
    the page, the products of the cards that have an identifier and
    parse; the other cards are skipped without effect on the rest.  Every
    product of the array has a non-empty identifier and name, a price
    that is a number and is also its unit price, the unit [ks], no tag,
    and is in stock.  [parseProductList] does not return the array: with
    the binding [serviceLogger] undefined it throws a [TypeError] on
    every document. *)
Theorem parseProductList_products (doc : Element) :
  products doc = omap card_product (cards doc)
  /\ Forall (fun p =>
       id p <> [] /\ name p <> [] /\ isNaN (price p) = false
       /\ unitPrice p = price p /\ unit p = js "ks" /\ unitType p = js "ks"
       /\ tags p = [] /\ inStock p = true)
     (products doc)
  /\ parseProductList doc = Throw TypeError.
Proof.
  assert (H : products doc = omap card_product (cards doc))
    by apply (parseProductList_fold _ []).
  split; [exact H|]. split; [|reflexivity]. rewrite H.
  apply Forall_forall. intros p Hp.
  apply list_elem_of_omap in Hp as (card & _ & Hp).
  by apply card_product_shape in Hp as (_ & Hp).
Qed.

(** X8: the identifier that [extractProductId] reads from the address of
    a link: when the pattern matches, the result is a non-empty text of
    digits that stands in the address between a slash and a dash; when
    it does not, the address contains no slash, digits, dash sequence. *)
Theorem match_product_href_spec (href : jsstring) :
  match match_product_href href with
  | Some ds =>
      ds <> [] /\ digit_text ds
      /\ exists pre post, href = pre ++ ch "/" :: ds ++ ch "-" :: post
  | None =>
      forall pre ds post,
        ds <> [] -> digit_text ds -> href <> pre ++ ch "/" :: ds ++ ch "-" :: post
  end.
Proof.
  induction href as [|c rest IH].
  - simpl. intros pre ds post _ _ H. by destruct pre.
  - assert (Hrec :
      match match_product_href rest with
      | Some ds =>
          ds <> [] /\ digit_text ds
          /\ exists pre post, c :: rest = pre ++ ch "/" :: ds ++ ch "-" :: post
      | None => True
      end).
    { destruct (match_product_href rest) as [ds|]; [|done].
      destruct IH as (H1 & H2 & pre & post & ->).
      split; [done|]. split; [done|]. by exists (c :: pre), post. }
    assert (Hnone : match_product_href rest = None ->
      (forall ds post, ds <> [] -> digit_text ds ->
         c :: rest <> ch "/" :: ds ++ ch "-" :: post) ->
      forall pre ds post,
        ds <> [] -> digit_text ds -> c :: rest <> pre ++ ch "/" :: ds ++ ch "-" :: post).
    { intros Hn Hhere pre ds post Hds Hdig Heq.
      destruct pre as [|p pre]; [by eapply Hhere|].
      rewrite Hn in IH. simplify_eq/=. by eapply IH. }
    cbn [match_product_href].
    destruct (N.eqb_spec c (ch "/")) as [->|Hc].
    + pose proof (span_digits_spec rest) as (Hd & Hsplit & Hstop).
      destruct (span_digits rest) as [[|d ds] [|x r]] eqn:Hspan; simpl in *.
      * destruct (match_product_href rest) eqn:Hm; [exact Hrec|].
        apply Hnone; [done|]. intros ds post Hds Hdig [= Heq].
        destruct ds; [done|]. by subst rest.
      * destruct (match_product_href rest) eqn:Hm; [exact Hrec|].
        apply Hnone; [done|]. intros ds post Hds Hdig [= Heq].
        destruct ds as [|d ds]; [done|]. subst rest. simplify_eq/=.
        apply Forall_cons in Hdig as [Hdig _]. congruence.
      * destruct (match_product_href rest) eqn:Hm; [exact Hrec|].
        apply Hnone; [done|]. intros ds' post Hds Hdig [= Heq].
        rewrite app_nil_r in Hsplit. subst rest.
        apply (f_equal span_digits) in Heq.
        rewrite span_digits_app in Heq by done.
        rewrite Hspan in Heq. done.
      * destruct (N.eqb_spec x (ch "-")) as [->|Hx].
        -- split; [done|]. split; [done|]. exists [], r. simpl. by rewrite Hsplit.
        -- destruct (match_product_href rest) eqn:Hm; [exact Hrec|].
           apply Hnone; [done|]. intros ds' post Hds Hdig [= Heq].
           apply (f_equal span_digits) in Heq.
           rewrite span_digits_app in Heq by done.
           rewrite Hspan in Heq. congruence.
    + destruct (match_product_href rest) eqn:Hm; [exact Hrec|].
      apply Hnone; [done|]. intros ds post _ _ [= Heq]. done.
Qed.

End ExtractionMore.

(* ===================================================================== *)
(** * More on sessions *)
(* ===================================================================== *)

Module SessionMore.
Import Js Scenario Cases SessionManager NumberFacts.
Local Open Scope list_scope.
Local Open Scope Z_scope.

(** ** Renewal and validity after activity *)

Lemma needsRenewal_after_activity sm minutes t1 now :
  0 < minutes ->
  timeout_of_minutes minutes < 2 ^ 53 ->
  sessionTimeout sm = timeout_of_minutes minutes ->
  isAuthenticated (sessionData sm) = true ->
  Z.abs (t1 + timeout_of_minutes minutes - now) < 2 ^ 53 ->
  needsRenewal now (updateActivity t1 sm) = (t1 + 48000 * minutes <? now).
Proof.
  intros Hmin Hmax Hcfg Hauth Hrem. unfold needsRenewal. simpl.
  rewrite Hauth. cbn [negb]. fold n0_2. rewrite Hcfg.
  unfold timeout_of_minutes in *.
  destruct (12000 * minutes) as [|q|q] eqn:Hq; [lia| |lia].
  replace (minutes * 60 * 1000) with (Zpos (5 * q)) in * by lia.
  rewrite fifth_exact by done.
  rewrite of_Z_ltb by lia.
  destruct (Z.ltb_spec (t1 + Z.pos (5 * q) - now) (Z.pos q)),
           (Z.ltb_spec (t1 + 48000 * minutes) now); lia || done.
Qed.

(** X9: after activity at [t1] on an authenticated session configured
    with a positive number of minutes, renewal is due strictly after
    48 seconds per configured minute (80% of the timeout) and the
    session is valid strictly before 60 seconds per minute; at the time
    of the activity itself no renewal is due. *)
Theorem renewal_window (sm : t) (minutes t1 now now0 now1 : Z) :
  0 < minutes ->
  timeout_of_minutes minutes < 2 ^ 53 ->
  sessionTimeout sm = timeout_of_minutes minutes ->
  isAuthenticated (sessionData sm) = true ->
  Z.abs (t1 + timeout_of_minutes minutes - now) < 2 ^ 53 ->
  needsRenewal now (updateActivity t1 sm) = (t1 + 48000 * minutes <? now)
  /\ fst (isSessionValid now now0 now1 (updateActivity t1 sm))
     = (now <? t1 + 60000 * minutes)
  /\ needsRenewal t1 (updateActivity t1 sm) = false.
Proof.
  intros Hmin Hmax Hcfg Hauth Hrem.
  split; [by apply needsRenewal_after_activity|].
  split.
  - unfold isSessionValid. simpl. rewrite Hauth, Hcfg. unfold timeout_of_minutes.
    replace (minutes * 60 * 1000) with (60000 * minutes) by lia.
    by destruct (now <? t1 + 60000 * minutes).
  - rewrite (needsRenewal_after_activity sm minutes t1 t1);
      [apply Z.ltb_ge; lia|done..|unfold timeout_of_minutes in *; lia].
Qed.

Lemma renewal_window_witness :
  needsRenewal 1440001 (updateActivity 0 session_30min) = (0 + 48000 * 30 <? 1440001)
  /\ fst (isSessionValid 1440001 0 0 (updateActivity 0 session_30min))
     = (1440001 <? 0 + 60000 * 30)
  /\ needsRenewal 0 (updateActivity 0 session_30min) = false.
Proof.
  assert (H1 : 0 < 30) by lia.
  assert (H2 : timeout_of_minutes 30 < 2 ^ 53) by (vm_compute; reflexivity).
  assert (H3 : sessionTimeout session_30min = timeout_of_minutes 30) by reflexivity.
  assert (H4 : isAuthenticated (sessionData session_30min) = true) by reflexivity.
  assert (H5 : Z.abs (0 + timeout_of_minutes 30 - 1440001) < 2 ^ 53)
    by (vm_compute; reflexivity).
  exact (renewal_window session_30min 30 0 1440001 0 0 H1 H2 H3 H4 H5).
Defined.

(** X10: expiry is enforced by the validity check only.  On an
    authenticated session that has expired, the check fails and clears
    the session; but activity recorded before any check ([updateActivity],
    which every request performs) extends the expired session, which the
    check then accepts for a whole timeout more. *)
Theorem activity_revives_expired (sm : t) (t1 t2 now0 now1 : Z) :
  isAuthenticated (sessionData sm) = true ->
  expiresAt (sessionData sm) <= t1 ->
  t1 <= t2 < t1 + sessionTimeout sm ->
  isSessionValid t1 now0 now1 sm = (false, clearSession now0 now1 sm)
  /\ isSessionValid t2 now0 now1 (updateActivity t1 sm) = (true, updateActivity t1 sm).
Proof.
  intros Hauth Hexp Ht2. unfold isSessionValid. simpl. rewrite Hauth.
  destruct (Z.ltb_spec t1 (expiresAt (sessionData sm))); [lia|].
  destruct (Z.ltb_spec t2 (t1 + sessionTimeout sm)); [|lia].
  done.
Qed.

Lemma activity_revives_expired_witness :
  isSessionValid 2000000 0 0 session_30min
    = (false, clearSession 0 0 session_30min)
  /\ isSessionValid 2000001 0 0 (updateActivity 2000000 session_30min)
    = (true, updateActivity 2000000 session_30min).
Proof.
  assert (H1 : isAuthenticated (sessionData session_30min) = true) by reflexivity.
  assert (H2 : expiresAt (sessionData session_30min) <= 2000000)
    by (vm_compute; discriminate).
  assert (H3 : 2000000 <= 2000001 < 2000000 + sessionTimeout session_30min)
    by (vm_compute; split; discriminate || reflexivity).
  exact (activity_revives_expired session_30min 2000000 2000001 0 0 H1 H2 H3).
Defined.

(** ** Redaction *)

Lemma span_line_line s : line_text s -> span_line s = (s, []).
Proof.
  induction 1 as [|c s Hc _ IH]; simpl; [done|].
  by rewrite Hc, IH.
Qed.

Lemma span_line_prefix s : s = (span_line s).1 ++ (span_line s).2.
Proof.
  induction s as [|c s IH]; simpl; [done|].
  destruct (is_line_terminator c); [done|].
  destruct (span_line s) as [l r]. simpl in *. by rewrite IH at 1.
Qed.

Lemma from_last_at_none l : ch "@" ∉ l -> from_last_at l = None.
Proof.
  induction l as [|c l IH]; simpl; [done|].
  intros H. apply not_elem_of_cons in H as [Hc Hl].
  rewrite IH by done. destruct (N.eqb_spec c (ch "@")); congruence.
Qed.

Lemma from_last_at_last l domain :
  ch "@" ∉ domain -> from_last_at (l ++ ch "@" :: domain) = Some (ch "@" :: domain).
Proof.
  intros Hd. induction l as [|c l IH]; simpl.
  - by rewrite from_last_at_none.
  - by rewrite IH.
Qed.

Lemma mask_line_none l : ch "@" ∉ drop 2 l -> mask_line l = None.
Proof.
  destruct l as [|a [|b l]]; simpl; try done.
  intros H. by rewrite from_last_at_none.
Qed.

Lemma line_drop2 s :
  ch "@" ∉ drop 2 s -> ch "@" ∉ drop 2 (span_line s).1.
Proof.
  intros H Hin. apply H.
  rewrite (span_line_prefix s) at 1.
  destruct (span_line s).1 as [|a [|b l]]; simpl in *;
    try by apply elem_of_nil in Hin.
  apply elem_of_app. by left.
Qed.

Lemma mask_email_from_cons b c s :
  ch "@" ∉ drop 2 (c :: s) ->
  mask_email_from b (c :: s) = c :: mask_email_from (is_line_terminator c) s.
Proof.
  intros H. cbn [mask_email_from].
  rewrite mask_line_none by (by apply line_drop2). by destruct b.
Qed.

Lemma drop2_tail c (s : jsstring) : ch "@" ∉ s -> ch "@" ∉ drop 2 (c :: s).
Proof.
  intros H Hin. apply H.
  destruct s; simpl in Hin; [by apply elem_of_nil in Hin|].
  by apply list_elem_of_further.
Qed.

Lemma mask_email_from_plain s : forall b,
  ch "@" ∉ s -> mask_email_from b s = s.
Proof.
  induction s as [|c s IH]; intros b H; [done|].
  assert (Hs : ch "@" ∉ s) by (by apply not_elem_of_cons in H as [_ ?]).
  rewrite mask_email_from_cons by (by apply drop2_tail).
  by rewrite IH.
Qed.

Lemma mask_email_from_short local domain b :
  (length local <= 1)%nat -> ch "@" ∉ domain ->
  mask_email_from b (local ++ ch "@" :: domain) = local ++ ch "@" :: domain.
Proof.
  intros Hlen Hd.
  destruct local as [|c [|c' l]]; simpl in Hlen; [| |lia]; cbn [app].
  - rewrite mask_email_from_cons by (by apply drop2_tail).
    by rewrite mask_email_from_plain.
  - rewrite mask_email_from_cons by done.
    rewrite mask_email_from_cons by (by apply drop2_tail).
    by rewrite mask_email_from_plain.
Qed.

Lemma mask_email_long a b local domain :
  line_text (a :: b :: local ++ domain) -> ch "@" ∉ domain ->
  mask_email (a :: b :: local ++ ch "@" :: domain)
  = [a; b] ++ js "***" ++ ch "@" :: domain.
Proof.
  intros Hline Hd. unfold mask_email. cbn [mask_email_from].
  rewrite span_line_line.
  - cbn [fst snd mask_line]. rewrite from_last_at_last by done.
    by rewrite app_nil_r.
  - apply Forall_cons in Hline as [Ha Hline].
    apply Forall_cons in Hline as [Hb Hline].
    apply Forall_app in Hline as [Hl Hdom].
    repeat constructor; try done.
    apply Forall_app. split; [done|]. by constructor.
Qed.

(** X11: what [getSessionInfo] shows of a session just authenticated
    with a non-empty identifier and a one-line address whose local part
    has at least two characters: the first eight units of the identifier
    followed by three dots, and of the address the first two characters,
    three stars and the part from the last [@] on. *)
Theorem getSessionInfo_redacts (sm : t) (now : Z) (sid : jsstring)
    (uid : option jsstring) (a b : N) (local domain : jsstring) :
  sid <> [] ->
  line_text (a :: b :: local ++ domain) -> ch "@" ∉ domain ->
  let info :=
    getSessionInfo
      (setAuthenticated now sid uid
         (Some (a :: b :: local ++ ch "@" :: domain)) sm) in
  info_sessionId info = Some (take 8 sid ++ js "...")
  /\ info_email info = Some ([a; b] ++ js "***" ++ ch "@" :: domain)
  /\ info_userId info = uid
  /\ info_isAuthenticated info = true.
Proof.
  intros Hsid Hline Hd.
  cbn [getSessionInfo setAuthenticated sessionData sessionId email userId
       isAuthenticated info_sessionId info_email info_userId
       info_isAuthenticated].
  apply ExtractionMore.truthy_str_nonempty in Hsid. rewrite Hsid.
  split; [done|].
  split; [|done].
  by rewrite mask_email_long.
Qed.

Lemma getSessionInfo_redacts_witness :
  let info := getSessionInfo session_with_email in
  info_sessionId info = Some (js "01234567...")
  /\ info_email info = Some (js "ja***@example.cz")
  /\ info_userId info = Some (js "42")
  /\ info_isAuthenticated info = true.
Proof.
  assert (H1 : js "0123456789abcdef" <> []) by discriminate.
  assert (H2 : line_text (ch "j" :: ch "a" :: js "n.novak" ++ js "example.cz"))
    by (repeat constructor).
  assert (H3 : ch "@" ∉ js "example.cz")
    by (intros H; vm_compute in H; repeat (inversion_clear H as [|? ? ? H']; rename H' into H); inversion H).
  exact (getSessionInfo_redacts (create 30 0 0) 0 (js "0123456789abcdef")
           (Some (js "42")) (ch "j") (ch "a") (js "n.novak") (js "example.cz")
           H1 H2 H3).
Defined.

(** X12: an address whose local part has fewer than two characters is
    not masked at all by the pattern of [getSessionInfo]: it is shown in
    full. *)
Theorem mask_email_short_local (local domain : jsstring) :
  (length local <= 1)%nat -> ch "@" ∉ domain ->
  mask_email (local ++ ch "@" :: domain) = local ++ ch "@" :: domain.
Proof. apply mask_email_from_short. Qed.

Lemma mask_email_short_local_witness :
  mask_email (js "j" ++ ch "@" :: js "example.cz") = js "j" ++ ch "@" :: js "example.cz".
Proof.
  assert (H1 : (length (js "j") <= 1)%nat) by (vm_compute; lia).
  assert (H3 : ch "@" ∉ js "example.cz")
    by (intros H; vm_compute in H; repeat (inversion_clear H as [|? ? ? H']; rename H' into H); inversion H).
  exact (mask_email_short_local (js "j") (js "example.cz") H1 H3).
Defined.

End SessionMore.

(* ===================================================================== *)
(** * More on the transport *)
(* ===================================================================== *)

Module TransportMore.
Import Js Cheerio Net World Scenario Cases RohlikClient TransportFacts.
Local Open Scope list_scope.
Local Open Scope Z_scope.

Lemma response_interceptor_other cid req r env w :
  let w' := snd (response_interceptor cid req r env w) in
  get_client (other_client cid) w' = get_client (other_client cid) w
  /\ productCache w' = productCache w /\ cartCache w' = cartCache w.
Proof.
  unfold response_interceptor.
  destruct (set_cookie r); [done|].
  destruct (truthy_str (url req)); [|done].
  unfold bind, asks, throw.
  destruct (env_url env (url req)); [|done].
  by destruct cid.
Qed.

Lemma request_frame cid req env w :
  get_client (other_client cid) (snd (request cid req env w))
    = get_client (other_client cid) w
  /\ productCache (snd (request cid req env w)) = productCache w
  /\ cartCache (snd (request cid req env w)) = cartCache w.
Proof.
  rewrite request_run, request_interceptor_run. cbv zeta.
  destruct (fst (RateLimiterMemory.consume _ _ _)); [|by destruct cid].
  destruct (resolves env req); [|by destruct cid].
  match goal with
  | |- context [exchange req env ?w2] => set (wx := snd (exchange req env w2))
  end.
  assert (Hx : get_client (other_client cid) wx = get_client (other_client cid) w
               /\ productCache wx = productCache w /\ cartCache wx = cartCache w)
    by (by destruct cid).
  destruct (env_site env _ req) as [r|]; [|exact Hx].
  destruct ((200 <=? status r) && (status r <? 300)); [|exact Hx].
  destruct (response_interceptor_other cid req r env wx) as (H1 & H2 & H3).
  destruct Hx as (Hx1 & Hx2 & Hx3).
  rewrite H1, H2, H3. done.
Qed.

(** X13: a request through the client of one service, whatever its
    outcome, leaves the client of the other service (its rate limiter
    and its session) and both caches as they were. *)
Theorem request_isolation (cid other : ClientId) (req : Request) (env : Env)
    (w : World) :
  other <> cid ->
  get_client other (snd (request cid req env w)) = get_client other w
  /\ productCache (snd (request cid req env w)) = productCache w
  /\ cartCache (snd (request cid req env w)) = cartCache w.
Proof.
  intros Hother.
  assert (Ho : other = other_client cid) by (by destruct cid, other).
  rewrite Ho. apply request_frame.
Qed.

Lemma request_isolation_witness :
  get_client ProductClient (snd (request CartClient (get_page 1) env_frozen initial_world))
    = get_client ProductClient initial_world
  /\ productCache (snd (request CartClient (get_page 1) env_frozen initial_world))
     = productCache initial_world
  /\ cartCache (snd (request CartClient (get_page 1) env_frozen initial_world))
     = cartCache initial_world.
Proof.
  assert (H : ProductClient <> CartClient) by discriminate.
  exact (request_isolation CartClient ProductClient (get_page 1) env_frozen
           initial_world H).
Defined.

Lemma stored_all accepts cookies :
  Forall (fun c => accepts c = true) cookies ->
  SessionManager.stored accepts cookies = cookies.
Proof.
  induction 1 as [|c cookies Hc _ IH]; [done|].
  cbn [SessionManager.stored]. by rewrite Hc, IH.
Qed.

Lemma stored_until accepts before c after :
  Forall (fun c => accepts c = true) before -> accepts c = false ->
  SessionManager.stored accepts (before ++ c :: after) = before.
Proof.
  intros Hb Hc. induction Hb as [|b before Hb _ IH].
  - cbn [app SessionManager.stored]. by rewrite Hc.
  - cbn [app SessionManager.stored]. by rewrite Hb, IH.
Qed.

(** X14: the session of a client after one request.  A request that
    the rate limiter rejects leaves the session untouched, and so does
    an accepted request whose URL does not resolve, although its point
    is consumed.  An accepted request whose URL resolves refreshes the
    activity of the session whatever the answer (also on an error status
    and on a network failure); the [Set-Cookie] headers of the answer are
    handed to the jar only when the status is 2xx and the URL of the
    request is not empty, and the jar then holds them up to the first one
    it rejects: the headers after a rejected one are lost. *)
Theorem request_session (cid : ClientId) (req : Request) (env : Env) (w : World) :
  let sm := sessionManager (get_client cid w) in
  let accepted :=
    fst (RateLimiterMemory.consume limiter_key (env_time env (step w))
           (rateLimiter (get_client cid w))) in
  let active := SessionManager.updateActivity (env_time env (S (step w))) sm in
  sessionManager (get_client cid (snd (request cid req env w)))
  = (if accepted && resolves env req then
       match env_site env (S (S (step w))) req with
       | Answer r =>
           if (200 <=? status r) && (status r <? 300) && truthy_str (url req)
           then SessionManager.setCookiesFromResponse (env_jar env)
                  (url req) (set_cookie r) active
           else active
       | NetworkError => active
       end
     else sm)
  /\ (forall url cookies,
        Forall (fun c => env_jar env url c = true) cookies ->
        SessionManager.cookieJar
          (SessionManager.setCookiesFromResponse (env_jar env) url cookies active)
        = SessionManager.cookieJar sm ++ ((fun c => (c, url)) <$> cookies))
  /\ (forall url before c after,
        Forall (fun c => env_jar env url c = true) before ->
        env_jar env url c = false ->
        SessionManager.cookieJar
          (SessionManager.setCookiesFromResponse (env_jar env) url
             (before ++ c :: after) active)
        = SessionManager.cookieJar sm ++ ((fun c => (c, url)) <$> before)).
Proof.
  cbv zeta. split; [|split].
  - rewrite request_run, request_interceptor_run. cbv zeta.
    rewrite get_client_log_attempt.
    destruct (fst (RateLimiterMemory.consume _ _ _)); cbn [andb];
      [|by destruct cid].
    destruct (resolves env req) eqn:Hres; [|by destruct cid].
    rewrite step_set_client. cbn [tick step log_attempt].
    destruct (env_site env _ req) as [r|]; [|by destruct cid].
    destruct ((200 <=? status r) && (status r <? 300)); cbn [andb];
      [|by destruct cid].
    unfold response_interceptor.
    destruct (set_cookie r) as [|c cs] eqn:Hc.
    + unfold ret. cbn [snd]. destruct cid; cbn.
      all: destruct (truthy_str (url req)); [|done].
      all: unfold SessionManager.setCookiesFromResponse; cbn;
        by rewrite app_nil_r.
    + unfold resolves in Hres.
      destruct (truthy_str (url req)); [|by destruct cid].
      cbn [negb orb] in Hres. unfold bind, asks. rewrite Hres. cbn [negb].
      by destruct cid.
  - intros url cookies Hall.
    unfold SessionManager.setCookiesFromResponse. cbn.
    by rewrite stored_all.
  - intros url before c after Hb Hc.
    unfold SessionManager.setCookiesFromResponse. cbn.
    by rewrite stored_until.
Qed.

Lemma redact_lookup name h k :
  redact name h !! k =
  match h !! k with
  | Some v =>
      if truthy_str v && bool_decide (k = name) then Some (js "[REDACTED]")
      else Some v
  | None => None
  end.
Proof.
  unfold redact.
  destruct (decide (k = name)) as [->|Hk].
  - rewrite bool_decide_eq_true_2 by done.
    destruct (h !! name) as [v|] eqn:Hv; rewrite ?Hv; [|done].
    destruct (truthy_str v); cbn [andb]; [by rewrite lookup_insert_eq|by rewrite Hv].
  - rewrite bool_decide_eq_false_2 by done.
    destruct (h !! name) as [v|] eqn:Hv.
    + destruct (truthy_str v).
      * rewrite lookup_insert_ne by done.
        destruct (h !! k) as [u|]; [|done]. by rewrite andb_false_r.
      * destruct (h !! k) as [u|]; [|done]. by rewrite andb_false_r.
    + destruct (h !! k) as [u|]; [|done]. by rewrite andb_false_r.
Qed.

(** X15: the headers that are logged.  Every header keeps its name;
    the value reads [[REDACTED]] exactly for the names [Cookie] and
    [Authorization], spelled that way, with a non-empty value; every
    other header, for instance [set-cookie] or [cookie], is logged as it
    is. *)
Theorem sanitizeHeaders_lookup (h : gmap jsstring jsstring) (k : jsstring) :
  sanitizeHeaders (Some h) !! k =
  match h !! k with
  | Some v =>
      if truthy_str v
         && bool_decide (k = js "Cookie" \/ k = js "Authorization")
      then Some (js "[REDACTED]")
      else Some v
  | None => None
  end.
Proof.
  unfold sanitizeHeaders. rewrite !redact_lookup.
  destruct (h !! k) as [v|]; [|done].
  destruct (decide (k = js "Cookie")) as [->|Hc].
  - rewrite (bool_decide_eq_true_2 (js "Cookie" = js "Cookie")) by done.
    rewrite (bool_decide_eq_true_2 (_ \/ _)) by (by left).
    destruct (truthy_str v) eqn:Hv; cbn [andb].
    + by destruct (_ && _).
    + by rewrite Hv.
  - rewrite (bool_decide_eq_false_2 (k = js "Cookie")) by done.
    rewrite andb_false_r.
    destruct (decide (k = js "Authorization")) as [->|Ha].
    + rewrite (bool_decide_eq_true_2 (js "Authorization" = _)) by done.
      by rewrite (bool_decide_eq_true_2 (_ \/ _)) by (by right).
    + rewrite (bool_decide_eq_false_2 (k = js "Authorization")) by done.
      by rewrite (bool_decide_eq_false_2 (_ \/ _)) by (by intros [|]).
Qed.

End TransportMore.

(* ===================================================================== *)
(** * More on the product cache *)
(* ===================================================================== *)

Module ProductMore.
Import Js Cheerio Net World Scenario Cases RohlikClient ProductService.
Import TransportFacts TransportMore.
Local Open Scope list_scope.
Local Open Scope Z_scope.

Lemma getCachedProduct_run pid env w :
  getCachedProduct pid env w =
  match productCache w !! pid with
  | Some (p, t0) =>
      if cacheTimeout <? env_time env (step w) - t0
      then (Ok None, set_productCache (delete pid (productCache w)) (tick w))
      else (Ok (Some p), tick w)
  | None => (Ok None, w)
  end.
Proof.
  unfold getCachedProduct, World.bind at 1, gets.
  destruct (productCache w !! pid) as [[p t0]|]; [|reflexivity].
  unfold World.bind at 1, now.
  by destruct (cacheTimeout <? env_time env (step w) - t0).
Qed.

(** What [getProduct] comes to: the parse of a fetched page throws, the
    handler turns that into [null], and nothing is stored. *)
Lemma getProduct_run pid env w :
  getProduct pid env w =
  match productCache w !! pid with
  | Some (p, t0) =>
      if cacheTimeout <? env_time env (step w) - t0
      then (Ok None,
            snd (RohlikClient.get ProductClient (js "/" ++ pid ++ js "-") env
                   (set_productCache (delete pid (productCache w)) (tick w))))
      else (Ok (Some p), tick w)
  | None =>
      (Ok None, snd (RohlikClient.get ProductClient (js "/" ++ pid ++ js "-") env w))
  end.
Proof.
  assert (Hfetch : forall wf,
    try_catch
      (World.bind (RohlikClient.get ProductClient (js "/" ++ pid ++ js "-"))
         (fun response =>
            let html := data response in
            if negb (truthy_data html) then ret None
            else
              World.bind
                (lift (HtmlParserService.parseProductPage (load html) pid))
                (fun productData =>
                   match productData with
                   | Some productData =>
                       World.bind (cacheProduct pid productData)
                         (fun _ => ret (Some productData))
                   | None => ret None
                   end)))
      (fun _ => ret None) env wf
    = (Ok None, snd (RohlikClient.get ProductClient (js "/" ++ pid ++ js "-") env wf))).
  { intros wf. unfold try_catch, World.bind at 1.
    destruct (RohlikClient.get ProductClient _ env wf) as [[response|e] w2];
      [|reflexivity].
    cbv zeta. by destruct (negb (truthy_data (data response))). }
  unfold getProduct.
  unfold try_catch at 1, World.bind at 1. rewrite getCachedProduct_run.
  destruct (productCache w !! pid) as [[p0 t0]|] eqn:Hlook.
  - destruct (cacheTimeout <? env_time env (step w) - t0); [|reflexivity].
    exact (Hfetch _).
  - exact (Hfetch w).
Qed.

Lemma getProduct_cases pid env w :
  exists o w',
    getProduct pid env w = (Ok o, w')
    /\ cartClient w' = cartClient w /\ cartCache w' = cartCache w
    /\ (forall k, k <> pid -> productCache w' !! k = productCache w !! k)
    /\ match o with
       | Some p => exists t, productCache w' !! pid = Some (p, t)
       | None => productCache w' !! pid = None
       end.
Proof.
  rewrite getProduct_run.
  destruct (productCache w !! pid) as [[p0 t0]|] eqn:Hlook.
  - destruct (cacheTimeout <? env_time env (step w) - t0).
    + set (wf := set_productCache (delete pid (productCache w)) (tick w)).
      destruct (request_frame ProductClient
                  {| method := GET; url := js "/" ++ pid ++ js "-"; body := NoBody |}
                  env wf) as (Hc & Hp & Hk).
      eexists _, _. split; [reflexivity|]. unfold RohlikClient.get.
      split; [exact Hc|]. split; [exact Hk|]. rewrite Hp.
      split; [intros k Hne; by apply lookup_delete_ne|apply lookup_delete_eq].
    + exists (Some p0), (tick w). split; [reflexivity|]. cbn.
      split; [done|]. split; [done|]. split; [done|]. by exists t0.
  - destruct (request_frame ProductClient
                {| method := GET; url := js "/" ++ pid ++ js "-"; body := NoBody |}
                env w) as (Hc & Hp & Hk).
    eexists _, _. split; [reflexivity|]. unfold RohlikClient.get.
    split; [exact Hc|]. split; [exact Hk|]. by rewrite Hp.
Qed.

Lemma getProduct_hit pid env w p t0 :
  productCache w !! pid = Some (p, t0) ->
  env_time env (step w) - t0 <= cacheTimeout ->
  getProduct pid env w = (Ok (Some p), tick w).
Proof.
  intros Hlook Hfresh. unfold getProduct, try_catch, World.bind.
  rewrite getCachedProduct_run, Hlook.
  by destruct (Z.ltb_spec cacheTimeout (env_time env (step w) - t0)); [lia|].
Qed.

(** X16: a product cached no more than ten minutes ago (ten minutes
    exactly included) is returned as it is; nothing but the clock is
    consulted: no request is made and the cache is left as it is. *)
Theorem getProduct_cache_hit (pid : jsstring) (env : Env) (w : World)
    (p : HtmlParserService.ParsedProductData) (t0 : Z) :
  productCache w !! pid = Some (p, t0) ->
  env_time env (step w) - t0 <= cacheTimeout ->
  getProduct pid env w = (Ok (Some p), tick w).
Proof. apply getProduct_hit. Qed.

Lemma getProduct_cache_hit_witness :
  getProduct (js "1413424") env_frozen world_cached
  = (Ok (Some product_discounted), tick world_cached).
Proof.
  assert (H1 : productCache world_cached !! js "1413424"
               = Some (product_discounted, 0)) by apply lookup_singleton_eq.
  assert (H2 : env_time env_frozen (step world_cached) - 0 <= cacheTimeout)
    by (vm_compute; discriminate).
  exact (getProduct_cache_hit (js "1413424") env_frozen world_cached
           product_discounted 0 H1 H2).
Defined.

(** X17: [getProduct] never throws, and it returns a product only from
    the cache: the answer is the cached product when the cache holds an
    entry of the identifier that is at most ten minutes old, and [null]
    in every other case.  When the product has to be fetched, the answer
    is [null] whatever the site sends, because the parse of the page
    throws, and nothing is stored: after the call the cache has no entry
    for the identifier. *)
Theorem getProduct_only_from_cache (pid : jsstring) (env : Env) (w : World) :
  exists o w',
    getProduct pid env w = (Ok o, w')
    /\ match productCache w !! pid with
       | Some (p, t0) =>
           if cacheTimeout <? env_time env (step w) - t0
           then o = None /\ productCache w' !! pid = None
           else o = Some p /\ w' = tick w
       | None => o = None /\ productCache w' !! pid = None
       end.
Proof.
  destruct (getProduct_cases pid env w) as (o & w' & Hrun & _ & _ & _ & Ho).
  exists o, w'. split; [exact Hrun|].
  rewrite getProduct_run in Hrun.
  destruct (productCache w !! pid) as [[p0 t0]|] eqn:Hlook.
  - destruct (cacheTimeout <? env_time env (step w) - t0);
      by injection Hrun as <- <-.
  - by injection Hrun as <- <-.
Qed.

(** X18: [getProduct] changes the cache entry of the requested
    identifier only, and leaves the client of the cart service and the
    cart cache as they were. *)
Theorem getProduct_frame (pid : jsstring) (env : Env) (w : World) :
  cartClient (snd (getProduct pid env w)) = cartClient w
  /\ cartCache (snd (getProduct pid env w)) = cartCache w
  /\ forall k, k <> pid ->
       productCache (snd (getProduct pid env w)) !! k = productCache w !! k.
Proof.
  destruct (getProduct_cases pid env w) as (o & w' & -> & H1 & H2 & H3 & _).
  done.
Qed.

(** X19: the calls of [getProduct]: exactly one GET of the product
    page on the client of the product service, unless the cache holds an
    entry of the identifier that is at most ten minutes old, in which
    case no call is made. *)
Theorem getProduct_calls (pid : jsstring) (env : Env) (w : World) :
  attempted (snd (getProduct pid env w))
  = attempted w ++
      match productCache w !! pid with
      | Some (_, t0) =>
          if cacheTimeout <? env_time env (step w) - t0
          then [lookup_call pid] else []
      | None => [lookup_call pid]
      end.
Proof.
  rewrite getProduct_run. unfold RohlikClient.get.
  destruct (productCache w !! pid) as [[p0 t0]|] eqn:Hlook.
  - destruct (cacheTimeout <? env_time env (step w) - t0).
    + cbn [snd]. by rewrite CartFacts.request_attempted.
    + cbn. by rewrite app_nil_r.
  - cbn [snd]. by rewrite CartFacts.request_attempted.
Qed.

End ProductMore.

(* ===================================================================== *)
(** * More on the cart *)
(* ===================================================================== *)

Module CartMore.
Import Js Cheerio Net World Scenario Cases RohlikClient CartService.
Import TransportFacts CartFacts ExtractionMore TransportMore ProductMore.
Local Open Scope list_scope.
Local Open Scope Z_scope.

(** X20: without an authenticated user each of the five cart operations
    throws its own error at once: nothing but the authentication service
    is consulted, no request is made and no cache is touched. *)
Theorem unauthenticated_rejected (env : Env) (w : World)
    (request : AddToCartRequest) (pid : jsstring) :
  env_auth env (step w) = false ->
  getCart env w
    = (Throw (Error (js "User must be authenticated to access cart")), tick w)
  /\ addToCart request env w
    = (Throw (Error (js "User must be authenticated to add items to cart")), tick w)
  /\ updateCartItem request env w
    = (Throw (Error (js "User must be authenticated to update cart")), tick w)
  /\ removeFromCart pid env w
    = (Throw (Error (js "User must be authenticated to remove items from cart")),
       tick w)
  /\ clearCart env w
    = (Throw (Error (js "User must be authenticated to clear cart")), tick w).
Proof.
  intros Hauth.
  unfold getCart, addToCart, updateCartItem, removeFromCart, clearCart,
    World.bind, authService_isAuthenticated.
  rewrite Hauth. done.
Qed.

Lemma unauthenticated_rejected_witness :
  getCart env_anonymous initial_world
    = (Throw (Error (js "User must be authenticated to access cart")),
       tick initial_world)
  /\ addToCart add_one env_anonymous initial_world
    = (Throw (Error (js "User must be authenticated to add items to cart")),
       tick initial_world)
  /\ updateCartItem add_one env_anonymous initial_world
    = (Throw (Error (js "User must be authenticated to update cart")),
       tick initial_world)
  /\ removeFromCart (js "1413424") env_anonymous initial_world
    = (Throw (Error (js "User must be authenticated to remove items from cart")),
       tick initial_world)
  /\ clearCart env_anonymous initial_world
    = (Throw (Error (js "User must be authenticated to clear cart")),
       tick initial_world).
Proof.
  assert (H : env_auth env_anonymous (step initial_world) = false) by reflexivity.
  exact (unauthenticated_rejected env_anonymous initial_world add_one
           (js "1413424") H).
Defined.

(** ** The cart cache *)

Lemma keeps_ret {A} (a : A) : keeps_cartCache (ret a).
Proof. by intros env w. Qed.

Lemma keeps_throw {A} e : keeps_cartCache (@throw A e).
Proof. by intros env w. Qed.

Lemma keeps_bind {A B} (m : M A) (f : A -> M B) :
  keeps_cartCache m -> (forall a, keeps_cartCache (f a)) ->
  keeps_cartCache (World.bind m f).
Proof.
  intros Hm Hf env w. unfold World.bind. specialize (Hm env w).
  destruct (m env w) as [[a|e] w1]; simpl in *; [|done].
  by rewrite Hf.
Qed.

Lemma keeps_try_catch {A} (m : M A) (h : Exn -> M A) :
  keeps_cartCache m -> (forall e, keeps_cartCache (h e)) ->
  keeps_cartCache (try_catch m h).
Proof.
  intros Hm Hh env w. unfold try_catch. specialize (Hm env w).
  destruct (m env w) as [[a|e] w1]; simpl in *; [done|].
  by rewrite Hh.
Qed.

Lemma keeps_request cid req : keeps_cartCache (request cid req).
Proof. intros env w. apply request_frame. Qed.

Lemma keeps_auth : keeps_cartCache authService_isAuthenticated.
Proof. by intros env w. Qed.

Lemma keeps_getProduct pid : keeps_cartCache (ProductService.getProduct pid).
Proof.
  intros env w.
  by destruct (getProduct_cases pid env w) as (o & w' & -> & _ & H & _).
Qed.

Lemma keeps_api url body :
  keeps_cartCache
    (try_catch
       (World.bind (RohlikClient.post CartClient url body)
          (fun response =>
             ret ((status response =? 200) && data_success (data response))))
       (fun _ => ret false)).
Proof.
  apply keeps_try_catch; [|intros; apply keeps_ret].
  apply keeps_bind; [apply keeps_request|intros; apply keeps_ret].
Qed.

Lemma keeps_addToCartViaForm request : keeps_cartCache (addToCartViaForm request).
Proof.
  apply keeps_try_catch; [|intros; apply keeps_ret].
  apply keeps_bind; [apply keeps_request|intros r].
  apply keeps_bind; [apply keeps_request|intros; apply keeps_ret].
Qed.

Lemma keeps_updateCartViaForm request : keeps_cartCache (updateCartViaForm request).
Proof.
  apply keeps_try_catch; [|intros; apply keeps_ret].
  apply keeps_bind; [apply keeps_request|intros r]. cbv zeta.
  destruct (first _); [apply keeps_throw|].
  apply keeps_bind; [apply keeps_request|intros; apply keeps_ret].
Qed.

Lemma keeps_removeFromCartViaForm pid : keeps_cartCache (removeFromCartViaForm pid).
Proof.
  apply keeps_try_catch; [apply keeps_updateCartViaForm|intros; apply keeps_ret].
Qed.

Lemma getCart_cache env w :
  match getCart env w with
  | (Ok c, w1) => cartCache w1 = Some c
  | (Throw _, w1) => cartCache w1 = cartCache w
  end.
Proof.
  unfold getCart, World.bind at 1, authService_isAuthenticated.
  destruct (env_auth env (step w)); cbn [negb]; [|done].
  unfold World.bind at 1, RohlikClient.get.
  pose proof (keeps_request CartClient
                {| method := GET; url := CART_URL; body := NoBody |} env (tick w)) as H.
  destruct (request CartClient _ env (tick w)) as [[r|e] w1]; simpl in H; [|done].
  done.
Qed.

(** X21: [getCart] and the cart cache: the summary that [getCart]
    returns is what [getCachedCart] returns afterwards; when [getCart]
    throws, the cache still holds what it held before. *)
Theorem getCart_fills_cache (env : Env) (w : World) :
  match getCart env w with
  | (Ok c, w1) => forall env', getCachedCart env' w1 = (Ok (Some c), w1)
  | (Throw _, w1) => forall env', getCachedCart env' w1 = (Ok (cartCache w), w1)
  end.
Proof.
  pose proof (getCart_cache env w) as H.
  destruct (getCart env w) as [[c|e] w1]; intros env';
    unfold getCachedCart, gets; by rewrite H.
Qed.

Lemma finish_cache success failure env w :
  match finish success failure env w with
  | (Ok c, w1) => cartCache w1 = Some c
  | (Throw _, w1) => cartCache w1 = cartCache w \/ cartCache w1 = None
  end.
Proof.
  unfold finish. destruct success; [|by left].
  unfold World.bind, modify.
  pose proof (getCart_cache env (set_cartCache None w)) as H.
  destruct (getCart env (set_cartCache None w)) as [[c|e] w1]; [done|by right].
Qed.

Lemma then_finish_cache (m : M bool) failure env w :
  keeps_cartCache m ->
  match World.bind m (fun success => finish success failure) env w with
  | (Ok c, w1) => cartCache w1 = Some c
  | (Throw _, w1) => cartCache w1 = cartCache w \/ cartCache w1 = None
  end.
Proof.
  intros Hm. unfold World.bind. specialize (Hm env w).
  destruct (m env w) as [[b|e] w1]; simpl in Hm; [|by left].
  pose proof (finish_cache b failure env w1) as H. rewrite Hm in H. exact H.
Qed.

Lemma removeFromCart_cache pid env w :
  match removeFromCart pid env w with
  | (Ok c, w1) => cartCache w1 = Some c
  | (Throw _, w1) => cartCache w1 = cartCache w \/ cartCache w1 = None
  end.
Proof.
  unfold removeFromCart, World.bind at 1, authService_isAuthenticated.
  destruct (env_auth env (step w)); cbn [negb]; [|by left].
  apply (then_finish_cache _ _ env (tick w)).
  apply keeps_try_catch; [apply keeps_api|intros; apply keeps_removeFromCartViaForm].
Qed.

(** X22: the three mutations and the cart cache: a summary that is
    returned is the one left in the cache; when a mutation throws, the
    cache is either unchanged or empty (the mutation went through and
    the re-read of the cart failed), never a summary from in between. *)
Theorem mutation_cache (request : AddToCartRequest) (pid : jsstring)
    (env : Env) (w : World) :
  let settled (r : Outcome CartSummary * World) :=
    match r with
    | (Ok c, w1) => cartCache w1 = Some c
    | (Throw _, w1) => cartCache w1 = cartCache w \/ cartCache w1 = None
    end in
  settled (addToCart request env w)
  /\ settled (updateCartItem request env w)
  /\ settled (removeFromCart pid env w).
Proof.
  cbv zeta. split; [|split].
  - unfold addToCart, World.bind at 1, authService_isAuthenticated.
    destruct (env_auth env (step w)); cbn [negb]; [|by left].
    unfold World.bind at 1.
    pose proof (keeps_getProduct (productId request) env (tick w)) as Hp.
    destruct (ProductService.getProduct _ env (tick w)) as [[[p|]|e] w1];
      simpl in Hp; [|by left|by left].
    pose proof (then_finish_cache
                  (try_catch (addToCartViaApi request)
                             (fun _ => addToCartViaForm request))
                  "Failed to add product to cart" env w1) as H.
    rewrite Hp in H. apply H.
    apply keeps_try_catch; [apply keeps_api|intros; apply keeps_addToCartViaForm].
  - unfold updateCartItem, World.bind at 1, authService_isAuthenticated.
    destruct (env_auth env (step w)) eqn:Hauth; cbn [negb]; [|by left].
    match goal with
    | |- context [if ?b then removeFromCart _ else _] => destruct b
    end.
    + pose proof (removeFromCart_cache (productId request) env (tick w)) as H.
      exact H.
    + apply (then_finish_cache _ _ env (tick w)).
      apply keeps_try_catch; [apply keeps_api|intros; apply keeps_updateCartViaForm].
  - apply removeFromCart_cache.
Qed.

Lemma leaves_getCart : leaves_summary getCart.
Proof.
  intros env w. pose proof (getCart_cache env w) as H.
  by destruct (getCart env w) as [[c|e] w1].
Qed.

Lemma leaves_bind {A} (m : M A) (f : A -> M CartSummary) :
  (forall a, leaves_summary (f a)) -> leaves_summary (World.bind m f).
Proof.
  intros Hf env w. unfold World.bind.
  destruct (m env w) as [[a|e] w1]; [apply Hf|done].
Qed.

(** X23: the summary that [clearCart] returns is the one it leaves in
    the cache. *)
Theorem clearCart_leaves_summary (env : Env) (w : World) :
  match clearCart env w with
  | (Ok c, w1) => forall env', getCachedCart env' w1 = (Ok (Some c), w1)
  | (Throw _, _) => True
  end.
Proof.
  assert (H : leaves_summary clearCart).
  { unfold clearCart. apply leaves_bind. intros a.
    destruct (negb a); [by intros env0 w0|].
    apply leaves_bind. intros cart.
    apply leaves_bind. intros _.
    apply leaves_bind. intros _. apply leaves_getCart. }
  specialize (H env w).
  destruct (clearCart env w) as [[c|e] w1]; [|done].
  intros env'. unfold getCachedCart, gets. by rewrite H.
Qed.

(** X24: [addToCart] for a product that [getProduct] cannot find throws
    [Product <id> not found]; no POST is made (the only call, if any, is
    the lookup of the product page) and the cart cache is untouched. *)
Theorem addToCart_unknown_product (request : AddToCartRequest) (env : Env)
    (w w1 : World) :
  env_auth env (step w) = true ->
  ProductService.getProduct (productId request) env (tick w) = (Ok None, w1) ->
  addToCart request env w
    = (Throw (Error (js "Product " ++ productId request ++ js " not found")), w1)
  /\ List.filter is_post (new_attempts w w1) = []
  /\ cartCache w1 = cartCache w.
Proof.
  intros Hauth Hprod.
  split; [|split].
  - unfold addToCart, World.bind at 1, authService_isAuthenticated.
    rewrite Hauth. cbn [negb]. unfold World.bind at 1. by rewrite Hprod.
  - destruct (getProduct_attempted (productId request) env (tick w))
      as (lookup & Hlook & Hl).
    rewrite Hprod in Hlook. cbn [snd] in Hlook.
    rewrite (new_attempts_app w w1 lookup) by exact Hlook.
    by destruct Hl as [-> | ->].
  - pose proof (keeps_getProduct (productId request) env (tick w)) as H.
    by rewrite Hprod in H.
Qed.

Lemma addToCart_unknown_product_witness :
  exists w1,
    addToCart add_one env_offline initial_world
      = (Throw (Error (js "Product " ++ productId add_one ++ js " not found")), w1)
    /\ List.filter is_post (new_attempts initial_world w1) = []
    /\ cartCache w1 = cartCache initial_world.
Proof.
  assert (H1 : env_auth env_offline (step initial_world) = true) by reflexivity.
  destruct (ProductService.getProduct (productId add_one) env_offline
              (tick initial_world)) as [[[p|]|e] w1] eqn:H;
    try (exfalso; vm_compute in H; discriminate).
  exists w1.
  exact (addToCart_unknown_product add_one env_offline initial_world w1 H1 H).
Defined.

(** ** The items of a cart page *)

Lemma parseCartItem_shape e i :
  parseCartItem e = Some i ->
  ci_productId i <> [] /\ ci_name i <> []
  /\ ltb (of_Z 0) (ci_price i) = true
  /\ truthy_num (ci_quantity i) = true
  /\ ci_totalPrice i = mul (ci_price i) (ci_quantity i).
Proof.
  unfold parseCartItem.
  destruct (or_opt _ _) as [pid|]; [|discriminate].
  destruct (truthy_str pid) eqn:Hpid; [|discriminate].
  destruct (truthy_str (HtmlParserService.or_str _ _)) eqn:Hname; [|discriminate].
  destruct (ltb (of_Z 0) _) eqn:Hprice; [|discriminate].
  intros [= <-]. cbn.
  split; [by apply truthy_str_nonempty|].
  split; [by apply truthy_str_nonempty|].
  split; [done|]. split; [|done].
  destruct (truthy_num (parseInt _)) eqn:Hq; [exact Hq|reflexivity].
Qed.

Lemma omap_length_le {A B} (f : A -> option B) (l : list A) :
  (length (omap f l) <= length l)%nat.
Proof.
  induction l as [|a l IH]; [done|].
  cbn. destruct (f a); cbn; lia.
Qed.

(** X25: every item of a parsed cart has a non-empty product identifier
    and name, a price above zero, a quantity that is neither zero nor
    [NaN], and the product of the two as total; elements of the page that
    lack one of these are left out.  The currency is [CZK] and the
    summary carries the date it was parsed at. *)
Theorem parseCartFromHtml_items (doc : Element) (today : Z) :
  Forall (fun i =>
            ci_productId i <> [] /\ ci_name i <> []
            /\ ltb (of_Z 0) (ci_price i) = true
            /\ truthy_num (ci_quantity i) = true
            /\ ci_totalPrice i = mul (ci_price i) (ci_quantity i))
         (items (parseCartFromHtml doc today))
  /\ (length (items (parseCartFromHtml doc today))
      <= length (select doc cart_item_selector))%nat
  /\ currency (parseCartFromHtml doc today) = js "CZK"
  /\ lastUpdated (parseCartFromHtml doc today) = today.
Proof.
  split; [|split; [|done]].
  - apply Forall_forall. intros i Hi. cbn in Hi.
    apply list_elem_of_omap in Hi as (e & _ & He).
    by apply (parseCartItem_shape e).
  - cbn. apply omap_length_le.
Qed.

(** ** The fields of a submitted form *)

Lemma filter_named_cons n' n v (l : FormData) :
  List.filter (field_named n') ((n, v) :: l)
  = if bool_decide (n = n') then (n, v) :: List.filter (field_named n') l
    else List.filter (field_named n') l.
Proof. reflexivity. Qed.

Lemma remove_name_named name fd :
  List.filter (field_named name) (remove_name name fd) = [].
Proof.
  induction fd as [|[n v] fd IH]; [done|]. cbn [remove_name].
  destruct (decide (n = name)) as [Hn|Hn]; [exact IH|].
  rewrite filter_named_cons. by rewrite bool_decide_eq_false_2.
Qed.

Lemma remove_name_other name n' fd :
  n' <> name ->
  List.filter (field_named n') (remove_name name fd) = List.filter (field_named n') fd.
Proof.
  intros Hne. induction fd as [|[n v] fd IH]; [done|]. cbn [remove_name].
  destruct (decide (n = name)) as [->|Hn].
  - rewrite IH, filter_named_cons. by rewrite bool_decide_eq_false_2.
  - by rewrite !filter_named_cons, IH.
Qed.

Lemma set_named name v fd :
  List.filter (field_named name) (set name v fd) = [(name, v)].
Proof.
  induction fd as [|[n v0] fd IH]; cbn [set].
  - rewrite filter_named_cons. by rewrite bool_decide_eq_true_2.
  - destruct (decide (n = name)) as [->|Hn].
    + rewrite filter_named_cons, bool_decide_eq_true_2 by done.
      by rewrite remove_name_named.
    + rewrite filter_named_cons. by rewrite bool_decide_eq_false_2.
Qed.

Lemma set_other name n' v fd :
  n' <> name ->
  List.filter (field_named n') (set name v fd) = List.filter (field_named n') fd.
Proof.
  intros Hne. induction fd as [|[n v0] fd IH]; cbn [set].
  - rewrite filter_named_cons. by rewrite bool_decide_eq_false_2.
  - destruct (decide (n = name)) as [->|Hn].
    + rewrite !filter_named_cons, !bool_decide_eq_false_2 by done.
      by apply remove_name_other.
    + by rewrite !filter_named_cons, IH.
Qed.

(** X26: the form that [addToCartViaForm] submits once the product
    page is loaded: one POST to the action of the form (or
    [/kosik/pridat]) whose body holds exactly one field [product_id] and
    one field [quantity], with the values of the request, whatever inputs
    of these names the page has; the fields of other names are those of
    the inputs of the form. *)
Theorem addToCartViaForm_fields (request : AddToCartRequest) (env : Env)
    (w w1 : World) (page : Response) :
  RohlikClient.get CartClient (js "/" ++ productId request) env w = (Ok page, w1) ->
  exists fields,
    attempted (snd (addToCartViaForm request env w))
    = attempted w1 ++
        [(CartClient,
          {| method := POST;
             url := HtmlParserService.or_str (attr (add_form page) (js "action"))
                      (js "/kosik/pridat");
             body := FormBody fields |})]
    /\ List.filter (field_named (js "product_id")) fields
       = [(js "product_id", FString (productId request))]
    /\ List.filter (field_named (js "quantity")) fields
       = [(js "quantity", FNumberToString (quantity request))]
    /\ forall n,
         n <> js "product_id" -> n <> js "quantity" ->
         List.filter (field_named n) fields
         = List.filter (field_named n) (collect_inputs (add_form page)).
Proof.
  intros Hget.
  exists (set (js "quantity") (FNumberToString (quantity request))
            (set (js "product_id") (FString (productId request))
               (collect_inputs (add_form page)))).
  split; [|split; [|split]].
  - unfold addToCartViaForm, try_catch, World.bind at 1. rewrite Hget.
    cbv zeta. fold (add_form page). unfold World.bind, RohlikClient.post.
    match goal with
    | |- context [RohlikClient.request CartClient ?req env w1] =>
        pose proof (request_attempted CartClient req env w1) as H;
        destruct (RohlikClient.request CartClient req env w1) as [[r|e] w2]
    end; exact H.
  - rewrite set_other by (intros H; vm_compute in H; discriminate).
    apply set_named.
  - apply set_named.
  - intros n Hp Hq. by rewrite !set_other.
Qed.

Lemma addToCartViaForm_fields_witness :
  exists page w1,
    RohlikClient.get CartClient (js "/" ++ productId add_one) env_api_500
      initial_world = (Ok page, w1)
    /\ exists fields,
         attempted (snd (addToCartViaForm add_one env_api_500 initial_world))
         = attempted w1 ++
             [(CartClient,
               {| method := POST;
                  url := HtmlParserService.or_str
                           (attr (add_form page) (js "action")) (js "/kosik/pridat");
                  body := FormBody fields |})]
         /\ List.filter (field_named (js "product_id")) fields
            = [(js "product_id", FString (productId add_one))]
         /\ List.filter (field_named (js "quantity")) fields
            = [(js "quantity", FNumberToString (quantity add_one))]
         /\ forall n,
              n <> js "product_id" -> n <> js "quantity" ->
              List.filter (field_named n) fields
              = List.filter (field_named n) (collect_inputs (add_form page)).
Proof.
  destruct (RohlikClient.get CartClient (js "/" ++ productId add_one) env_api_500
              initial_world) as [[page|e] w1] eqn:H;
    [|exfalso; vm_compute in H; discriminate].
  exists page, w1. split; [reflexivity|].
  exact (addToCartViaForm_fields add_one env_api_500 initial_world w1 page H).
Defined.

End CartMore.

(* ===================================================================== *)
(** * More on the configuration *)
(* ===================================================================== *)

Module ConfigMore.
Import Js Net Scenario Cases ConfigManager PriceMore.
Local Open Scope list_scope.
Local Open Scope Z_scope.

Lemma digits_value_nonneg ds :
  Forall (fun d => 0 <= d) ds -> forall acc, 0 <= acc ->
  0 <= fold_left (fun acc d => 10 * acc + d) ds acc.
Proof.
  induction 1 as [|d ds Hd _ IH]; intros acc Hacc; simpl; [done|].
  apply IH. lia.
Qed.

Lemma of_Z_not_nan n : 0 <= n -> isNaN (of_Z n) = false.
Proof.
  intros Hn. unfold of_Z, binary_normalize.
  destruct n as [|p|p]; [reflexivity| |lia].
  unfold binary_round.
  destruct (shl_align _ _ _) as [mz ez].
  by apply binary_round_aux_not_nan.
Qed.

(** X27: [getNumber] reads the leading decimal digits of a configured
    value and ignores whatever follows them: a value that starts with
    digits is accepted even when it is not a number as a whole ([30abc]
    reads 30, [3.5] reads 3), and the result is never [NaN]. *)
Theorem getNumber_leading_digits (config : gmap jsstring jsstring)
    (key ds rest : jsstring) :
  config !! key = Some (ds ++ rest) ->
  ds <> [] -> digit_text ds ->
  match rest with [] => True | c :: _ => is_digit c = false end ->
  getNumber config key = Ok (of_Z (digits_value (digit_value <$> ds))).
Proof.
  intros Hkey Hne Hds Hrest. unfold getNumber.
  change (config !! key) with (config !! key : option (list N)). rewrite Hkey.
  unfold parseInt10.
  destruct ds as [|d ds']; [done|].
  pose proof Hds as Hd. apply Forall_cons in Hd as [Hd _].
  change ((d :: ds') ++ rest) with (sign_text false ++ d :: (ds' ++ rest)).
  rewrite sign_read by done.
  change (d :: ds' ++ rest) with ((d :: ds') ++ rest).
  rewrite take_digits_app by done.
  cbn [fst fmap list_fmap].
  set (n := digits_value _).
  assert (Hn : 0 <= n).
  { assert (Hall : Forall (fun d => 0 <= d) (digit_value <$> (d :: ds'))).
    { apply Forall_fmap. eapply Forall_impl; [exact Hds|].
      intros c Hc. apply digit_range in Hc. unfold digit_value. simpl. lia. }
    unfold n, digits_value. apply digits_value_nonneg; [exact Hall|lia]. }
  clearbody n.
  destruct (Z.eqb_spec n 0) as [->|Hn0]; [reflexivity|].
  cbn [cond_Zopp]. by rewrite of_Z_not_nan.
Qed.

Lemma getNumber_leading_digits_witness :
  getNumber config_30abc (js "SESSION_TIMEOUT_MINUTES")
  = Ok (of_Z (digits_value (digit_value <$> js "30"))).
Proof.
  assert (H1 : config_30abc !! js "SESSION_TIMEOUT_MINUTES"
               = Some (js "30" ++ js "abc")) by apply lookup_singleton_eq.
  assert (H2 : js "30" <> []) by discriminate.
  assert (H3 : digit_text (js "30")) by (repeat constructor).
  assert (H4 : match js "abc" with [] => True | c :: _ => is_digit c = false end)
    by reflexivity.
  exact (getNumber_leading_digits config_30abc (js "SESSION_TIMEOUT_MINUTES")
           (js "30") (js "abc") H1 H2 H3 H4).
Defined.

End ConfigMore.

(* ===================================================================== *)
(** * More on the nutritional information *)
(* ===================================================================== *)

Module NutritionMore.
Import Js Cheerio Scenario Cases HtmlParserService ExtractionMore.
Local Open Scope list_scope.

Lemma row_counts_test row :
  truthy_str (row_label row) && truthy_str (row_value row)
    && negb (bool_decide (row_label row = row_value row))
    && negb (bool_decide (row_label row = js "__proto__")) = true
  <-> row_counts row.
Proof.
  unfold row_counts.
  rewrite !andb_true_iff, !negb_true_iff, !bool_decide_eq_false,
    !truthy_str_nonempty.
  tauto.
Qed.

(** One step of the loop: a row that counts writes its entry, any other
    row leaves the object as it is. *)
Lemma nutrition_step (info : gmap jsstring jsstring) row :
  (if truthy_str (row_label row) && truthy_str (row_value row)
      && negb (bool_decide (row_label row = row_value row))
   then assign (row_label row) (row_value row) info else info)
  = if truthy_str (row_label row) && truthy_str (row_value row)
       && negb (bool_decide (row_label row = row_value row))
       && negb (bool_decide (row_label row = js "__proto__"))
    then <[row_label row := row_value row]> info else info.
Proof.
  unfold assign.
  destruct (truthy_str (row_label row) && truthy_str (row_value row)
            && negb (bool_decide (row_label row = row_value row))); [|done].
  by destruct (bool_decide (row_label row = js "__proto__")).
Qed.

Lemma nutrition_fold rows : forall info0 : gmap jsstring jsstring,
  let info :=
    fold_left
      (fun (info : gmap jsstring jsstring) row =>
         if truthy_str (row_label row) && truthy_str (row_value row)
            && negb (bool_decide (row_label row = row_value row))
         then assign (row_label row) (row_value row) info else info)
      rows info0 in
  (forall label value,
     info !! label = Some value ->
     info0 !! label = Some value
     \/ exists row, row ∈ rows /\ row_counts row
                    /\ label = row_label row /\ value = row_value row)
  /\ (info = ∅ -> info0 = ∅ /\ forall row, row ∈ rows -> ~ row_counts row).
Proof.
  induction rows as [|row rows IH]; intros info0; cbn [fold_left].
  - split; [by left|]. intros ->. split; [done|].
    intros row Hrow. by apply elem_of_nil in Hrow.
  - cbv zeta in IH. rewrite nutrition_step.
    destruct (truthy_str (row_label row) && truthy_str (row_value row)
              && negb (bool_decide (row_label row = row_value row))
              && negb (bool_decide (row_label row = js "__proto__"))) eqn:Htest.
    + apply row_counts_test in Htest.
      destruct (IH (<[row_label row := row_value row]> info0)) as [H1 H2].
      split.
      * intros label value Hl. destruct (H1 label value Hl) as [H|H].
        -- destruct (decide (label = row_label row)) as [->|Hne].
           ++ rewrite lookup_insert_eq in H. injection H as <-.
              right. exists row. split; [apply list_elem_of_here|done].
           ++ rewrite lookup_insert_ne in H by done. by left.
        -- destruct H as (r & Hr & H). right. exists r.
           split; [by apply list_elem_of_further|done].
      * intros Hempty. destruct (H2 Hempty) as [H _].
        by apply insert_non_empty in H.
    + assert (Hno : ~ row_counts row).
      { intros H. apply row_counts_test in H. congruence. }
      destruct (IH info0) as [H1 H2].
      split.
      * intros label value Hl. destruct (H1 label value Hl) as [H|H]; [by left|].
        destruct H as (r & Hr & H). right. exists r.
        split; [by apply list_elem_of_further|done].
      * intros Hempty. destruct (H2 Hempty) as [H H'].
        split; [done|]. intros r Hr.
        apply elem_of_cons in Hr as [->|Hr]; [done|by apply H'].
Qed.

(** X28: the nutritional information of a product page.  When it is
    present it is not empty and each of its entries comes from a row of a
    nutrition table with a non-empty label and a non-empty value that
    differ, the label not being [__proto__]; it is absent exactly when
    the page has no such row.  A row labelled [__proto__] writes nothing
    into the object. *)
Theorem extractNutritionalInfo_entries (doc : Element) :
  match extractNutritionalInfo doc with
  | Some info =>
      info <> ∅
      /\ forall label value,
           info !! label = Some value ->
           exists row,
             row ∈ nutrition_rows doc /\ row_counts row
             /\ label = row_label row /\ value = row_value row
  | None => forall row, row ∈ nutrition_rows doc -> ~ row_counts row
  end.
Proof.
  destruct (nutrition_fold (nutrition_rows doc) ∅) as [H1 H2].
  cbv zeta in H1, H2.
  set (info := fold_left _ (nutrition_rows doc) ∅) in H1, H2.
  change (extractNutritionalInfo doc)
    with (if bool_decide (info = ∅) then None else Some info).
  destruct (bool_decide_reflect (info = ∅)) as [He|Hne].
  - by destruct (H2 He).
  - split; [done|]. intros label value Hl.
    destruct (H1 label value Hl) as [H|H]; [|done].
    by rewrite lookup_empty in H.
Qed.

End NutritionMore.

(* ===================================================================== *)
(** * More on the selectors *)
(* ===================================================================== *)

Module SelectorMore.
Import Js Cheerio Net World Scenario Cases HtmlParserService.
Import ExtractionMore.
Local Open Scope list_scope.

Lemma first_text_priority doc sels t :
  first_text doc sels = Some t
  <-> exists pre sel post,
        sels = pre ++ sel :: post
        /\ t = first_trimmed doc sel /\ t <> []
        /\ Forall (fun s => first_trimmed doc s = []) pre.
Proof.
  induction sels as [|s sels IH]; cbn [first_text].
  - split; [discriminate|]. intros (pre & sel & post & H & _). by destruct pre.
  - fold (first_trimmed doc s).
    destruct (truthy_str (first_trimmed doc s)) eqn:Hs.
    + apply truthy_str_nonempty in Hs. split.
      * intros [= <-]. exists [], s, sels. by repeat split.
      * intros (pre & sel & post & Heq & -> & Hne & Hpre).
        destruct pre as [|s' pre]; simplify_eq/=; [done|].
        apply Forall_cons in Hpre as [Hs' _]. congruence.
    + assert (Hempty : first_trimmed doc s = []).
      { destruct (first_trimmed doc s) eqn:E; [done|]. discriminate. }
      rewrite IH. split.
      * intros (pre & sel & post & -> & Ht & Hne & Hpre).
        exists (s :: pre), sel, post. repeat split; try done. by constructor.
      * intros (pre & sel & post & Heq & Ht & Hne & Hpre).
        destruct pre as [|s' pre]; simplify_eq/=; try congruence.
        apply Forall_cons in Hpre as [_ Hpre]. by exists pre, sel, post.
Qed.

Lemma first_price_priority doc sels x :
  first_price doc sels = Some x
  <-> exists pre sel post,
        sels = pre ++ sel :: post
        /\ parsePrice (first_trimmed doc sel) = Some x
        /\ Forall (fun s => parsePrice (first_trimmed doc s) = None) pre.
Proof.
  induction sels as [|s sels IH]; cbn [first_price].
  - split; [discriminate|]. intros (pre & sel & post & H & _). by destruct pre.
  - cbv zeta. fold (first_trimmed doc s).
    destruct (parsePrice (first_trimmed doc s)) as [y|] eqn:Hs.
    + split.
      * intros [= <-]. exists [], s, sels. by repeat split.
      * intros (pre & sel & post & Heq & Hx & Hpre).
        destruct pre as [|s' pre]; simplify_eq/=; try congruence.
        apply Forall_cons in Hpre as [Hs' _]. congruence.
    + rewrite IH. split.
      * intros (pre & sel & post & -> & Hx & Hpre).
        exists (s :: pre), sel, post. repeat split; try done. by constructor.
      * intros (pre & sel & post & Heq & Hx & Hpre).
        destruct pre as [|s' pre]; simplify_eq/=; try congruence.
        apply Forall_cons in Hpre as [_ Hpre]. by exists pre, sel, post.
Qed.

(** X29: the selectors of the name and of the price are tried in the
    order of their lists and the first that yields a result wins: the
    name is the trimmed text of the first match of the first selector
    whose text is not empty, the price is the parse of the first selector
    whose text parses; a selector that matches but yields nothing is
    skipped, and only the first element a selector matches is looked
    at. *)
Theorem selector_priority (doc : Element) :
  (forall t,
     extractProductName doc = Some t
     <-> exists pre sel post,
           name_selectors = pre ++ sel :: post
           /\ t = first_trimmed doc sel /\ t <> []
           /\ Forall (fun s => first_trimmed doc s = []) pre)
  /\ (forall x,
        extractPrice doc = Some x
        <-> exists pre sel post,
              price_selectors = pre ++ sel :: post
              /\ parsePrice (first_trimmed doc sel) = Some x
              /\ Forall (fun s => parsePrice (first_trimmed doc s) = None) pre).
Proof.
  split.
  - intros t. apply first_text_priority.
  - intros x. apply first_price_priority.
Qed.

End SelectorMore.

(* ===================================================================== *)
(** * More on the form submissions *)
(* ===================================================================== *)

Module FormMore.
Import Js Cheerio Net World Scenario Cases RohlikClient CartService CartFacts.
Local Open Scope list_scope.

(** X30: when the cart page has no update form for the product, the
    form submissions of [updateCartViaForm] and [removeFromCartViaForm]
    return [false] after the GET of the cart page: the error is swallowed
    and no POST is made. *)
Theorem updateCartViaForm_without_form (request : UpdateCartItemRequest)
    (env : Env) (w w1 : World) (page : Response) :
  RohlikClient.get CartClient CART_URL env w = (Ok page, w1) ->
  first (select (load (data page)) (update_form_selector (productId request))) = [] ->
  updateCartViaForm request env w = (Ok false, w1)
  /\ removeFromCartViaForm (productId request) env w = (Ok false, w1)
  /\ List.filter is_post (new_attempts w w1) = [].
Proof.
  intros Hget Hform.
  assert (Hup : forall q,
    updateCartViaForm {| productId := productId request; quantity := q |} env w
    = (Ok false, w1)).
  { intros q. unfold updateCartViaForm, try_catch, World.bind at 1.
    rewrite Hget. cbv zeta. cbn [productId]. by rewrite Hform. }
  split; [|split].
  - destruct request as [pid q]. apply Hup.
  - unfold removeFromCartViaForm, try_catch. by rewrite Hup.
  - pose proof (request_attempted CartClient
                  {| method := GET; url := CART_URL; body := NoBody |} env w) as H.
    unfold RohlikClient.get in Hget. rewrite Hget in H. cbn [snd] in H.
    by rewrite (new_attempts_app w w1 _ H).
Qed.

Lemma updateCartViaForm_without_form_witness :
  exists page w1,
    RohlikClient.get CartClient CART_URL env_api_500 initial_world = (Ok page, w1)
    /\ updateCartViaForm add_one env_api_500 initial_world = (Ok false, w1)
    /\ removeFromCartViaForm (productId add_one) env_api_500 initial_world
       = (Ok false, w1)
    /\ List.filter is_post (new_attempts initial_world w1) = [].
Proof.
  destruct (RohlikClient.get CartClient CART_URL env_api_500 initial_world)
    as [[page|e] w1] eqn:H; [|exfalso; vm_compute in H; discriminate].
  assert (Hpage : page = ok_page) by (vm_compute in H; vm_compute; congruence).
  assert (H2 : first (select (load (data page))
                        (update_form_selector (productId add_one))) = [])
    by (rewrite Hpage; vm_compute; reflexivity).
  exists page, w1. split; [reflexivity|].
  exact (updateCartViaForm_without_form add_one env_api_500 initial_world w1 page
           H H2).
Defined.

End FormMore.

(* ===================================================================== *)
(** * The form submission and the anti-forgery token *)
(* ===================================================================== *)

Module FormFacts.
Import Js Cheerio Net World Scenario Cases RohlikClient CartService.
Import CartFacts CartMore.
Local Open Scope list_scope.
Local Open Scope Z_scope.




End FormFacts.
